(** * Execution contexts of effection: the task tree of [context.js]

    A shallow embedding of [packages/effection/src/context.js].  Every
    [ExecutionContext] object is a cell of a heap indexed by the context's
    [id]; the methods that call each other ([halt], [resume], [fail],
    [finalize], [trapExit], [link]) are one fuel-indexed interpreter
    [exec] over that heap, the fuel bounding the depth of the JavaScript
    call stack. *)

From Stdlib Require Import List Arith Bool ZArith String Lia.
Import ListNotations.

(** ** Values *)

Definition id := nat.
Definition pid := nat.

(** JavaScript values that reach a context as results, errors and halt
    reasons.  [VContext c] is the [ExecutionContext] object with id [c];
    [VObject o] is any other object, known by its identity;
    [VHaltError v] is [new HaltError(v)]. *)
Inductive value : Type :=
| VUndefined
| VNull
| VBool (b : bool)
| VNum (z : Z)
| VStr (s : string)
| VContext (c : id)
| VObject (o : nat)
| VHaltError (cause : value).

(** Truthiness, as used by [result || this.result]. *)
Definition truthy (v : value) : bool :=
  match v with
  | VUndefined | VNull => false
  | VBool b => b
  | VNum z => negb (Z.eqb z 0)
  | VStr s => negb (String.eqb s EmptyString)
  | VContext _ | VObject _ | VHaltError _ => true
  end.

(** [a || b] on values. *)
Definition js_or (a b : value) : value := if truthy a then a else b.

(** [c === value] where [c] is a context object. *)
Definition is_context (c : id) (v : value) : bool :=
  match v with
  | VContext k => Nat.eqb k c
  | _ => false
  end.

(** ** States *)

Inductive Final : Type := completed | errored | halted.

Inductive State : Type :=
| unstarted
| running
| waiting
| final (f : Final).

Coercion final : Final >-> State.

Definition Final_eqb (a b : Final) : bool :=
  match a, b with
  | completed, completed | errored, errored | halted, halted => true
  | _, _ => false
  end.

Definition State_eqb (a b : State) : bool :=
  match a, b with
  | unstarted, unstarted | running, running | waiting, waiting => true
  | final f, final g => Final_eqb f g
  | _, _ => false
  end.

(** ** Exit hooks

    A hook is a user function.  What the model keeps of it is a name and
    whether a call of it throws; a hook does not call back into the tree
    while it runs.  [ensure] binds the hook ([hook.bind(null, this)]): each
    bound function is a new object, told apart by [run_id]. *)
Record hook : Type := Hook { hook_name : nat; hook_throws : bool }.

Record bound_hook : Type := Bound { run_id : nat; run_hook : hook }.

(** ** Contexts *)

Record node : Type := Node {
  state : State;
  isRequired : bool;
  blockOnReturnedContext : bool;
  children : list id;            (* Set, in insertion order *)
  exitHooks : list bound_hook;   (* Set, in insertion order *)
  result : value;
  parent : option id;
  operation : option nat;
  resolve : option pid;          (* resolve callback of the last promise *)
  reject : option pid            (* reject callback of the last promise *)
}.

Definition isUnstarted (x : node) : bool := State_eqb (state x) unstarted.
Definition isRunning (x : node) : bool := State_eqb (state x) running.
Definition isWaiting (x : node) : bool := State_eqb (state x) waiting.
Definition isCompleted (x : node) : bool := State_eqb (state x) completed.
Definition isErrored (x : node) : bool := State_eqb (state x) errored.
Definition isHalted (x : node) : bool := State_eqb (state x) halted.

Definition isBlocking (x : node) : bool :=
  isRunning x || isWaiting x || isUnstarted x.

Definition with_state (s : State) (x : node) : node :=
  Node s (isRequired x) (blockOnReturnedContext x) (children x) (exitHooks x)
       (result x) (parent x) (operation x) (resolve x) (reject x).

Definition with_result (v : value) (x : node) : node :=
  Node (state x) (isRequired x) (blockOnReturnedContext x) (children x)
       (exitHooks x) v (parent x) (operation x) (resolve x) (reject x).

Definition with_children (l : list id) (x : node) : node :=
  Node (state x) (isRequired x) (blockOnReturnedContext x) l (exitHooks x)
       (result x) (parent x) (operation x) (resolve x) (reject x).

Definition with_exitHooks (l : list bound_hook) (x : node) : node :=
  Node (state x) (isRequired x) (blockOnReturnedContext x) (children x) l
       (result x) (parent x) (operation x) (resolve x) (reject x).

Definition with_parent (p : option id) (x : node) : node :=
  Node (state x) (isRequired x) (blockOnReturnedContext x) (children x)
       (exitHooks x) (result x) p (operation x) (resolve x) (reject x).

Definition with_operation (o : option nat) (x : node) : node :=
  Node (state x) (isRequired x) (blockOnReturnedContext x) (children x)
       (exitHooks x) (result x) (parent x) o (resolve x) (reject x).

Definition with_callbacks (p : option pid) (x : node) : node :=
  Node (state x) (isRequired x) (blockOnReturnedContext x) (children x)
       (exitHooks x) (result x) (parent x) (operation x) p p.

(** The constructor: [new ExecutionContext({ isRequired, blockOnReturnedContext })]. *)
Definition new_node (req bl : bool) : node :=
  Node unstarted req bl [] [] VUndefined None None None None.

(** ** Promises *)

(** A value with a [then] method.  An [ExecutionContext] has one
    ([then(...args)], which reads [this.promise]); the other values of the
    model have none. *)
Definition thenable (v : value) : bool :=
  match v with
  | VContext _ => true
  | _ => false
  end.

(** The state of a promise.  [Resolved v] is fulfilled with [v].  A promise
    whose resolve callback was called with a thenable is not settled: it is
    [Following] the thenable until the job that the platform queues has
    called the thenable's [then], and from then on [Subscribed] to the
    promise that [then] subscribed it to, whose outcome it takes. *)
Inductive pstate : Type :=
| Pending
| Following (v : value)
| Subscribed (q : pid)
| Resolved (v : value)
| Rejected (v : value).

(** Whether the promise is fulfilled or rejected. *)
Definition settled (s : pstate) : bool :=
  match s with
  | Resolved _ | Rejected _ => true
  | _ => false
  end.

(** What a pending promise becomes by [resolve(v)], written [Resolved v],
    or [reject(v)], written [Rejected v]. *)
Definition landing (s : pstate) : pstate :=
  match s with
  | Resolved v => if thenable v then Following v else Resolved v
  | _ => s
  end.

(** ** The world *)

(** What an observer sees happen, in order. *)
Inductive event : Type :=
| EvState (n : id) (s : State)              (* [n.state = s] *)
| EvHaltChild (n child : id) (r : value)    (* finalize of [n]: [child.halt(r)] *)
| EvHook (n : id) (h : hook) (arg : option id) (* the hook is called *)
| EvConsoleError (n : id) (h : hook)        (* the catch block of finalize *)
| EvTrapExit (n child : id)                 (* [n.trapExit(child)] *)
| EvSettle (p : pid) (s : pstate).          (* resolve or reject is called *)

Record world : Type := World {
  nodes : id -> node;
  ids : id;                      (* [let ids = 1], the next id *)
  promises : pid -> pstate;
  next_promise : pid;
  next_run : nat;
  trace : list event
}.

Definition upd_node (n : id) (f : node -> node) (w : world) : world :=
  World (fun m => if Nat.eqb m n then f (nodes w m) else nodes w m)
        (ids w) (promises w) (next_promise w) (next_run w) (trace w).

Definition log (e : event) (w : world) : world :=
  World (nodes w) (ids w) (promises w) (next_promise w) (next_run w)
        (trace w ++ [e]).

(** Calling the resolve or reject callback of promise [p]: the first call
    decides, later calls do nothing. *)
Definition settle (p : pid) (s : pstate) (w : world) : world :=
  match promises w p with
  | Pending =>
      log (EvSettle p s)
        (World (nodes w) (ids w)
               (fun q => if Nat.eqb q p then landing s else promises w q)
               (next_promise w) (next_run w) (trace w))
  | _ => log (EvSettle p s) w
  end.

(** A cell that no context occupies. *)
Definition no_node : node :=
  Node halted false false [] [] VUndefined None None None None.

Definition empty_world : world :=
  World (fun _ => no_node) 1 (fun _ => Pending) 0 0 [].

(** [this.state = s] *)
Definition set_state (n : id) (s : State) (w : world) : world :=
  log (EvState n s) (upd_node n (with_state s) w).

(** Sets in insertion order. *)
Definition set_add (c : id) (l : list id) : list id :=
  if existsb (Nat.eqb c) l then l else l ++ [c].

Definition set_delete (c : id) (l : list id) : list id :=
  filter (fun k => negb (Nat.eqb k c)) l.

(** ** Outcomes *)

Inductive outcome : Type :=
| Done (w : world)
| Threw (w : world)
| OutOfFuel.

Definition bind (o : outcome) (k : world -> outcome) : outcome :=
  match o with
  | Done w => k w
  | Threw w => Threw w
  | OutOfFuel => OutOfFuel
  end.

Notation "'do' w <- o ; k" := (bind o (fun w => k))
  (at level 10, w name, o at level 100, k at level 200).

Fixpoint foreach {A : Type} (body : A -> world -> outcome) (l : list A)
  (w : world) : outcome :=
  match l with
  | [] => Done w
  | x :: l' => do w' <- body x w; foreach body l' w'
  end.

Inductive call : Type :=
| Halt (n : id) (reason : value)
| Resume (n : id) (v : value)
| Fail (n : id) (error : value)
| Finalize (n : id) (s : Final) (r : value)
| TrapExit (n child : id)
| Link (n child : id).

(** Modelled from the spec: the handler that [ControlFunction.for] of
    [control.js] resolves for an operation.  It "is invoked once,
    synchronously, with the bound capability set", "calling back into these
    functions (possibly zero or more times, possibly never)".  What the
    model keeps of a handler is the calls that it makes on the context it
    is given before it returns, in order, and whether it throws at the end
    of them; a handler does not catch what one of its calls throws. *)
Inductive callback : Type :=
| CallResume (v : value)
| CallFail (error : value)
| CallEnsure (h : hook)
| CallSpawn (op : nat)
| CallFork (op : nat)
| CallHalt (reason : value)      (* [context.halt(reason)] *)
| Throw.

Section Context.

(** [contextOf] of [resource.js]: the context embedded in a value, if any. *)
Variable contextOf : value -> option id.

Definition embeds (v : value) (c : id) : bool :=
  match contextOf v with
  | Some k => Nat.eqb k c
  | None => false
  end.

(** Modelled from the spec: [HaltError] of [control.js], the cancellation
    error kind, "a distinct error wrapping a halt reason". *)
Definition HaltError (reason : value) : value := VHaltError reason.

(** [finalizePromise] *)
Definition finalizePromise (n : id) (w : world) : world :=
  let x := nodes w n in
  match isCompleted x, resolve x with
  | true, Some p => settle p (Resolved (result x)) w
  | _, _ =>
    match isErrored x, reject x with
    | true, Some p => settle p (Rejected (result x)) w
    | _, _ =>
      match isHalted x, reject x with
      | true, Some p => settle p (Rejected (HaltError (result x))) w
      | _, _ => w
      end
    end
  end.

(** [unlink] *)
Definition unlink (n child : id) (w : world) : world :=
  upd_node n (fun x => with_children (set_delete child (children x)) x)
    (upd_node child (with_parent None) w).

(** The exit-hook loop of finalize: each bound hook is called with the
    context; what it throws is caught and reported. *)
Fixpoint run_hooks (n : id) (l : list bound_hook) (w : world) : world :=
  match l with
  | [] => w
  | b :: l' =>
      let w1 := log (EvHook n (run_hook b) (Some n)) w in
      let w2 := if hook_throws (run_hook b)
                then log (EvConsoleError n (run_hook b)) w1 else w1 in
      run_hooks n l' w2
  end.

(** [finalize], its two assignments:
    [this.state = state; this.result = result || this.result]. *)
Definition settle_node (n : id) (s : Final) (r : value) (w : world) : world :=
  let w1 := set_state n s w in
  upd_node n (with_result (js_or r (result (nodes w1 n)))) w1.

(** The methods that call each other.  [self] stands for a method call made
    from inside a method, one stack frame deeper. *)
Section Methods.

Variable self : call -> world -> outcome.

(** [halt] *)
Definition do_halt (n : id) (reason : value) (w : world) : outcome :=
  if isBlocking (nodes w n) then self (Finalize n halted reason) w
  else Done w.

(** [fail] *)
Definition do_fail (n : id) (error : value) (w : world) : outcome :=
  if isBlocking (nodes w n) then self (Finalize n errored error) w
  else Done w.

(** [resume], its first half: record the value and link the context it
    embeds, when the context is running. *)
Definition resume_link (n : id) (v : value) (w : world) : outcome :=
  if isRunning (nodes w n) then
    let w0 := upd_node n (with_result v) w in
    match contextOf v with
    | Some k => self (Link n k) w0
    | None => Done w0
    end
  else Done w.

(** [resume], the test of its second half: must the context wait? *)
Definition must_wait (n : id) (v : value) (w : world) : bool :=
  existsb (fun c => if is_context c v
                    then blockOnReturnedContext (nodes w n)
                    else isRequired (nodes w c))
          (children (nodes w n)).

(** [resume] *)
Definition do_resume (n : id) (v : value) (w : world) : outcome :=
  if isBlocking (nodes w n) then
    do w1 <- resume_link n v w;
    if must_wait n v w1 then Done (set_state n waiting w1)
    else self (Finalize n completed v) w1
  else Done w.

(** [finalize], the loop over the children. *)
Definition halt_child (n : id) (r : value) (child : id) (w : world) : outcome :=
  if blockOnReturnedContext (nodes w n)
     || negb (embeds (result (nodes w n)) child)
  then self (Halt child r) (log (EvHaltChild n child r) w)
  else Done w.

(** [finalize], the notification of the parent. *)
Definition notify_parent (n : id) (w : world) : outcome :=
  match parent (nodes w n) with
  | Some p => self (TrapExit p n) w
  | None => Done w
  end.

(** [finalize] *)
Definition do_finalize (n : id) (s : Final) (r : value) (w : world) : outcome :=
  if isBlocking (nodes w n) then
    let w2 := settle_node n s r w in
    do w3 <- foreach (halt_child n r) (rev (children (nodes w2 n))) w2;
    let w4 := run_hooks n (rev (exitHooks (nodes w3 n))) w3 in
    do w5 <- notify_parent n w4;
    Done (finalizePromise n w5)
  else Done w.

(** [trapExit], the adoption of the context a completed child returned. *)
Definition adopt (n child : id) (w : world) : outcome :=
  if isCompleted (nodes w child) then
    match contextOf (result (nodes w child)) with
    | Some k => self (Link n k) w
    | None => Done w
    end
  else Done w.

(** [trapExit] *)
Definition do_trapExit (n child : id) (w : world) : outcome :=
  let w1 := unlink n child (log (EvTrapExit n child) w) in
  do w2 <- adopt n child w1;
  if isErrored (nodes w2 child) then
    self (Fail n (result (nodes w2 child))) w2
  else if isWaiting (nodes w2 n)
          && forallb (fun c => negb (isRequired (nodes w2 c)))
                     (children (nodes w2 n))
  then self (Finalize n completed VUndefined) w2
  else Done w2.

(** [link], the detachment from the former parent. *)
Definition detach (child : id) (w : world) : world :=
  match parent (nodes w child) with
  | Some q => unlink q child w
  | None => w
  end.

(** [link], the attachment. *)
Definition attach (n child : id) (w : world) : world :=
  upd_node n (fun x => with_children (set_add child (children x)) x)
    (upd_node child (with_parent (Some n)) w).

(** [link] *)
Definition do_link (n child : id) (w : world) : outcome :=
  if Nat.eqb n child then Threw w
  else
    do w1 <- (if negb (isBlocking (nodes w n))
              then self (Halt child VUndefined) w else Done w);
    let w2 := detach child w1 in
    if isBlocking (nodes w2 child) then Done (attach n child w2)
    else self (TrapExit n child) w2.

Definition dispatch (c : call) : world -> outcome :=
  match c with
  | Halt n reason => do_halt n reason
  | Resume n v => do_resume n v
  | Fail n error => do_fail n error
  | Finalize n s r => do_finalize n s r
  | TrapExit n child => do_trapExit n child
  | Link n child => do_link n child
  end.

End Methods.

(** A call with [fuel] stack frames left. *)
Fixpoint exec (fuel : nat) (c : call) (w : world) : outcome :=
  match fuel with
  | O => OutOfFuel
  | S fuel => dispatch (exec fuel) c w
  end.

(** The methods, by their names. *)
Definition halt (fuel : nat) (n : id) (reason : value) := exec fuel (Halt n reason).
Definition resume (fuel : nat) (n : id) (v : value) := exec fuel (Resume n v).
Definition fail (fuel : nat) (n : id) (error : value) := exec fuel (Fail n error).
Definition finalize (fuel : nat) (n : id) (s : Final) (r : value) :=
  exec fuel (Finalize n s r).
Definition trapExit (fuel : nat) (n child : id) := exec fuel (TrapExit n child).
Definition link (fuel : nat) (n child : id) := exec fuel (Link n child).

(** [get promise]: a new promise whose callbacks replace the stored pair,
    then [finalizePromise]. *)
Definition promise (n : id) (w : world) : world * pid :=
  let p := next_promise w in
  let w1 := World (nodes w) (ids w)
                  (fun q => if Nat.eqb q p then Pending else promises w q)
                  (S p) (next_run w) (trace w) in
  (finalizePromise n (upd_node n (with_callbacks (Some p)) w1), p).

(** The job that the platform runs for a promise that follows a context:
    [c.then(resolve, reject)] with the callbacks of the promise.  [then]
    reads [c.promise], which makes a new promise of [c] and stores its
    callbacks in [c], and subscribes the callbacks of [p] to it. *)
Definition then_job (p : pid) (w : world) : world :=
  match promises w p with
  | Following (VContext c) =>
      let w1 := fst (promise c w) in
      let q := snd (promise c w) in
      World (nodes w1) (ids w1)
            (fun k => if Nat.eqb k p then Subscribed q else promises w1 k)
            (next_promise w1) (next_run w1) (trace w1)
  | _ => w
  end.

(** The reaction of a subscribed promise, once the promise it is
    subscribed to is settled: it takes the outcome. *)
Definition reaction_job (p : pid) (w : world) : world :=
  match promises w p with
  | Subscribed q =>
      if settled (promises w q) then
        World (nodes w) (ids w)
              (fun k => if Nat.eqb k p then promises w q else promises w k)
              (next_promise w) (next_run w) (trace w)
      else w
  | _ => w
  end.

(** What [ensure] returns: [() => this.exitHooks.delete(run)] or [x => x]. *)
Inductive unregister : Type :=
| DeleteRun (n : id) (run : nat)
| Identity.

Inductive ensured : Type :=
| Ensured (w : world) (u : unregister)
| EnsureThrew (w : world).

(** [ensure] *)
Definition ensure (n : id) (h : hook) (w : world) : ensured :=
  let run := Bound (next_run w) h in
  let w0 := World (nodes w) (ids w) (promises w) (next_promise w)
                  (S (next_run w)) (trace w) in
  if isBlocking (nodes w n) then
    Ensured (upd_node n (fun x => with_exitHooks (exitHooks x ++ [run]) x) w0)
            (DeleteRun n (run_id run))
  else
    let w1 := log (EvHook n h None) w0 in
    if hook_throws h then EnsureThrew w1 else Ensured w1 Identity.

Definition ensured_world (e : ensured) : world :=
  match e with
  | Ensured w _ | EnsureThrew w => w
  end.

(** Calling the function that [ensure] returned. *)
Definition call_unregister (u : unregister) (w : world) : world :=
  match u with
  | DeleteRun n run =>
      upd_node n (fun x => with_exitHooks
                    (filter (fun b => negb (Nat.eqb (run_id b) run)) (exitHooks x)) x) w
  | Identity => w
  end.

(** [new ExecutionContext(...)]: the context takes the next id. *)
Definition construct (req bl : bool) (w : world) : world * id :=
  let n := ids w in
  (World (fun m => if Nat.eqb m n then new_node req bl else nodes w m)
         (S n) (promises w) (next_promise w) (next_run w) (trace w), n).

(** [ControlFunction.for] of [control.js]: the handler of an operation, if
    it has one. *)
Variable controllerOf : nat -> option (list callback).

(** [spawn] and [fork], given the [enter] of the child. *)
Definition add_child_with (enter_child : id -> nat -> world -> outcome)
  (req : bool) (fuel : nat) (n : id) (op : nat) (w : world) : outcome * id :=
  let (w0, child) := construct req false w in
  (do w1 <- link fuel n child w0; enter_child child op w1, child).

(** One call that the handler of [n] makes. *)
Definition call_back (enter_child : id -> nat -> world -> outcome)
  (fuel : nat) (n : id) (cb : callback) (w : world) : outcome :=
  match cb with
  | CallResume v => resume fuel n v w
  | CallFail error => fail fuel n error w
  | CallHalt reason => halt fuel n reason w
  | CallEnsure h =>
      match ensure n h w with
      | Ensured w' _ => Done w'
      | EnsureThrew w' => Threw w'
      end
  | CallSpawn op => fst (add_child_with enter_child false fuel n op w)
  | CallFork op => fst (add_child_with enter_child true fuel n op w)
  | Throw => Threw w
  end.

(** [enter], with [fuel] stack frames left: it stores the operation, makes
    the context running and calls the handler. *)
Fixpoint enter (fuel : nat) (n : id) (op : nat) (w : world) : outcome :=
  match fuel with
  | O => OutOfFuel
  | S fuel =>
      if isUnstarted (nodes w n) then
        match controllerOf op with
        | Some handler =>
            foreach (call_back (enter fuel) fuel n) handler
              (set_state n running (upd_node n (with_operation (Some op)) w))
        | None => Threw w
        end
      else Threw w
  end.

(** [spawn] and [fork] *)
Definition add_child (req : bool) (fuel : nat) (n : id) (op : nat) (w : world)
  : outcome * id :=
  add_child_with (enter fuel) req fuel n op w.

Definition spawn := add_child false.
Definition fork := add_child true.

End Context.

(** [get root], with [fuel] stack frames left: the getter calls itself on
    the parent; [None] when the frames run out. *)
Fixpoint root (fuel : nat) (n : id) (w : world) : option id :=
  match fuel with
  | O => None
  | S fuel =>
      match parent (nodes w n) with
      | None => Some n
      | Some p => root fuel p w
      end
  end.

(** * Worlds to run the methods in *)

(** Modelled from the spec: [contextOf] of [resource.js], the task-chain
    extraction [extractTask(value) -> TaskNode | none].  A context embeds
    itself; no other value of this model embeds a context. *)
Definition contextOf_value (v : value) : option id :=
  match v with
  | VContext c => Some c
  | _ => None
  end.

(** Every operation has a handler, which returns without a call. *)
Definition any_controller (op : nat) : option (list callback) := Some [].

(** Handlers that call back at once: that of operation 1 resumes with 7,
    that of operation 2 forks the operation 1 and then spawns the operation
    0, that of operation 3 throws; operation 0 has a handler that makes no
    call, and the other operations have none. *)
Definition some_controllers (op : nat) : option (list callback) :=
  match op with
  | 0 => Some []
  | 1 => Some [CallResume (VNum 7)]
  | 2 => Some [CallFork 1; CallSpawn 0]
  | 3 => Some [Throw]
  | _ => None
  end.

Definition world_after (o : outcome) : world :=
  match o with
  | Done w | Threw w => w
  | OutOfFuel => empty_world
  end.

Definition returned (o : outcome) : bool :=
  match o with
  | Done _ => true
  | _ => false
  end.

Definition fuelled (o : outcome) : bool :=
  match o with
  | OutOfFuel => false
  | _ => true
  end.

(** A context that nobody entered: it has id 1. *)
Definition fresh_world : world := fst (construct false false empty_world).

(** A running root, id 1. *)
Definition root_world : world := world_after (enter contextOf_value any_controller 5 1 0 fresh_world).

(** The root and a running child of it, id 2, forked or spawned. *)
Definition family (required : bool) : world :=
  world_after (fst (add_child contextOf_value any_controller required 5 1 7 root_world)).

(** The root waits, with the result 42, for its forked child. *)
Definition waiting_family : world :=
  world_after (resume contextOf_value 5 1 (VNum 42) (family true)).

(** The root has completed with its spawned child as the result: the child
    is spared and still listed. *)
Definition handed_off : world :=
  world_after (resume contextOf_value 5 1 (VContext 2) (family false)).

(** Ranks for these worlds: the root is above its child. *)
Definition depth_rank (n : id) : nat := 10 - n.

(** The root of a family of three: a forked child 2 and a spawned child 3. *)
Definition family_of_three : world :=
  world_after (fst (add_child contextOf_value any_controller false 5 1 8 (family true))).

(** The forked child 2 of the root and, under it, a spawned child 3. *)
Definition nested_family : world :=
  world_after (fst (add_child contextOf_value any_controller false 5 2 9 (family true))).

(** The running root with the hooks 1, 2 and 3, registered in this order;
    hook 2 throws. *)
Definition hooked_world : world :=
  ensured_world (ensure 1 (Hook 3 false)
    (ensured_world (ensure 1 (Hook 2 true)
      (ensured_world (ensure 1 (Hook 1 false) root_world))))).

(** The moment a child that failed with [error] has stored its state and
    its result and is about to call [trapExit] on its parent. *)
Definition just_errored (child : id) (error : value) (w : world) : world :=
  settle_node child errored error w.

(** * Basic facts *)

Lemma isBlocking_false_final (x : node) :
  isBlocking x = false <-> exists f : Final, state x = f.
Proof.
  unfold isBlocking, isRunning, isWaiting, isUnstarted.
  destruct (state x) as [ | | |f]; simpl; split; intros H;
    try discriminate; try (now destruct H); try reflexivity.
  now exists f.
Qed.

Lemma isBlocking_with_final (s : Final) (x : node) :
  isBlocking (with_state s x) = false.
Proof. now destruct s. Qed.

Lemma filter_filter {A : Type} (f g : A -> bool) (l : list A) :
  filter g (filter f l) = filter (fun a => f a && g a) l.
Proof.
  induction l as [|a l IH]; simpl; [reflexivity|].
  destruct (f a); simpl; [destruct (g a)|]; now rewrite IH.
Qed.

Lemma filter_true {A : Type} (l : list A) : filter (fun _ => true) l = l.
Proof. induction l as [|a l IH]; simpl; [|rewrite IH]; reflexivity. Qed.

(** The context an event is an action of. *)
Definition subject (e : event) : option id :=
  match e with
  | EvState n _ | EvHaltChild n _ _ | EvHook n _ _ | EvConsoleError n _ => Some n
  | EvTrapExit _ _ | EvSettle _ _ => None
  end.

(** * The frame of a call

    [frame w w'] collects what no call of [exec] changes between the world
    [w] it starts in and the world [w'] it leaves. *)
Set Implicit Arguments.

Record frame (w w' : world) : Prop := Frame {
  fr_required : forall n, isRequired (nodes w' n) = isRequired (nodes w n);
  fr_block : forall n,
      blockOnReturnedContext (nodes w' n) = blockOnReturnedContext (nodes w n);
  fr_hooks : forall n, exitHooks (nodes w' n) = exitHooks (nodes w n);
  fr_operation : forall n, operation (nodes w' n) = operation (nodes w n);
  fr_resolve : forall n, resolve (nodes w' n) = resolve (nodes w n);
  fr_reject : forall n, reject (nodes w' n) = reject (nodes w n);
  fr_ids : ids w' = ids w;
  fr_next_promise : next_promise w' = next_promise w;
  fr_next_run : next_run w' = next_run w;
  fr_state : forall n, isBlocking (nodes w n) = false ->
                       state (nodes w' n) = state (nodes w n);
  fr_result : forall n, isBlocking (nodes w n) = false ->
                        result (nodes w' n) = result (nodes w n);
  fr_children : forall n, isBlocking (nodes w n) = false ->
      exists f, children (nodes w' n) = filter f (children (nodes w n));
  fr_trace : exists d, trace w' = trace w ++ d
      /\ forall n, isBlocking (nodes w n) = false ->
                   Forall (fun e => subject e <> Some n) d;
  fr_promises : forall p,
      promises w p <> Pending
      \/ (forall n, resolve (nodes w n) = Some p \/ reject (nodes w n) = Some p ->
                    isBlocking (nodes w n) = false) ->
      promises w' p = promises w p
}.

Unset Implicit Arguments.

Lemma frame_refl (w : world) : frame w w.
Proof.
  constructor; try reflexivity.
  - intros n _. exists (fun _ => true). now rewrite filter_true.
  - exists []. split; [now rewrite app_nil_r | intros; constructor].
Qed.

Lemma frame_blocking {w w' : world} (F : frame w w') (n : id) :
  isBlocking (nodes w n) = false -> isBlocking (nodes w' n) = false.
Proof.
  intros H. unfold isBlocking, isRunning, isWaiting, isUnstarted in *.
  now rewrite (fr_state F n H).
Qed.

Lemma frame_trans (w1 w2 w3 : world) : frame w1 w2 -> frame w2 w3 -> frame w1 w3.
Proof.
  intros F G. constructor.
  - intros n. now rewrite (fr_required G), (fr_required F).
  - intros n. now rewrite (fr_block G), (fr_block F).
  - intros n. now rewrite (fr_hooks G), (fr_hooks F).
  - intros n. now rewrite (fr_operation G), (fr_operation F).
  - intros n. now rewrite (fr_resolve G), (fr_resolve F).
  - intros n. now rewrite (fr_reject G), (fr_reject F).
  - now rewrite (fr_ids G), (fr_ids F).
  - now rewrite (fr_next_promise G), (fr_next_promise F).
  - now rewrite (fr_next_run G), (fr_next_run F).
  - intros n H. rewrite (fr_state G n (frame_blocking F n H)). now apply fr_state.
  - intros n H. rewrite (fr_result G n (frame_blocking F n H)). now apply fr_result.
  - intros n H. destruct (fr_children F n H) as [f Hf].
    destruct (fr_children G n (frame_blocking F n H)) as [g Hg].
    exists (fun a => f a && g a). now rewrite Hg, Hf, filter_filter.
  - destruct (fr_trace F) as (d1 & E1 & Q1), (fr_trace G) as (d2 & E2 & Q2).
    exists (d1 ++ d2). split.
    + now rewrite E2, E1, app_assoc.
    + intros n H. apply Forall_app. split; [now apply Q1|].
      apply Q2. now apply (frame_blocking F).
  - intros p H. rewrite (fr_promises G).
    + now apply fr_promises.
    + destruct H as [H|H].
      * left. now rewrite (fr_promises F (or_introl H)).
      * right. intros n. rewrite (fr_resolve F), (fr_reject F). intros Hn.
        apply (frame_blocking F). now apply H.
Qed.

(** A function on contexts that keeps the fields on which no method writes
    after the constructor, [enter], [ensure] and the promise getter. *)
Definition keeps_fixed (f : node -> node) : Prop :=
  forall x, isRequired (f x) = isRequired x
         /\ blockOnReturnedContext (f x) = blockOnReturnedContext x
         /\ exitHooks (f x) = exitHooks x
         /\ operation (f x) = operation x
         /\ resolve (f x) = resolve x
         /\ reject (f x) = reject x.

(** A function on contexts that a settled context tolerates. *)
Definition keeps_settled (f : node -> node) : Prop :=
  forall x, state (f x) = state x
         /\ result (f x) = result x
         /\ exists g, children (f x) = filter g (children x).

Lemma frame_log (w w1 : world) (e : event) :
  frame w w1 ->
  (forall n, subject e = Some n -> isBlocking (nodes w n) = true) ->
  frame w (log e w1).
Proof.
  intros F He. destruct F. constructor; simpl; auto.
  destruct fr_trace0 as (d & E & Q). exists (d ++ [e]). split.
  - now rewrite E, app_assoc.
  - intros n H. apply Forall_app. split; [now apply Q|].
    constructor; [|constructor]. intros S. apply He in S. congruence.
Qed.

Lemma frame_upd (w w1 : world) (n : id) (f : node -> node) :
  frame w w1 -> keeps_fixed f ->
  isBlocking (nodes w n) = true \/ keeps_settled f ->
  frame w (upd_node n f w1).
Proof.
  intros F Kf Ks. destruct F.
  constructor; simpl; auto;
    try (intros m; destruct (Nat.eqb_spec m n) as [->|]; auto;
         destruct (Kf (nodes w1 n)) as (? & ? & ? & ? & ? & ?); congruence).
  - intros m H. destruct (Nat.eqb_spec m n) as [->|]; auto.
    destruct Ks as [Ks|Ks]; [congruence|].
    destruct (Ks (nodes w1 n)) as (-> & _ & _). auto.
  - intros m H. destruct (Nat.eqb_spec m n) as [->|]; auto.
    destruct Ks as [Ks|Ks]; [congruence|].
    destruct (Ks (nodes w1 n)) as (_ & -> & _). auto.
  - intros m H. destruct (Nat.eqb_spec m n) as [->|]; auto.
    destruct Ks as [Ks|Ks]; [congruence|].
    destruct (Ks (nodes w1 n)) as (_ & _ & g & ->).
    destruct (fr_children0 n H) as [f0 ->].
    exists (fun a => f0 a && g a). apply filter_filter.
Qed.

Lemma frame_settle (w w1 : world) (n : id) (p : pid) (s : pstate) :
  frame w w1 ->
  isBlocking (nodes w n) = true ->
  resolve (nodes w n) = Some p \/ reject (nodes w n) = Some p ->
  frame w (settle p s w1).
Proof.
  intros F B Hn. unfold settle. destruct (promises w1 p) eqn:Ep.
  - apply frame_log; [|discriminate].
    destruct F. constructor; simpl; auto.
    intros q Hq. destruct (Nat.eqb_spec q p) as [->|]; auto.
    rewrite (fr_promises0 p Hq) in Ep. destruct Hq as [Hq|Hq]; [congruence|].
    specialize (Hq n Hn). congruence.
  - apply frame_log; [assumption|discriminate].
  - apply frame_log; [assumption|discriminate].
  - apply frame_log; [assumption|discriminate].
  - apply frame_log; [assumption|discriminate].
Qed.

Lemma keeps_fixed_with_state (s : State) : keeps_fixed (with_state s).
Proof. intros x. now repeat split. Qed.

Lemma keeps_fixed_with_result (v : value) : keeps_fixed (with_result v).
Proof. intros x. now repeat split. Qed.

Lemma keeps_fixed_with_parent (p : option id) : keeps_fixed (with_parent p).
Proof. intros x. now repeat split. Qed.

Lemma keeps_fixed_with_children (g : list id -> list id) :
  keeps_fixed (fun x => with_children (g (children x)) x).
Proof. intros x. now repeat split. Qed.

Lemma keeps_settled_with_parent (p : option id) : keeps_settled (with_parent p).
Proof.
  intros x. repeat split. exists (fun _ => true). simpl. now rewrite filter_true.
Qed.

Lemma keeps_settled_delete (c : id) :
  keeps_settled (fun x => with_children (set_delete c (children x)) x).
Proof. intros x. repeat split. now eexists. Qed.

Create HintDb frame.

#[local] Hint Resolve keeps_fixed_with_state keeps_fixed_with_result
  keeps_fixed_with_parent keeps_fixed_with_children keeps_settled_with_parent
  keeps_settled_delete : frame.

Lemma frame_set_state (w w1 : world) (n : id) (s : State) :
  frame w w1 -> isBlocking (nodes w n) = true -> frame w (set_state n s w1).
Proof.
  intros F H. unfold set_state. apply frame_log.
  - apply frame_upd; auto with frame.
  - simpl. now intros m [= <-].
Qed.

Lemma frame_unlink (w w1 : world) (n child : id) :
  frame w w1 -> frame w (unlink n child w1).
Proof.
  intros F. unfold unlink. apply frame_upd; auto with frame.
  apply frame_upd; auto with frame.
Qed.

Lemma frame_finalizePromise (w w1 : world) (n : id) :
  frame w w1 -> isBlocking (nodes w n) = true -> frame w (finalizePromise n w1).
Proof.
  intros F B. unfold finalizePromise.
  destruct (isCompleted (nodes w1 n)), (isErrored (nodes w1 n)),
    (isHalted (nodes w1 n));
    destruct (resolve (nodes w1 n)) eqn:E1, (reject (nodes w1 n)) eqn:E2;
    try assumption;
    rewrite ?(fr_resolve F) in E1; rewrite ?(fr_reject F) in E2;
    apply (frame_settle w w1 n); auto.
Qed.

Lemma frame_run_hooks (w : world) (n : id) (l : list bound_hook) :
  isBlocking (nodes w n) = true ->
  forall w1, frame w w1 -> frame w (run_hooks n l w1).
Proof.
  intros H. induction l as [|b l IH]; intros w1 F; simpl; [assumption|].
  apply IH. destruct (hook_throws (run_hook b)).
  - apply frame_log; [apply frame_log|]; auto; simpl; now intros m [= <-].
  - apply frame_log; auto; simpl; now intros m [= <-].
Qed.

(** The world a call leaves, whether it returns or throws. *)
Definition world_of (o : outcome) : option world :=
  match o with
  | Done w | Threw w => Some w
  | OutOfFuel => None
  end.

Lemma bind_world_of (o : outcome) (k : world -> outcome) (w' : world) :
  world_of (bind o k) = Some w' ->
  o = Threw w' \/ exists w1, o = Done w1 /\ world_of (k w1) = Some w'.
Proof.
  destruct o as [w1|w1|]; simpl; intros H.
  - right. now exists w1.
  - left. congruence.
  - discriminate.
Qed.

Lemma foreach_invariant {A : Type} (body : A -> world -> outcome)
  (P : world -> Prop) (l : list A) :
  (forall x w w', In x l -> P w -> world_of (body x w) = Some w' -> P w') ->
  forall w w', P w -> world_of (foreach body l w) = Some w' -> P w'.
Proof.
  induction l as [|x l IH]; intros Hb w w' Pw R; simpl in R.
  - now injection R as <-.
  - apply bind_world_of in R. destruct R as [R|(w1 & R & R')].
    + apply (Hb x w w'); [now left|assumption|now rewrite R].
    + apply (IH (fun y u u' Hy => Hb y u u' (or_intror Hy)) w1 w');
        [|assumption].
      apply (Hb x w w1); [now left|assumption|now rewrite R].
Qed.

(** What is known of the target of a call once the call is over. *)
Definition settles (c : call) : option id :=
  match c with
  | Halt n _ | Fail n _ | Finalize n _ _ => Some n
  | Resume _ _ | TrapExit _ _ | Link _ _ => None
  end.

Section FrameStep.

Variable contextOf : value -> option id.
Variable self : call -> world -> outcome.

Definition framed (c : call) (w w' : world) : Prop :=
  frame w w' /\ forall n, settles c = Some n -> isBlocking (nodes w' n) = false.

Hypothesis self_framed :
  forall c w w', world_of (self c w) = Some w' -> framed c w w'.

Lemma self_frame (c : call) (w0 w w' : world) :
  frame w0 w -> world_of (self c w) = Some w' -> frame w0 w'.
Proof.
  intros F R. apply (frame_trans _ _ _ F). now apply (self_framed c).
Qed.

Lemma run_hooks_nodes (n : id) (l : list bound_hook) :
  forall w, nodes (run_hooks n l w) = nodes w.
Proof.
  induction l as [|b l IH]; intros w; simpl; [reflexivity|].
  rewrite IH. now destruct (hook_throws (run_hook b)).
Qed.

Lemma finalizePromise_nodes (n : id) (w : world) :
  nodes (finalizePromise n w) = nodes w.
Proof.
  unfold finalizePromise, settle.
  destruct (isCompleted (nodes w n)), (isErrored (nodes w n)),
    (isHalted (nodes w n)), (resolve (nodes w n)), (reject (nodes w n));
    try reflexivity;
    repeat match goal with |- context [promises w ?p] => destruct (promises w p) end;
    reflexivity.
Qed.

Lemma finalizePromise_trace (n : id) (w : world) :
  exists d, trace (finalizePromise n w) = trace w ++ d
            /\ Forall (fun e => subject e = None) d.
Proof.
  unfold finalizePromise, settle.
  destruct (isCompleted (nodes w n)), (isErrored (nodes w n)),
    (isHalted (nodes w n)), (resolve (nodes w n)), (reject (nodes w n));
    try (exists []; split; [now rewrite app_nil_r|constructor]);
    repeat match goal with |- context [promises w ?p] => destruct (promises w p) end;
    simpl; eexists; (split; [reflexivity|]); repeat constructor.
Qed.

Lemma do_halt_framed (n : id) (reason : value) (w w' : world) :
  world_of (do_halt self n reason w) = Some w' -> framed (Halt n reason) w w'.
Proof.
  unfold do_halt. intros R. destruct (isBlocking (nodes w n)) eqn:B.
  - destruct (self_framed _ _ _ R) as [F S]. split; [assumption|].
    intros m [= <-]. now apply S.
  - injection R as <-. split; [apply frame_refl|]. now intros m [= <-].
Qed.

Lemma do_fail_framed (n : id) (error : value) (w w' : world) :
  world_of (do_fail self n error w) = Some w' -> framed (Fail n error) w w'.
Proof.
  unfold do_fail. intros R. destruct (isBlocking (nodes w n)) eqn:B.
  - destruct (self_framed _ _ _ R) as [F S]. split; [assumption|].
    intros m [= <-]. now apply S.
  - injection R as <-. split; [apply frame_refl|]. now intros m [= <-].
Qed.

Lemma resume_link_frame (n : id) (v : value) (w w' : world) :
  world_of (resume_link contextOf self n v w) = Some w' -> frame w w'.
Proof.
  unfold resume_link. intros R.
  destruct (isRunning (nodes w n)) eqn:Run; [|injection R as <-; apply frame_refl].
  assert (F0 : frame w (upd_node n (with_result v) w)).
  { apply frame_upd; auto using frame_refl with frame. left.
    unfold isBlocking. now rewrite Run. }
  destruct (contextOf v).
  - now apply (self_frame _ _ _ _ F0 R).
  - now injection R as <-.
Qed.

Lemma do_resume_framed (n : id) (v : value) (w w' : world) :
  world_of (do_resume contextOf self n v w) = Some w' -> framed (Resume n v) w w'.
Proof.
  unfold do_resume. intros R. split; [|discriminate].
  destruct (isBlocking (nodes w n)) eqn:B; [|injection R as <-; apply frame_refl].
  apply bind_world_of in R. destruct R as [R|(w1 & R1 & R)].
  - apply (resume_link_frame n v). now rewrite R.
  - assert (F1 : frame w w1) by (apply (resume_link_frame n v); now rewrite R1).
    destruct (must_wait n v w1).
    + injection R as <-. now apply frame_set_state.
    + now apply (self_frame _ _ _ _ F1 R).
Qed.

Lemma halt_children_frame (w0 : world) (n : id) (r : value) (l : list id) :
  isBlocking (nodes w0 n) = true ->
  forall w w', frame w0 w -> world_of (foreach (halt_child contextOf self n r) l w) = Some w' ->
               frame w0 w'.
Proof.
  intros B w w'. apply foreach_invariant.
  intros child u u' _ Fu Ru. unfold halt_child in Ru. destruct (_ || _).
  - refine (self_frame _ _ _ _ _ Ru). apply frame_log; [assumption|].
    simpl. now intros m [= <-].
  - now injection Ru as <-.
Qed.

Lemma notify_parent_frame (n : id) (w w' : world) :
  world_of (notify_parent self n w) = Some w' -> frame w w'.
Proof.
  unfold notify_parent. intros R. destruct (parent (nodes w n)).
  - now apply (self_framed _ _ _ R).
  - injection R as <-. apply frame_refl.
Qed.

Lemma do_finalize_framed (n : id) (s : Final) (r : value) (w w' : world) :
  world_of (do_finalize contextOf self n s r w) = Some w' ->
  framed (Finalize n s r) w w'.
Proof.
  unfold do_finalize. intros R.
  destruct (isBlocking (nodes w n)) eqn:B;
    [|injection R as <-; split; [apply frame_refl|now intros m [= <-]]].
  set (w2 := settle_node n s r w) in *.
  assert (F2 : frame w w2).
  { apply frame_upd; auto with frame. apply frame_set_state; auto using frame_refl. }
  assert (S2 : isBlocking (nodes w2 n) = false).
  { unfold w2, settle_node. simpl. rewrite Nat.eqb_refl. now destruct s. }
  cut (frame w w' /\ isBlocking (nodes w' n) = false).
  { intros [F S]. split; [assumption|]. now intros m [= <-]. }
  assert (Hloop : forall l w3,
    world_of (foreach (halt_child contextOf self n r) l w2) = Some w3 ->
    frame w w3 /\ isBlocking (nodes w3 n) = false).
  { intros l w3 R3. split; [now apply (halt_children_frame w n r l B w2)|].
    revert R3. apply (foreach_invariant _ (fun u => isBlocking (nodes u n) = false));
      [|assumption].
    intros child u u' _ Su Ru. unfold halt_child in Ru. destruct (_ || _).
    - apply self_framed in Ru. destruct Ru as [Fu _]. now apply (frame_blocking Fu).
    - now injection Ru as <-. }
  apply bind_world_of in R.
  destruct R as [R|(w3 & R3 & R)]; [apply (Hloop (rev (children (nodes w2 n)))); now rewrite R|].
  destruct (Hloop _ w3 ltac:(now rewrite R3)) as [F3 S3].
  set (w4 := run_hooks n (rev (exitHooks (nodes w3 n))) w3) in *.
  assert (F4 : frame w w4) by now apply frame_run_hooks.
  assert (S4 : isBlocking (nodes w4 n) = false)
    by (unfold w4; now rewrite run_hooks_nodes).
  apply bind_world_of in R.
  assert (Htrap : forall w5, world_of (notify_parent self n w4) = Some w5 ->
                             frame w w5 /\ isBlocking (nodes w5 n) = false).
  { intros w5 R5. apply notify_parent_frame in R5. split.
    - now apply (frame_trans _ _ _ F4).
    - now apply (frame_blocking R5). }
  destruct R as [R|(w5 & R5 & R)]; [apply Htrap; now rewrite R|].
  destruct (Htrap w5 ltac:(now rewrite R5)) as [F5 S5].
  injection R as <-. split; [now apply frame_finalizePromise|].
  now rewrite finalizePromise_nodes.
Qed.

Lemma adopt_frame (n child : id) (w w' : world) :
  world_of (adopt contextOf self n child w) = Some w' -> frame w w'.
Proof.
  unfold adopt. intros R. destruct (isCompleted (nodes w child)).
  - destruct (contextOf _).
    + now apply (self_framed _ _ _ R).
    + injection R as <-. apply frame_refl.
  - injection R as <-. apply frame_refl.
Qed.

Lemma do_trapExit_framed (n child : id) (w w' : world) :
  world_of (do_trapExit contextOf self n child w) = Some w' ->
  framed (TrapExit n child) w w'.
Proof.
  unfold do_trapExit. intros R. split; [|discriminate].
  set (w1 := unlink n child (log (EvTrapExit n child) w)) in *.
  assert (F1 : frame w w1).
  { apply frame_unlink, frame_log; [apply frame_refl|discriminate]. }
  apply bind_world_of in R. destruct R as [R|(w2 & R2 & R)].
  - apply (frame_trans _ _ _ F1), (adopt_frame n child). now rewrite R.
  - assert (F2 : frame w w2).
    { apply (frame_trans _ _ _ F1), (adopt_frame n child). now rewrite R2. }
    destruct (isErrored (nodes w2 child)).
    + now apply (self_frame _ _ _ _ F2 R).
    + destruct (_ && _).
      * now apply (self_frame _ _ _ _ F2 R).
      * now injection R as <-.
Qed.

Lemma frame_detach (child : id) (w : world) : frame w (detach child w).
Proof.
  unfold detach. destruct (parent (nodes w child));
    [apply frame_unlink|]; apply frame_refl.
Qed.

Lemma do_link_framed (n child : id) (w w' : world) :
  world_of (do_link self n child w) = Some w' -> framed (Link n child) w w'.
Proof.
  unfold do_link. intros R. split; [|discriminate].
  destruct (Nat.eqb n child); [injection R as <-; apply frame_refl|].
  apply bind_world_of in R.
  destruct (isBlocking (nodes w n)) eqn:B; simpl in R.
  - destruct R as [R|(w1 & [= <-] & R)]; [discriminate|].
    pose proof (frame_detach child w) as F2.
    destruct (isBlocking (nodes (detach child w) child)).
    + injection R as <-. unfold attach. apply frame_upd; auto with frame.
      apply frame_upd; auto with frame.
    + now apply (self_frame _ _ _ _ F2 R).
  - destruct R as [R|(w1 & R1 & R)].
    + apply (self_framed (Halt child VUndefined)). now rewrite R.
    + destruct (self_framed (Halt child VUndefined) w w1 ltac:(now rewrite R1))
        as [F1 S1].
      specialize (S1 child eq_refl).
      pose proof (frame_detach child w1) as F12.
      rewrite (frame_blocking F12 child S1) in R.
      apply (frame_trans _ _ _ F1). now apply (self_frame _ _ _ _ F12 R).
Qed.

Lemma dispatch_framed (c : call) (w w' : world) :
  world_of (dispatch contextOf self c w) = Some w' -> framed c w w'.
Proof.
  destruct c; simpl.
  - apply do_halt_framed.
  - apply do_resume_framed.
  - apply do_fail_framed.
  - apply do_finalize_framed.
  - apply do_trapExit_framed.
  - apply do_link_framed.
Qed.

End FrameStep.

Section Frames.

Variable contextOf : value -> option id.

Lemma exec_framed (fuel : nat) :
  forall c w w', world_of (exec contextOf fuel c w) = Some w' -> framed c w w'.
Proof.
  induction fuel as [|fuel IH]; intros c w w' R; [discriminate|].
  now apply (dispatch_framed contextOf (exec contextOf fuel)).
Qed.

Lemma exec_frame (fuel : nat) (c : call) (w w' : world) :
  world_of (exec contextOf fuel c w) = Some w' -> frame w w'.
Proof. intros R. now apply (exec_framed fuel c). Qed.

End Frames.

(** * More fuel changes nothing *)

Definition refines (self self' : call -> world -> outcome) : Prop :=
  forall c w, self c w <> OutOfFuel -> self' c w = self c w.

Lemma bind_refines (o o' : outcome) (k k' : world -> outcome) :
  (o <> OutOfFuel -> o' = o) ->
  (forall w, o = Done w -> k w <> OutOfFuel -> k' w = k w) ->
  bind o k <> OutOfFuel -> bind o' k' = bind o k.
Proof.
  intros Ho Hk H. destruct o as [w|w|]; simpl in *.
  - rewrite Ho by discriminate. simpl. now apply Hk.
  - now rewrite Ho by discriminate.
  - congruence.
Qed.

Lemma foreach_refines {A : Type} (body body' : A -> world -> outcome) (l : list A) :
  (forall x w, body x w <> OutOfFuel -> body' x w = body x w) ->
  forall w, foreach body l w <> OutOfFuel -> foreach body' l w = foreach body l w.
Proof.
  intros Hb. induction l as [|x l IH]; intros w H; simpl in *; [reflexivity|].
  apply bind_refines; auto.
Qed.

Section Refines.

Variable contextOf : value -> option id.
Variables self self' : call -> world -> outcome.
Hypothesis self_refines : refines self self'.

Lemma dispatch_refines : refines (dispatch contextOf self) (dispatch contextOf self').
Proof.
  intros [n reason|n v|n error|n s r|n child|n child] w; simpl.
  - unfold do_halt. destruct (isBlocking (nodes w n)); auto.
  - unfold do_resume. destruct (isBlocking (nodes w n)); auto.
    apply bind_refines.
    + unfold resume_link. destruct (isRunning (nodes w n)); auto.
      destruct (contextOf v); auto.
    + intros w1 _. destruct (must_wait n v w1); auto.
  - unfold do_fail. destruct (isBlocking (nodes w n)); auto.
  - unfold do_finalize. destruct (isBlocking (nodes w n)); auto.
    apply bind_refines.
    + apply foreach_refines. intros child u. unfold halt_child.
      destruct (_ || _); auto.
    + intros w3 _. apply bind_refines; auto.
      unfold notify_parent. destruct (parent _); auto.
  - unfold do_trapExit. apply bind_refines.
    + unfold adopt. destruct (isCompleted _); auto. destruct (contextOf _); auto.
    + intros w2 _. destruct (isErrored _); auto. destruct (_ && _); auto.
  - unfold do_link. destruct (Nat.eqb n child); auto.
    apply bind_refines.
    + destruct (negb _); auto.
    + intros w1 _. destruct (isBlocking _); auto.
Qed.

End Refines.

Section Fuel.

Variable contextOf : value -> option id.

Lemma exec_S (fuel : nat) : refines (exec contextOf fuel) (exec contextOf (S fuel)).
Proof.
  induction fuel as [|fuel IH]; intros c w H; [now elim H|].
  now apply (dispatch_refines contextOf _ _ IH).
Qed.

Lemma exec_le (fuel fuel' : nat) :
  fuel <= fuel' -> refines (exec contextOf fuel) (exec contextOf fuel').
Proof.
  induction 1 as [|fuel' _ IH]; intros c w H; [reflexivity|].
  rewrite <- (IH c w H). apply exec_S. now rewrite (IH c w H).
Qed.

Lemma exec_world_le (fuel fuel' : nat) (c : call) (w w' : world) :
  fuel <= fuel' ->
  world_of (exec contextOf fuel c w) = Some w' ->
  world_of (exec contextOf fuel' c w) = Some w'.
Proof.
  intros L R. rewrite (exec_le fuel fuel' L); [assumption|].
  intros E. now rewrite E in R.
Qed.

End Fuel.

(** * Calls made from inside a method

    A context is [chained] when its stored result is one that [trapExit]
    may follow, now or later: it is completed, or may still complete with
    the result it has.  The calls that methods make never add to the
    chain. *)

Definition chained (x : node) : bool := negb (isErrored x || isHalted x).

Definition keeps_chain (w w' : world) : Prop :=
  forall c, chained (nodes w' c) = true ->
            chained (nodes w c) = true /\ result (nodes w' c) = result (nodes w c).

Lemma keeps_chain_refl (w : world) : keeps_chain w w.
Proof. intros c H. now split. Qed.

Lemma keeps_chain_trans (w1 w2 w3 : world) :
  keeps_chain w1 w2 -> keeps_chain w2 w3 -> keeps_chain w1 w3.
Proof.
  intros F G c H. destruct (G c H) as [H2 E2]. destruct (F c H2) as [H1 E1].
  split; [assumption|congruence].
Qed.

Lemma keeps_chain_upd (w : world) (n : id) (f : node -> node) :
  (forall x, state (f x) = state x /\ result (f x) = result x) ->
  keeps_chain w (upd_node n f w).
Proof.
  intros Hf c. simpl. destruct (Nat.eqb_spec c n) as [->|]; [|now split].
  destruct (Hf (nodes w n)) as [Es Er]. unfold chained, isErrored, isHalted.
  rewrite Es, Er. now split.
Qed.

Lemma keeps_chain_nodes (w w' : world) :
  nodes w' = nodes w -> keeps_chain w w'.
Proof. intros E c. rewrite E. now split. Qed.

Lemma keeps_chain_unlink (w : world) (n child : id) :
  keeps_chain w (unlink n child w).
Proof.
  unfold unlink. eapply keeps_chain_trans; apply keeps_chain_upd; now split.
Qed.

Lemma keeps_chain_detach (w : world) (child : id) :
  keeps_chain w (detach child w).
Proof.
  unfold detach. destruct (parent (nodes w child));
    [apply keeps_chain_unlink|apply keeps_chain_refl].
Qed.

Lemma keeps_chain_attach (w : world) (n child : id) :
  keeps_chain w (attach n child w).
Proof.
  unfold attach. eapply keeps_chain_trans; apply keeps_chain_upd; now split.
Qed.

(** The calls a method makes: never [resume]; [finalize] as completed only
    without a result. *)
Definition internal (c : call) (w : world) : Prop :=
  match c with
  | Resume _ _ => False
  | Finalize n completed r => truthy r = false
  | _ => True
  end.

Lemma settle_node_keeps_chain (n : id) (s : Final) (r : value) (w : world) :
  internal (Finalize n s r) w -> isBlocking (nodes w n) = true ->
  keeps_chain w (settle_node n s r w).
Proof.
  intros I B c. unfold settle_node. simpl.
  destruct (Nat.eqb_spec c n) as [->|]; [|now split].
  rewrite Nat.eqb_refl. unfold chained, isErrored, isHalted. simpl.
  destruct s; simpl; try discriminate. simpl in I.
  intros _. unfold js_or. rewrite I. split; [|reflexivity].
  unfold isBlocking, isRunning, isWaiting, isUnstarted in B.
  now destruct (state (nodes w n)) as [ | | |[ | | ]].
Qed.

Section ChainStep.

Variable contextOf : value -> option id.
Variable self : call -> world -> outcome.

Hypothesis self_keeps_chain :
  forall c w w', internal c w -> world_of (self c w) = Some w' -> keeps_chain w w'.

Lemma self_chain (c : call) (w0 w w' : world) :
  keeps_chain w0 w -> internal c w -> world_of (self c w) = Some w' ->
  keeps_chain w0 w'.
Proof.
  intros F I R. apply (keeps_chain_trans _ _ _ F). now apply (self_keeps_chain c).
Qed.

Lemma dispatch_keeps_chain (c : call) (w w' : world) :
  internal c w -> world_of (dispatch contextOf self c w) = Some w' ->
  keeps_chain w w'.
Proof.
  destruct c as [n reason|n v|n error|n s r|n child|n child]; simpl; intros Hi R.
  - unfold do_halt in R. destruct (isBlocking (nodes w n)).
    + now apply (self_keeps_chain (Finalize n halted reason) _ _ I R).
    + injection R as <-. apply keeps_chain_refl.
  - contradiction.
  - unfold do_fail in R. destruct (isBlocking (nodes w n)).
    + now apply (self_keeps_chain (Finalize n errored error) _ _ I R).
    + injection R as <-. apply keeps_chain_refl.
  - unfold do_finalize in R.
    pose proof (settle_node_keeps_chain n s r w Hi) as F2.
    destruct (isBlocking (nodes w n)) eqn:B;
      [|injection R as <-; apply keeps_chain_refl].
    specialize (F2 eq_refl).
    set (w2 := settle_node n s r w) in *.
    assert (Hloop : forall l u u', keeps_chain w u ->
      world_of (foreach (halt_child contextOf self n r) l u) = Some u' ->
      keeps_chain w u').
    { intros l u u'. apply foreach_invariant. intros child v v' _ Fv Rv.
      unfold halt_child in Rv. destruct (_ || _).
      - refine (self_chain (Halt child r) _ _ _ _ I Rv).
        apply (keeps_chain_trans _ _ _ Fv). now apply keeps_chain_nodes.
      - now injection Rv as <-. }
    apply bind_world_of in R. destruct R as [R|(w3 & R3 & R)].
    + apply (Hloop (rev (children (nodes w2 n))) w2); [assumption|now rewrite R].
    + assert (F3 : keeps_chain w w3)
        by (apply (Hloop (rev (children (nodes w2 n))) w2);
            [assumption|now rewrite R3]).
      set (w4 := run_hooks n (rev (exitHooks (nodes w3 n))) w3) in *.
      assert (F4 : keeps_chain w w4).
      { apply (keeps_chain_trans _ _ _ F3), keeps_chain_nodes.
        apply run_hooks_nodes. }
      assert (Htrap : forall w5, world_of (notify_parent self n w4) = Some w5 ->
                                 keeps_chain w w5).
      { intros w5 R5. unfold notify_parent in R5. destruct (parent (nodes w4 n)) as [i|].
        - now apply (self_chain (TrapExit i n) _ _ _ F4 I R5).
        - now injection R5 as <-. }
      apply bind_world_of in R. destruct R as [R|(w5 & R5 & R)].
      * apply Htrap. now rewrite R.
      * injection R as <-. apply (keeps_chain_trans _ w5).
        -- apply Htrap. now rewrite R5.
        -- apply keeps_chain_nodes, finalizePromise_nodes.
  - unfold do_trapExit in R.
    set (w1 := unlink n child (log (EvTrapExit n child) w)) in *.
    assert (F1 : keeps_chain w w1).
    { apply (keeps_chain_trans _ (log (EvTrapExit n child) w)).
      - now apply keeps_chain_nodes.
      - apply keeps_chain_unlink. }
    assert (Hadopt : forall w2, world_of (adopt contextOf self n child w1) = Some w2 ->
                                keeps_chain w w2).
    { intros w2 R2. unfold adopt in R2. destruct (isCompleted (nodes w1 child)).
      - destruct (contextOf _) as [k|].
        + now apply (self_chain (Link n k) _ _ _ F1 I R2).
        + now injection R2 as <-.
      - now injection R2 as <-. }
    apply bind_world_of in R. destruct R as [R|(w2 & R2 & R)].
    + apply Hadopt. now rewrite R.
    + assert (F2 : keeps_chain w w2) by (apply Hadopt; now rewrite R2).
      destruct (isErrored (nodes w2 child)).
      * now apply (self_chain (Fail n (result (nodes w2 child))) _ _ _ F2 I R).
      * destruct (isWaiting (nodes w2 n)) eqn:W; simpl in R.
        -- destruct (forallb _ _).
           ++ now apply (self_chain (Finalize n completed VUndefined) _ _ _ F2 eq_refl R).
           ++ now injection R as <-.
        -- now injection R as <-.
  - unfold do_link in R. destruct (Nat.eqb n child);
      [injection R as <-; apply keeps_chain_refl|].
    apply bind_world_of in R.
    assert (Hhalt : forall w1,
      world_of (if negb (isBlocking (nodes w n))
                then self (Halt child VUndefined) w else Done w) = Some w1 ->
      keeps_chain w w1).
    { intros w1 R1. destruct (negb _).
      - now apply (self_keeps_chain (Halt child VUndefined) _ _ I R1).
      - injection R1 as <-. apply keeps_chain_refl. }
    destruct R as [R|(w1 & R1 & R)].
    + apply Hhalt. now rewrite R.
    + assert (F2 : keeps_chain w (detach child w1)).
      { apply (keeps_chain_trans _ w1); [|apply keeps_chain_detach].
        apply Hhalt. now rewrite R1. }
      destruct (isBlocking (nodes (detach child w1) child)).
      * injection R as <-. apply (keeps_chain_trans _ _ _ F2), keeps_chain_attach.
      * now apply (self_chain (TrapExit n child) _ _ _ F2 I R).
Qed.

End ChainStep.

Section Chain.

Variable contextOf : value -> option id.

Lemma exec_keeps_chain (fuel : nat) :
  forall c w w', internal c w -> world_of (exec contextOf fuel c w) = Some w' ->
                 keeps_chain w w'.
Proof.
  induction fuel as [|fuel IH]; intros c w w' Hi R; [discriminate|].
  now apply (dispatch_keeps_chain contextOf (exec contextOf fuel) IH c).
Qed.

End Chain.

(** * Termination

    [converges F o]: with enough fuel, the computation [F] gives the
    outcome [o], which is not the lack of fuel. *)

Definition converges (F : nat -> outcome) (o : outcome) : Prop :=
  o <> OutOfFuel /\ exists fuel, forall fuel', fuel <= fuel' -> F fuel' = o.

Lemma converges_const (o : outcome) : o <> OutOfFuel -> converges (fun _ => o) o.
Proof. intros H. split; [assumption|]. now exists 0. Qed.

Lemma converges_ext (F G : nat -> outcome) (o : outcome) :
  (forall fuel, F fuel = G fuel) -> converges F o -> converges G o.
Proof.
  intros E [H [fuel Hf]]. split; [assumption|]. exists fuel.
  intros fuel' L. rewrite <- E. now apply Hf.
Qed.

Lemma converges_bind (F : nat -> outcome) (K : nat -> world -> outcome)
  (o1 o : outcome) :
  converges F o1 ->
  (forall w, o1 = Done w -> converges (fun fuel => K fuel w) o) ->
  (forall w, o1 = Threw w -> o = Threw w) ->
  converges (fun fuel => bind (F fuel) (K fuel)) o.
Proof.
  intros [H1 [f1 Hf1]] HK HT. destruct o1 as [w|w|]; [| |congruence].
  - destruct (HK w eq_refl) as [H [f2 Hf2]]. split; [assumption|].
    exists (max f1 f2). intros fuel' L. rewrite Hf1 by lia. simpl.
    apply Hf2. lia.
  - rewrite (HT w eq_refl). split; [discriminate|]. exists f1.
    intros fuel' L. now rewrite Hf1.
Qed.

Lemma converges_foreach {A : Type} (body : nat -> A -> world -> outcome)
  (P : world -> Prop) (l : list A) :
  (forall x w, In x l -> P w ->
     exists o, converges (fun fuel => body fuel x w) o
               /\ forall w', o = Done w' -> P w') ->
  forall w, P w ->
    exists o, converges (fun fuel => foreach (body fuel) l w) o
              /\ forall w', o = Done w' -> P w'.
Proof.
  induction l as [|x l IH]; intros Hb w Pw; simpl.
  - exists (Done w). split; [now apply converges_const|now intros w' [= <-]].
  - destruct (Hb x w (or_introl eq_refl) Pw) as (o1 & C1 & P1).
    destruct o1 as [w1|w1|].
    + destruct (IH (fun y u Hy => Hb y u (or_intror Hy)) w1 (P1 w1 eq_refl))
        as (o & Co & Po).
      exists o. split; [|assumption].
      apply (converges_bind _ (fun fuel => foreach (body fuel) l) _ o C1).
      * now intros u [= <-].
      * discriminate.
    + exists (Threw w1). split; [|discriminate].
      apply (converges_bind _ (fun fuel => foreach (body fuel) l) _ _ C1).
      * discriminate.
      * now intros u [= <-].
    + now destruct C1.
Qed.

Section Termination.

Variable contextOf : value -> option id.

(** Every value that a chained context holds embeds a context of lower
    rank, if it embeds one: [trapExit] does not follow results in a circle. *)
Variable rank : id -> nat.

Definition ranked (w : world) : Prop :=
  forall c k, chained (nodes w c) = true ->
              contextOf (result (nodes w c)) = Some k -> rank k < rank c.

(** The contexts that are not settled are among the first [bound]. *)
Variable bound : nat.

Definition bounded (w : world) : Prop :=
  forall n, isBlocking (nodes w n) = true -> n < bound.

Definition unsettled (w : world) : nat :=
  List.length (filter (fun n => isBlocking (nodes w n)) (seq 0 bound)).

Definition tame (N : nat) (w : world) : Prop :=
  bounded w /\ ranked w /\ unsettled w <= N.

Lemma filter_length_le {A : Type} (f g : A -> bool) (l : list A) :
  (forall a, f a = true -> g a = true) ->
  List.length (filter f l) <= List.length (filter g l).
Proof.
  intros H. induction l as [|a l IH]; simpl; [lia|].
  destruct (f a) eqn:Fa; [rewrite (H a Fa); simpl; lia|].
  destruct (g a); simpl; lia.
Qed.

Lemma filter_length_lt {A : Type} (f g : A -> bool) (l : list A) (x : A) :
  (forall a, f a = true -> g a = true) ->
  In x l -> f x = false -> g x = true ->
  List.length (filter f l) < List.length (filter g l).
Proof.
  intros H. induction l as [|a l IH]; simpl; [contradiction|].
  intros [->|Hx] Fx Gx.
  - rewrite Fx, Gx. simpl. pose proof (filter_length_le f g l H). lia.
  - specialize (IH Hx Fx Gx). destruct (f a) eqn:Fa; [rewrite (H a Fa); simpl; lia|].
    destruct (g a); simpl; lia.
Qed.

Lemma frame_unblocks (w w' : world) (n : id) :
  frame w w' -> isBlocking (nodes w' n) = true -> isBlocking (nodes w n) = true.
Proof.
  intros F H. destruct (isBlocking (nodes w n)) eqn:B; [reflexivity|].
  now rewrite (frame_blocking F n B) in H.
Qed.

Lemma tame_step (N : nat) (w w' : world) :
  frame w w' -> keeps_chain w w' -> tame N w -> tame N w'.
Proof.
  intros F K (Hb & Hr & Hc). repeat split.
  - intros n H. apply Hb. now apply (frame_unblocks w w').
  - intros c k H E. destruct (K c H) as [H0 E0]. rewrite E0 in E. now apply Hr.
  - refine (Nat.le_trans _ _ _ _ Hc). apply filter_length_le.
    intros n. now apply frame_unblocks.
Qed.

Lemma tame_nodes (N : nat) (w w' : world) :
  nodes w' = nodes w -> tame N w -> tame N w'.
Proof.
  intros E (Hb & Hr & Hc). unfold tame, bounded, ranked, unsettled. now rewrite E.
Qed.

Lemma tame_exec (N fuel : nat) (c : call) (w w' : world) :
  internal c w -> exec contextOf fuel c w = Done w' -> tame N w -> tame N w'.
Proof.
  intros I R. apply tame_step.
  - apply (exec_frame contextOf fuel c). now rewrite R.
  - apply (exec_keeps_chain contextOf fuel c); [assumption|now rewrite R].
Qed.

Lemma tame_settle_node (N : nat) (n : id) (s : Final) (r : value) (w : world) :
  internal (Finalize n s r) w -> isBlocking (nodes w n) = true ->
  tame N w -> exists N', N = S N' /\ tame N' (settle_node n s r w).
Proof.
  intros I B (Hb & Hr & Hc).
  assert (F : frame w (settle_node n s r w)).
  { apply frame_upd; auto with frame. apply frame_set_state; auto using frame_refl. }
  assert (L : unsettled (settle_node n s r w) < unsettled w).
  { apply (filter_length_lt _ _ _ n).
    - intros m. now apply frame_unblocks.
    - apply in_seq. specialize (Hb n B). lia.
    - unfold settle_node. simpl. rewrite Nat.eqb_refl. now destruct s.
    - exact B. }
  destruct N as [|N']; [lia|]. exists N'. split; [reflexivity|].
  destruct (tame_step (S N') w (settle_node n s r w) F
              (settle_node_keeps_chain n s r w I B)) as (Hb' & Hr' & _);
    [now repeat split|].
  repeat split; auto. lia.
Qed.

(** With enough fuel the call returns or throws. *)
Definition terminates (c : call) (w : world) : Prop :=
  exists o, converges (fun fuel => exec contextOf fuel c w) o.

Lemma converges_exec (fuel : nat) (c : call) (w : world) :
  exec contextOf fuel c w <> OutOfFuel ->
  converges (fun fuel' => exec contextOf fuel' c w) (exec contextOf fuel c w).
Proof.
  intros H. split; [assumption|]. exists fuel. intros fuel' L.
  now apply exec_le.
Qed.

Lemma converges_dispatch (c : call) (w : world) (o : outcome) :
  converges (fun fuel => dispatch contextOf (exec contextOf fuel) c w) o ->
  converges (fun fuel => exec contextOf fuel c w) o.
Proof.
  intros [H [fuel Hf]]. split; [assumption|]. exists (S fuel).
  intros [|fuel'] L; [lia|]. simpl. apply Hf. lia.
Qed.

(** A call that converges converges to an outcome that keeps the world tame. *)
Lemma converges_tame (N : nat) (c : call) (w : world) (o : outcome) (w' : world) :
  internal c w -> tame N w ->
  converges (fun fuel => exec contextOf fuel c w) o -> o = Done w' -> tame N w'.
Proof.
  intros I T [_ [fuel Hf]] ->. apply (tame_exec N fuel c w w' I); [|assumption].
  now apply Hf.
Qed.

(** An effective [finalize] terminates when the calls it makes do. *)
Lemma finalize_effective_terminates (N' : nat) :
  (forall c w, internal c w -> tame N' w -> terminates c w) ->
  forall n s r w, isBlocking (nodes w n) = true ->
                  tame N' (settle_node n s r w) ->
                  terminates (Finalize n s r) w.
Proof.
  intros IHN n s r w B T2'. unfold terminates.
  set (w2 := settle_node n s r w) in *.
  destruct (converges_foreach
              (fun fuel => halt_child contextOf (exec contextOf fuel) n r)
              (tame N') (rev (children (nodes w2 n)))) with (w := w2)
    as (o3 & C3 & P3); [|assumption|].
  { intros child u _ Tu. unfold halt_child. destruct (_ || _).
    - destruct (IHN (Halt child r) (log (EvHaltChild n child r) u))
        as [o Co]; [exact I| |].
      + now apply (tame_nodes N' u).
      + exists o. split; [assumption|]. intros w' E.
        apply (converges_tame N' (Halt child r)
                 (log (EvHaltChild n child r) u) o w' I); auto.
    - exists (Done u). split; [now apply converges_const|now intros w' [= <-]]. }
  assert (Hrest : forall w3, tame N' w3 -> exists o,
    converges (fun fuel =>
      do w5 <- notify_parent (exec contextOf fuel) n
                 (run_hooks n (rev (exitHooks (nodes w3 n))) w3);
      Done (finalizePromise n w5)) o).
  { intros w3 T3.
    set (w4 := run_hooks n (rev (exitHooks (nodes w3 n))) w3).
    assert (T4 : tame N' w4)
      by (apply (tame_nodes N' w3); [apply run_hooks_nodes|assumption]).
    unfold notify_parent. destruct (parent (nodes w4 n)) as [p|].
    - destruct (IHN (TrapExit p n) w4) as [o5 C5]; [exact I|assumption|].
      destruct o5 as [w5|w5|]; [| |now destruct C5].
      + exists (Done (finalizePromise n w5)).
        apply (converges_bind _ (fun _ u => Done (finalizePromise n u)) _ _ C5).
        * intros u [= <-]. now apply converges_const.
        * discriminate.
      + exists (Threw w5).
        apply (converges_bind _ (fun _ u => Done (finalizePromise n u)) _ _ C5).
        * discriminate.
        * now intros u [= <-].
    - exists (Done (finalizePromise n w4)). simpl. now apply converges_const. }
  destruct o3 as [w3|w3|]; [| |now destruct C3].
  - destruct (Hrest w3 (P3 w3 eq_refl)) as [o Co]. exists o.
    apply converges_dispatch. simpl. unfold do_finalize. rewrite B.
    fold w2.
    apply (converges_bind _
             (fun fuel w3 => do w5 <- notify_parent (exec contextOf fuel) n
                                (run_hooks n (rev (exitHooks (nodes w3 n))) w3);
                             Done (finalizePromise n w5)) _ _ C3).
    + now intros u [= <-].
    + discriminate.
  - exists (Threw w3). apply converges_dispatch. simpl. unfold do_finalize.
    rewrite B. fold w2.
    apply (converges_bind _
             (fun fuel w3 => do w5 <- notify_parent (exec contextOf fuel) n
                                (run_hooks n (rev (exitHooks (nodes w3 n))) w3);
                             Done (finalizePromise n w5)) _ _ C3).
    + discriminate.
    + now intros u [= <-].
Qed.

Lemma finalize_terminates (N : nat) :
  (forall N' c w, N' < N -> internal c w -> tame N' w -> terminates c w) ->
  forall n s r w, internal (Finalize n s r) w -> tame N w ->
                  terminates (Finalize n s r) w.
Proof.
  intros IHN n s r w Hi T.
  destruct (isBlocking (nodes w n)) eqn:B.
  - destruct (tame_settle_node N n s r w Hi B T) as (N' & -> & T2).
    apply (finalize_effective_terminates N'); auto.
    intros c u. apply IHN. lia.
  - exists (Done w). apply converges_dispatch. simpl. unfold do_finalize.
    rewrite B. now apply converges_const.
Qed.

Lemma halt_terminates (N : nat) :
  (forall N' c w, N' < N -> internal c w -> tame N' w -> terminates c w) ->
  forall n reason w, tame N w -> terminates (Halt n reason) w.
Proof.
  intros IHN n reason w T. unfold terminates.
  destruct (isBlocking (nodes w n)) eqn:B.
  - destruct (finalize_terminates N IHN n halted reason w I T) as [o Co].
    exists o. apply converges_dispatch. simpl. unfold do_halt. now rewrite B.
  - exists (Done w). apply converges_dispatch. simpl. unfold do_halt.
    rewrite B. now apply converges_const.
Qed.

Lemma fail_terminates (N : nat) :
  (forall N' c w, N' < N -> internal c w -> tame N' w -> terminates c w) ->
  forall n error w, tame N w -> terminates (Fail n error) w.
Proof.
  intros IHN n error w T. unfold terminates.
  destruct (isBlocking (nodes w n)) eqn:B.
  - destruct (finalize_terminates N IHN n errored error w I T) as [o Co].
    exists o. apply converges_dispatch. simpl. unfold do_fail. now rewrite B.
  - exists (Done w). apply converges_dispatch. simpl. unfold do_fail.
    rewrite B. now apply converges_const.
Qed.

(** How far [trapExit] and [link] are from the end of the results they
    follow. *)
Definition weight (c : call) : nat :=
  match c with
  | TrapExit _ child => 2 * rank child
  | Link _ child => 2 * rank child + 1
  | _ => 0
  end.

Lemma tame_unlink (N : nat) (n child : id) (w : world) :
  tame N w -> tame N (unlink n child w).
Proof.
  apply tame_step; [apply frame_unlink, frame_refl|apply keeps_chain_unlink].
Qed.

Lemma tame_detach (N : nat) (child : id) (w : world) :
  tame N w -> tame N (detach child w).
Proof.
  apply tame_step; [apply frame_detach|apply keeps_chain_detach].
Qed.

Lemma trapExit_link_terminate (N : nat) :
  (forall N' c w, N' < N -> internal c w -> tame N' w -> terminates c w) ->
  forall m c w, weight c < m -> tame N w ->
    match c with
    | TrapExit _ _ | Link _ _ => terminates c w
    | _ => True
    end.
Proof.
  intros IHN. induction m as [|m IHm]; intros c w Hm T; [lia|].
  destruct c as [ | | | |n child|n child]; try exact I; unfold terminates.
  - (* trapExit *)
    simpl in Hm.
    set (w1 := unlink n child (log (EvTrapExit n child) w)).
    assert (T1 : tame N w1).
    { apply tame_unlink. now apply (tame_nodes N w). }
    assert (Hadopt : exists o2,
      converges (fun fuel => adopt contextOf (exec contextOf fuel) n child w1) o2
      /\ forall w2, o2 = Done w2 -> tame N w2).
    { unfold adopt. destruct (isCompleted (nodes w1 child)) eqn:C.
      - destruct (contextOf (result (nodes w1 child))) as [k|] eqn:E.
        + assert (Hk : rank k < rank child).
          { destruct T1 as (_ & Hr & _). apply (Hr child k); [|assumption].
            unfold chained, isErrored, isHalted. unfold isCompleted in C.
            now destruct (state (nodes w1 child)) as [ | | |[ | | ]]. }
          destruct (IHm (Link n k) w1) as [o Co]; [simpl; lia|assumption|].
          exists o. split; [assumption|]. intros w2 E2.
          now apply (converges_tame N (Link n k) w1 o w2 I).
        + exists (Done w1). split; [now apply converges_const|now intros w2 [= <-]].
      - exists (Done w1). split; [now apply converges_const|now intros w2 [= <-]]. }
    destruct Hadopt as (o2 & C2 & T2).
    assert (Hrest : forall w2, tame N w2 -> exists o,
      converges (fun fuel =>
        if isErrored (nodes w2 child)
        then exec contextOf fuel (Fail n (result (nodes w2 child))) w2
        else if isWaiting (nodes w2 n)
                && forallb (fun c => negb (isRequired (nodes w2 c)))
                           (children (nodes w2 n))
        then exec contextOf fuel (Finalize n completed VUndefined) w2
        else Done w2) o).
    { intros w2 Tw2. destruct (isErrored (nodes w2 child)).
      - now apply (fail_terminates N IHN).
      - destruct (isWaiting (nodes w2 n)) eqn:W; simpl.
        + destruct (forallb _ _).
          * now apply (finalize_terminates N IHN).
          * exists (Done w2). now apply converges_const.
        + exists (Done w2). now apply converges_const. }
    destruct o2 as [w2|w2|]; [| |now destruct C2].
    + destruct (Hrest w2 (T2 w2 eq_refl)) as [o Co]. exists o.
      apply converges_dispatch. simpl. unfold do_trapExit. fold w1.
      apply (converges_bind _
        (fun fuel w2 =>
           if isErrored (nodes w2 child)
           then exec contextOf fuel (Fail n (result (nodes w2 child))) w2
           else if isWaiting (nodes w2 n)
                   && forallb (fun c => negb (isRequired (nodes w2 c)))
                              (children (nodes w2 n))
           then exec contextOf fuel (Finalize n completed VUndefined) w2
           else Done w2) _ _ C2).
      * now intros u [= <-].
      * discriminate.
    + exists (Threw w2). apply converges_dispatch. simpl. unfold do_trapExit.
      fold w1.
      apply (converges_bind _
        (fun fuel w2 =>
           if isErrored (nodes w2 child)
           then exec contextOf fuel (Fail n (result (nodes w2 child))) w2
           else if isWaiting (nodes w2 n)
                   && forallb (fun c => negb (isRequired (nodes w2 c)))
                              (children (nodes w2 n))
           then exec contextOf fuel (Finalize n completed VUndefined) w2
           else Done w2) _ _ C2).
      * discriminate.
      * now intros u [= <-].
  - (* link *)
    simpl in Hm. destruct (Nat.eqb n child) eqn:Eq.
    { exists (Threw w). apply converges_dispatch. simpl. unfold do_link.
      rewrite Eq. now apply converges_const. }
    assert (Hhalt : exists o1,
      converges (fun fuel => if negb (isBlocking (nodes w n))
                             then exec contextOf fuel (Halt child VUndefined) w
                             else Done w) o1
      /\ forall w1, o1 = Done w1 -> tame N w1).
    { destruct (negb (isBlocking (nodes w n))).
      - destruct (halt_terminates N IHN child VUndefined w T) as [o Co].
        exists o. split; [assumption|]. intros w1 E1.
        now apply (converges_tame N (Halt child VUndefined) w o w1 I).
      - exists (Done w). split; [now apply converges_const|now intros w1 [= <-]]. }
    destruct Hhalt as (o1 & C1 & T1).
    assert (Hrest : forall w1, tame N w1 -> exists o,
      converges (fun fuel =>
        if isBlocking (nodes (detach child w1) child)
        then Done (attach n child (detach child w1))
        else exec contextOf fuel (TrapExit n child) (detach child w1)) o).
    { intros w1 Tw1. destruct (isBlocking (nodes (detach child w1) child)).
      - eexists. now apply converges_const.
      - apply (IHm (TrapExit n child)); [simpl; lia|now apply tame_detach]. }
    destruct o1 as [w1|w1|]; [| |now destruct C1].
    + destruct (Hrest w1 (T1 w1 eq_refl)) as [o Co]. exists o.
      apply converges_dispatch. simpl. unfold do_link. rewrite Eq.
      apply (converges_bind _
        (fun fuel w1 =>
           if isBlocking (nodes (detach child w1) child)
           then Done (attach n child (detach child w1))
           else exec contextOf fuel (TrapExit n child) (detach child w1)) _ _ C1).
      * now intros u [= <-].
      * discriminate.
    + exists (Threw w1). apply converges_dispatch. simpl. unfold do_link.
      rewrite Eq.
      apply (converges_bind _
        (fun fuel w1 =>
           if isBlocking (nodes (detach child w1) child)
           then Done (attach n child (detach child w1))
           else exec contextOf fuel (TrapExit n child) (detach child w1)) _ _ C1).
      * discriminate.
      * now intros u [= <-].
Qed.

(** Every call that a method makes terminates in a tame world. *)
Lemma internal_terminates (N : nat) :
  forall c w, internal c w -> tame N w -> terminates c w.
Proof.
  induction N as [N IHN] using lt_wf_ind. intros c w Hi T.
  assert (IH : forall N' c w, N' < N -> internal c w -> tame N' w -> terminates c w)
    by (intros N' c' w' L; now apply IHN).
  destruct c as [n reason|n v|n error|n s r|n child|n child].
  - now apply (halt_terminates N IH).
  - contradiction.
  - now apply (fail_terminates N IH).
  - now apply (finalize_terminates N IH).
  - apply (trapExit_link_terminate N IH (S (weight (TrapExit n child)))
             (TrapExit n child) w); auto.
  - apply (trapExit_link_terminate N IH (S (weight (Link n child)))
             (Link n child) w); auto.
Qed.

(** The calls that come from outside: a value that is stored as the result
    of a context that may complete embeds a context of lower rank, if any. *)
Definition admissible (c : call) : Prop :=
  match c with
  | Resume n v => forall k, contextOf v = Some k -> rank k < rank n
  | Finalize n completed r =>
      truthy r = true -> forall k, contextOf r = Some k -> rank k < rank n
  | _ => True
  end.

Lemma blocking_chained (x : node) : isBlocking x = true -> chained x = true.
Proof.
  unfold isBlocking, isRunning, isWaiting, isUnstarted, chained, isErrored, isHalted.
  now destruct (state x) as [ | | |[ | | ]].
Qed.

Lemma tame_settle_outside (N : nat) (n : id) (s : Final) (r : value) (w : world) :
  admissible (Finalize n s r) -> isBlocking (nodes w n) = true ->
  tame N w -> tame N (settle_node n s r w).
Proof.
  intros A B (Hb & Hr & Hc).
  assert (F : frame w (settle_node n s r w)).
  { apply frame_upd; auto with frame. apply frame_set_state; auto using frame_refl. }
  repeat split.
  - intros m H. apply Hb. now apply (frame_unblocks _ _ _ F).
  - intros c k. unfold settle_node. simpl.
    destruct (Nat.eqb_spec c n) as [->|]; [|apply Hr].
    rewrite Nat.eqb_refl. unfold chained, isErrored, isHalted. simpl.
    destruct s; simpl; try discriminate. intros _. unfold js_or.
    destruct (truthy r) eqn:Tr.
    + now apply A.
    + apply Hr. now apply blocking_chained.
  - refine (Nat.le_trans _ _ _ _ Hc). apply filter_length_le.
    intros m. now apply frame_unblocks.
Qed.

Lemma finalize_outside_terminates (N : nat) (n : id) (s : Final) (r : value)
  (w : world) :
  admissible (Finalize n s r) -> tame N w -> terminates (Finalize n s r) w.
Proof.
  intros A T. destruct (isBlocking (nodes w n)) eqn:B.
  - apply (finalize_effective_terminates N (internal_terminates N)); auto.
    now apply tame_settle_outside.
  - exists (Done w). apply converges_dispatch. simpl. unfold do_finalize.
    rewrite B. now apply converges_const.
Qed.

Lemma resume_terminates (N : nat) (n : id) (v : value) (w : world) :
  admissible (Resume n v) -> tame N w -> terminates (Resume n v) w.
Proof.
  intros A T. destruct (isBlocking (nodes w n)) eqn:B.
  2: { exists (Done w). apply converges_dispatch. simpl. unfold do_resume.
       rewrite B. now apply converges_const. }
  assert (Hlink : exists o1,
    converges (fun fuel => resume_link contextOf (exec contextOf fuel) n v w) o1
    /\ forall w1, o1 = Done w1 -> tame N w1).
  { unfold resume_link. destruct (isRunning (nodes w n)) eqn:Run.
    - assert (T0 : tame N (upd_node n (with_result v) w)).
      { destruct T as (Hb & Hr & Hc). repeat split.
        - intros m. simpl. destruct (Nat.eqb m n); apply Hb.
        - intros c k. simpl. destruct (Nat.eqb_spec c n) as [->|]; [|apply Hr].
          simpl. intros _. apply A.
        - refine (Nat.le_trans _ _ _ _ Hc). apply filter_length_le.
          intros m. simpl. now destruct (Nat.eqb m n). }
      destruct (contextOf v) as [k|].
      + destruct (internal_terminates N (Link n k) _ I T0) as [o Co].
        exists o. split; [assumption|]. intros w1 E.
        now apply (converges_tame N (Link n k) _ o w1 I T0).
      + eexists. split; [now apply converges_const|]. now intros w1 [= <-].
    - exists (Done w). split; [now apply converges_const|now intros w1 [= <-]]. }
  destruct Hlink as (o1 & C1 & T1).
  assert (Hrest : forall w1, tame N w1 -> exists o,
    converges (fun fuel =>
      if must_wait n v w1 then Done (set_state n waiting w1)
      else exec contextOf fuel (Finalize n completed v) w1) o).
  { intros w1 Tw1. destruct (must_wait n v w1).
    - eexists. now apply converges_const.
    - apply (finalize_outside_terminates N); [|assumption].
      simpl. intros _. apply A. }
  destruct o1 as [w1|w1|]; [| |now destruct C1].
  - destruct (Hrest w1 (T1 w1 eq_refl)) as [o Co]. exists o.
    apply converges_dispatch. simpl. unfold do_resume. rewrite B.
    apply (converges_bind _
      (fun fuel w1 =>
         if must_wait n v w1 then Done (set_state n waiting w1)
         else exec contextOf fuel (Finalize n completed v) w1) _ _ C1).
    + now intros u [= <-].
    + discriminate.
  - exists (Threw w1). apply converges_dispatch. simpl. unfold do_resume.
    rewrite B.
    apply (converges_bind _
      (fun fuel w1 =>
         if must_wait n v w1 then Done (set_state n waiting w1)
         else exec contextOf fuel (Finalize n completed v) w1) _ _ C1).
    + discriminate.
    + now intros u [= <-].
Qed.

(** Every call terminates in a tame world: with enough fuel it returns or
    throws. *)
Lemma call_terminates (N : nat) (c : call) (w : world) :
  admissible c -> tame N w -> terminates c w.
Proof.
  intros A T. destruct c as [n reason|n v|n error|n s r|n child|n child].
  - now apply (internal_terminates N).
  - now apply (resume_terminates N).
  - now apply (internal_terminates N).
  - now apply (finalize_outside_terminates N).
  - now apply (internal_terminates N).
  - now apply (internal_terminates N).
Qed.

Lemma terminates_world (c : call) (w : world) :
  terminates c w ->
  exists fuel w', world_of (exec contextOf fuel c w) = Some w'.
Proof.
  intros (o & H & fuel & Hf). exists fuel.
  rewrite (Hf fuel (Nat.le_refl _)). destruct o as [w'|w'|]; [| |congruence];
    now exists w'.
Qed.

End Termination.

(** * What a finalize does, as the trace shows it *)

(** The events that [w'] has and [w] had not. *)
Definition delta (w w' : world) : list event :=
  skipn (List.length (trace w)) (trace w').

Lemma delta_app (w w' : world) (d : list event) :
  trace w' = trace w ++ d -> delta w w' = d.
Proof.
  intros E. unfold delta. rewrite E, skipn_app, Nat.sub_diag, skipn_all. reflexivity.
Qed.

(** The calls [child.halt(r)] that the finalize of [n] makes. *)
Fixpoint child_halts (n : id) (d : list event) : list (id * value) :=
  match d with
  | [] => []
  | EvHaltChild m child r :: d' =>
      if Nat.eqb m n then (child, r) :: child_halts n d' else child_halts n d'
  | _ :: d' => child_halts n d'
  end.

(** The calls of hooks made for [n], each with its argument. *)
Fixpoint hook_calls (n : id) (d : list event) : list (hook * option id) :=
  match d with
  | [] => []
  | EvHook m h a :: d' =>
      if Nat.eqb m n then (h, a) :: hook_calls n d' else hook_calls n d'
  | _ :: d' => hook_calls n d'
  end.

Lemma child_halts_app (n : id) (d1 d2 : list event) :
  child_halts n (d1 ++ d2) = child_halts n d1 ++ child_halts n d2.
Proof.
  induction d1 as [|e d1 IH]; simpl; [reflexivity|].
  destruct e; auto. destruct (Nat.eqb n0 n); simpl; now rewrite IH.
Qed.

Lemma hook_calls_app (n : id) (d1 d2 : list event) :
  hook_calls n (d1 ++ d2) = hook_calls n d1 ++ hook_calls n d2.
Proof.
  induction d1 as [|e d1 IH]; simpl; [reflexivity|].
  destruct e; auto. destruct (Nat.eqb n0 n); simpl; now rewrite IH.
Qed.

Lemma quiet_child_halts (n : id) (d : list event) :
  Forall (fun e => subject e <> Some n) d -> child_halts n d = [].
Proof.
  induction 1 as [|e d He _ IH]; simpl; [reflexivity|].
  destruct e; auto. destruct (Nat.eqb_spec n0 n) as [->|]; auto.
  now elim He.
Qed.

Lemma quiet_hook_calls (n : id) (d : list event) :
  Forall (fun e => subject e <> Some n) d -> hook_calls n d = [].
Proof.
  induction 1 as [|e d He _ IH]; simpl; [reflexivity|].
  destruct e; auto. destruct (Nat.eqb_spec n0 n) as [->|]; auto.
  now elim He.
Qed.

(** The events of the exit-hook loop. *)
Definition hook_events (n : id) (l : list bound_hook) : list event :=
  flat_map (fun b => EvHook n (run_hook b) (Some n)
                     :: if hook_throws (run_hook b)
                        then [EvConsoleError n (run_hook b)] else [])
           l.

Lemma run_hooks_trace (n : id) (l : list bound_hook) :
  forall w, trace (run_hooks n l w) = trace w ++ hook_events n l.
Proof.
  induction l as [|b l IH]; intros w; simpl; [now rewrite app_nil_r|].
  rewrite IH. destruct (hook_throws (run_hook b)); simpl;
    now rewrite <- ?app_assoc.
Qed.

Lemma hook_calls_hook_events (n : id) (l : list bound_hook) :
  hook_calls n (hook_events n l) = map (fun b => (run_hook b, Some n)) l.
Proof.
  induction l as [|b l IH]; simpl; [reflexivity|].
  rewrite Nat.eqb_refl. destruct (hook_throws (run_hook b)); simpl; now rewrite IH.
Qed.

Lemma child_halts_hook_events (n : id) (l : list bound_hook) :
  child_halts n (hook_events n l) = [].
Proof.
  induction l as [|b l IH]; simpl; [reflexivity|].
  destruct (hook_throws (run_hook b)); simpl; now rewrite IH.
Qed.

(** Whether the finalize of a context with this flag and this result halts
    this child. *)
Definition halts_child (contextOf : value -> option id) (block : bool)
  (res : value) (child : id) : bool :=
  block || negb (embeds contextOf res child).

Section FinalizeTrace.

Variable contextOf : value -> option id.
Variable fuel : nat.

Lemma halt_children_trace (n : id) (r : value) (l : list id) :
  forall w w3,
    isBlocking (nodes w n) = false ->
    foreach (halt_child contextOf (exec contextOf fuel) n r) l w = Done w3 ->
    exists d,
      trace w3 = trace w ++ d
      /\ child_halts n d
         = map (fun c => (c, r))
             (filter (halts_child contextOf (blockOnReturnedContext (nodes w n))
                        (result (nodes w n))) l)
      /\ hook_calls n d = []
      /\ (forall m, isBlocking (nodes w m) = false ->
                    isBlocking (nodes w3 m) = false
                    /\ state (nodes w3 m) = state (nodes w m)
                    /\ result (nodes w3 m) = result (nodes w m))
      /\ (forall m, blockOnReturnedContext (nodes w3 m)
                    = blockOnReturnedContext (nodes w m)
                    /\ exitHooks (nodes w3 m) = exitHooks (nodes w m))
      /\ (forall c, In c l ->
            halts_child contextOf (blockOnReturnedContext (nodes w n))
              (result (nodes w n)) c = true ->
            isBlocking (nodes w3 c) = false).
Proof.
  induction l as [|child l IH]; intros w w3 Sn R; simpl in R.
  - injection R as <-. exists []. rewrite app_nil_r. repeat split; auto.
    intros c [].
  - unfold halt_child at 1 in R. fold (halts_child contextOf
      (blockOnReturnedContext (nodes w n)) (result (nodes w n)) child) in R.
    simpl. destruct (halts_child _ _ _ child) eqn:Hc.
    + destruct (exec contextOf fuel (Halt child r) (log (EvHaltChild n child r) w))
        as [w1|w1|] eqn:R1; simpl in R; try discriminate.
      destruct (exec_framed contextOf fuel (Halt child r) _ w1
                  ltac:(now rewrite R1)) as [F1 S1].
      specialize (S1 child eq_refl).
      destruct (fr_trace F1) as (d1 & E1 & Q1).
      assert (Sn1 : isBlocking (nodes w1 n) = false) by now apply (frame_blocking F1).
      destruct (IH w1 w3 Sn1 R) as (d & E & Hh & Hk & Hs & Hf & Hl).
      assert (Er : result (nodes w1 n) = result (nodes w n)) by now apply (fr_result F1).
      assert (Eb : blockOnReturnedContext (nodes w1 n) = blockOnReturnedContext (nodes w n))
        by apply (fr_block F1).
      rewrite Er, Eb in Hh, Hl.
      exists ((EvHaltChild n child r :: d1) ++ d). repeat split.
      * rewrite E, E1. simpl. now rewrite <- !app_assoc.
      * rewrite child_halts_app. simpl. rewrite Nat.eqb_refl.
        rewrite (quiet_child_halts n d1 (Q1 n Sn)). simpl. now rewrite Hh.
      * rewrite hook_calls_app. simpl. now rewrite (quiet_hook_calls n d1 (Q1 n Sn)).
      * apply Hs. now apply (frame_blocking F1).
      * destruct (Hs m (frame_blocking F1 m H)) as (_ & -> & _).
        now apply (fr_state F1).
      * destruct (Hs m (frame_blocking F1 m H)) as (_ & _ & ->).
        now apply (fr_result F1).
      * destruct (Hf m) as [-> _]. apply (fr_block F1).
      * destruct (Hf m) as [_ ->]. apply (fr_hooks F1).
      * intros c [<-|Hin] Hc'; [|now apply Hl]. now apply Hs.
    + destruct (IH w w3 Sn R) as (d & E & Hh & Hk & Hs & Hf & Hl).
      exists d. repeat split; auto; try apply Hs; try apply Hf; auto.
      intros c [<-|Hin] Hc'; [congruence|now apply Hl].
Qed.

End FinalizeTrace.

Lemma bind_done (o : outcome) (k : world -> outcome) (w' : world) :
  bind o k = Done w' -> exists w1, o = Done w1 /\ k w1 = Done w'.
Proof.
  destruct o as [w1|w1|]; simpl; intros H; try discriminate. now exists w1.
Qed.

Lemma settle_node_spec (n : id) (s : Final) (r : value) (w : world) :
  state (nodes (settle_node n s r w) n) = s
  /\ result (nodes (settle_node n s r w) n) = js_or r (result (nodes w n))
  /\ children (nodes (settle_node n s r w) n) = children (nodes w n)
  /\ exitHooks (nodes (settle_node n s r w) n) = exitHooks (nodes w n)
  /\ blockOnReturnedContext (nodes (settle_node n s r w) n)
     = blockOnReturnedContext (nodes w n)
  /\ isBlocking (nodes (settle_node n s r w) n) = false
  /\ trace (settle_node n s r w) = trace w ++ [EvState n s].
Proof.
  unfold settle_node. simpl. rewrite Nat.eqb_refl. simpl.
  repeat split.
Qed.

Section FinalizeSpec.

Variable contextOf : value -> option id.

(** What an effective [finalize] that returns has done. *)
Lemma finalize_trace (fuel : nat) (n : id) (s : Final) (r : value) (w w' : world) :
  isBlocking (nodes w n) = true ->
  exec contextOf fuel (Finalize n s r) w = Done w' ->
  state (nodes w' n) = s
  /\ result (nodes w' n) = js_or r (result (nodes w n))
  /\ child_halts n (delta w w')
     = map (fun c => (c, r))
         (filter (halts_child contextOf (blockOnReturnedContext (nodes w n))
                    (js_or r (result (nodes w n))))
                 (rev (children (nodes w n))))
  /\ hook_calls n (delta w w')
     = map (fun b => (run_hook b, Some n)) (rev (exitHooks (nodes w n)))
  /\ (forall c, In c (children (nodes w n)) ->
        halts_child contextOf (blockOnReturnedContext (nodes w n))
          (js_or r (result (nodes w n))) c = true ->
        isBlocking (nodes w' c) = false).
Proof.
  intros B R. destruct fuel as [|fuel]; [discriminate|].
  simpl in R. unfold do_finalize in R. rewrite B in R.
  destruct (settle_node_spec n s r w) as (Es & Er & Ec & Eh & Eb & S2 & Et).
  set (w2 := settle_node n s r w) in *.
  apply bind_done in R. destruct R as (w3 & R3 & R).
  destruct (halt_children_trace contextOf fuel n r _ w2 w3 S2 R3)
    as (d3 & E3 & Hh3 & Hk3 & Hs3 & Hf3 & Hl3).
  rewrite Er, Eb, Ec in Hh3, Hl3.
  destruct (Hs3 n S2) as (S3 & St3 & Sr3).
  set (w4 := run_hooks n (rev (exitHooks (nodes w3 n))) w3) in *.
  assert (E4 : trace w4 = trace w3 ++ hook_events n (rev (exitHooks (nodes w n)))).
  { unfold w4. rewrite run_hooks_trace. destruct (Hf3 n) as [_ ->]. now rewrite Eh. }
  assert (N4 : nodes w4 = nodes w3) by apply run_hooks_nodes.
  apply bind_done in R. destruct R as (w5 & R5 & R). injection R as <-.
  assert (F5 : frame w4 w5).
  { apply (notify_parent_frame (exec contextOf fuel) (exec_framed contextOf fuel) n).
    now rewrite R5. }
  assert (S4 : forall m, isBlocking (nodes w3 m) = false ->
                         isBlocking (nodes w4 m) = false) by now rewrite N4.
  destruct (fr_trace F5) as (d5 & E5 & Q5).
  destruct (finalizePromise_trace n w5) as (d7 & E7 & Q7).
  assert (F6 : forall m, isBlocking (nodes w4 m) = false ->
             isBlocking (nodes (finalizePromise n w5) m) = false
             /\ state (nodes (finalizePromise n w5) m) = state (nodes w4 m)
             /\ result (nodes (finalizePromise n w5) m) = result (nodes w4 m)).
  { intros m Hm. rewrite finalizePromise_nodes. repeat split.
    - now apply (frame_blocking F5).
    - now apply (fr_state F5).
    - now apply (fr_result F5). }
  set (d6 := d5 ++ d7).
  assert (E6 : trace (finalizePromise n w5) = trace w4 ++ d6)
    by (unfold d6; now rewrite E7, E5, app_assoc).
  assert (Q6 : Forall (fun e => subject e <> Some n) d6).
  { apply Forall_app. split; [now apply Q5, S4|].
    revert Q7. apply Forall_impl. intros e ->. discriminate. }
  assert (Ed : delta w (finalizePromise n w5)
               = ([EvState n s] ++ d3) ++ hook_events n (rev (exitHooks (nodes w n))) ++ d6).
  { apply delta_app. rewrite E6, E4, E3, Et. now rewrite <- !app_assoc. }
  rewrite Ed. repeat split.
  - destruct (F6 n (S4 n S3)) as (_ & -> & _). rewrite N4, St3. exact Es.
  - destruct (F6 n (S4 n S3)) as (_ & _ & ->). rewrite N4, Sr3. exact Er.
  - rewrite !child_halts_app. simpl. rewrite Hh3, child_halts_hook_events.
    rewrite (quiet_child_halts n d6 Q6). now rewrite !app_nil_r.
  - rewrite !hook_calls_app. simpl. rewrite Hk3, hook_calls_hook_events.
    rewrite (quiet_hook_calls n d6 Q6). now rewrite app_nil_r.
  - intros c Hin Hc. apply F6, S4, Hl3; [|assumption].
    now apply in_rev in Hin.
Qed.

End FinalizeSpec.

(** * Calls that do not throw

    In a world where a rank goes down from each parent to its children and
    from each context to the context its result embeds, [link] never meets
    a context that it would link to itself. *)

Section Safety.

Variable contextOf : value -> option id.
Variable rank : id -> nat.

Definition parent_ranked (w : world) : Prop :=
  forall c p, parent (nodes w c) = Some p -> rank c < rank p.

Definition orderly (w : world) : Prop :=
  ranked contextOf rank w /\ parent_ranked w.

(** The pairs that [link] and [trapExit] are called on. *)
Definition ordered (c : call) : Prop :=
  match c with
  | Link n child | TrapExit n child => rank child < rank n
  | _ => True
  end.

Definition lands (o : outcome) : Prop :=
  match o with
  | Done w => orderly w
  | Threw _ => False
  | OutOfFuel => True
  end.

Lemma lands_bind (o : outcome) (k : world -> outcome) :
  lands o -> (forall w, orderly w -> lands (k w)) -> lands (bind o k).
Proof. destruct o; simpl; auto. Qed.

Lemma lands_foreach {A : Type} (body : A -> world -> outcome) (l : list A) :
  (forall x w, orderly w -> lands (body x w)) ->
  forall w, orderly w -> lands (foreach body l w).
Proof.
  intros Hb. induction l as [|x l IH]; intros w Ow; simpl; [assumption|].
  apply lands_bind; auto.
Qed.

Lemma orderly_nodes (w w' : world) :
  nodes w' = nodes w -> orderly w -> orderly w'.
Proof. unfold orderly, ranked, parent_ranked. now intros ->. Qed.

Lemma ranked_chain (w w' : world) :
  keeps_chain w w' -> ranked contextOf rank w -> ranked contextOf rank w'.
Proof.
  intros K Hr c k H E. destruct (K c H) as [H0 E0]. rewrite E0 in E. now apply Hr.
Qed.

Lemma orderly_unlink (n child : id) (w : world) :
  orderly w -> orderly (unlink n child w).
Proof.
  intros [Hr Hp]. split.
  - apply (ranked_chain w); [apply keeps_chain_unlink|assumption].
  - intros c p. unfold unlink. simpl.
    destruct (Nat.eqb c n), (Nat.eqb c child); simpl; try discriminate; apply Hp.
Qed.

Lemma orderly_detach (child : id) (w : world) :
  orderly w -> orderly (detach child w).
Proof.
  unfold detach. destruct (parent (nodes w child)); [apply orderly_unlink|auto].
Qed.

Lemma orderly_attach (n child : id) (w : world) :
  rank child < rank n -> orderly w -> orderly (attach n child w).
Proof.
  intros L [Hr Hp]. split.
  - apply (ranked_chain w); [apply keeps_chain_attach|assumption].
  - intros c p. unfold attach. simpl.
    destruct (Nat.eqb c n), (Nat.eqb_spec c child); simpl;
      try (intros [= <-]; now subst); apply Hp.
Qed.

Lemma orderly_settle_node (n : id) (s : Final) (r : value) (w : world) :
  internal (Finalize n s r) w -> isBlocking (nodes w n) = true ->
  orderly w -> orderly (settle_node n s r w).
Proof.
  intros Hi B [Hr Hp]. split.
  - apply (ranked_chain w); [now apply settle_node_keeps_chain|assumption].
  - intros c p. unfold settle_node. simpl.
    destruct (Nat.eqb_spec c n) as [->|]; [|apply Hp].
    rewrite Nat.eqb_refl. simpl. apply Hp.
Qed.

Section SafetyStep.

Variable self : call -> world -> outcome.

Hypothesis self_lands :
  forall c w, ordered c -> internal c w -> orderly w -> lands (self c w).

Lemma do_finalize_lands (n : id) (s : Final) (r : value) (w : world) :
  (isBlocking (nodes w n) = true -> orderly (settle_node n s r w)) ->
  orderly w -> lands (do_finalize contextOf self n s r w).
Proof.
  intros H2 Ow. unfold do_finalize. destruct (isBlocking (nodes w n)); [|assumption].
  specialize (H2 eq_refl). apply lands_bind.
  - apply lands_foreach; [|assumption]. intros child u Ou. unfold halt_child.
    destruct (_ || _); [|assumption].
    apply (self_lands (Halt child r)); simpl; auto.
  - intros w3 O3. apply lands_bind; [|intros w5 O5; simpl].
    + assert (O4 : orderly (run_hooks n (rev (exitHooks (nodes w3 n))) w3))
        by (apply (orderly_nodes w3); [apply run_hooks_nodes|assumption]).
      unfold notify_parent.
      destruct (parent (nodes (run_hooks n (rev (exitHooks (nodes w3 n))) w3) n))
        as [p|] eqn:Ep; [|assumption].
      apply (self_lands (TrapExit p n)); simpl; auto.
      now apply (proj2 O4 n p).
    + apply (orderly_nodes w5); [apply finalizePromise_nodes|assumption].
Qed.

Lemma dispatch_lands (c : call) (w : world) :
  ordered c -> internal c w -> orderly w ->
  lands (dispatch contextOf self c w).
Proof.
  destruct c as [n reason|n v|n error|n s r|n child|n child]; simpl;
    intros Ho Hi Ow.
  - unfold do_halt. destruct (isBlocking (nodes w n)); [|assumption].
    now apply (self_lands (Finalize n halted reason)).
  - contradiction.
  - unfold do_fail. destruct (isBlocking (nodes w n)); [|assumption].
    now apply (self_lands (Finalize n errored error)).
  - apply do_finalize_lands; [|assumption]. intros B.
    now apply orderly_settle_node.
  - unfold do_trapExit.
    set (w1 := unlink n child (log (EvTrapExit n child) w)).
    assert (O1 : orderly w1).
    { apply orderly_unlink. now apply (orderly_nodes w). }
    apply lands_bind.
    + unfold adopt. destruct (isCompleted (nodes w1 child)) eqn:C; [|assumption].
      destruct (contextOf (result (nodes w1 child))) as [k|] eqn:E; [|assumption].
      apply (self_lands (Link n k)); simpl; auto.
      assert (rank k < rank child); [|lia].
      apply (proj1 O1 child k); [|assumption].
      unfold chained, isErrored, isHalted. unfold isCompleted in C.
      now destruct (state (nodes w1 child)) as [ | | |[ | | ]].
    + intros w2 O2. destruct (isErrored (nodes w2 child)).
      * now apply (self_lands (Fail n (result (nodes w2 child)))).
      * destruct (_ && _); [|assumption].
        now apply (self_lands (Finalize n completed VUndefined)).
  - unfold do_link. destruct (Nat.eqb_spec n child) as [->|_]; [lia|].
    apply lands_bind.
    + destruct (negb _); [|assumption].
      now apply (self_lands (Halt child VUndefined)).
    + intros w1 O1. pose proof (orderly_detach child w1 O1) as O2.
      destruct (isBlocking (nodes (detach child w1) child)).
      * simpl. now apply orderly_attach.
      * now apply (self_lands (TrapExit n child)).
Qed.

End SafetyStep.

Lemma exec_lands (fuel : nat) :
  forall c w, ordered c -> internal c w -> orderly w ->
              lands (exec contextOf fuel c w).
Proof.
  induction fuel as [|fuel IH]; intros c w Ho Hi Ow; [exact I|].
  now apply (dispatch_lands (exec contextOf fuel) IH).
Qed.

End Safety.

(** * Calls from outside return *)

Section Returns.

Variable contextOf : value -> option id.
Variable rank : id -> nat.
Variable bound : nat.

(** A world in good order: the contexts that are not settled are among the
    first [bound], and the rank goes down from parents to children and
    from contexts to the contexts their results embed. *)
Definition sound (w : world) : Prop :=
  bounded bound w /\ orderly contextOf rank w.

Definition throws (o : outcome) : bool :=
  match o with
  | Threw _ => true
  | _ => false
  end.

Lemma lands_throws (o : outcome) : lands contextOf rank o -> throws o = false.
Proof. now destruct o. Qed.

Lemma orderly_settle_outside (n : id) (s : Final) (r : value) (w : world) :
  admissible contextOf rank (Finalize n s r) -> isBlocking (nodes w n) = true ->
  orderly contextOf rank w -> orderly contextOf rank (settle_node n s r w).
Proof.
  intros A B [Hr Hp]. split.
  - intros c k. unfold settle_node. simpl.
    destruct (Nat.eqb_spec c n) as [->|]; [|apply Hr].
    rewrite Nat.eqb_refl. unfold chained, isErrored, isHalted. simpl.
    destruct s; simpl; try discriminate. intros _. unfold js_or.
    destruct (truthy r) eqn:Tr.
    + now apply A.
    + apply Hr. now apply blocking_chained.
  - intros c p. unfold settle_node. simpl.
    destruct (Nat.eqb_spec c n) as [->|]; [|apply Hp].
    rewrite Nat.eqb_refl. simpl. apply Hp.
Qed.

Lemma finalize_lands (fuel : nat) (n : id) (s : Final) (r : value) (w : world) :
  admissible contextOf rank (Finalize n s r) -> orderly contextOf rank w ->
  lands contextOf rank (exec contextOf fuel (Finalize n s r) w).
Proof.
  intros A Ow. destruct fuel as [|fuel]; [exact I|]. simpl.
  apply do_finalize_lands; [apply exec_lands| |assumption].
  intros B. now apply orderly_settle_outside.
Qed.

Lemma resume_throws (fuel : nat) (n : id) (v : value) (w : world) :
  admissible contextOf rank (Resume n v) -> orderly contextOf rank w ->
  throws (exec contextOf fuel (Resume n v) w) = false.
Proof.
  intros A Ow. destruct fuel as [|fuel]; [reflexivity|]. simpl.
  unfold do_resume. destruct (isBlocking (nodes w n)); [|reflexivity].
  assert (Hlink : lands contextOf rank
                    (resume_link contextOf (exec contextOf fuel) n v w)).
  { unfold resume_link. destruct (isRunning (nodes w n)) eqn:Run; [|assumption].
    assert (O0 : orderly contextOf rank (upd_node n (with_result v) w)).
    { destruct Ow as [Hr Hp]. split.
      - intros c k. simpl. destruct (Nat.eqb_spec c n) as [->|]; [|apply Hr].
        simpl. intros _. apply A.
      - intros c p. simpl. destruct (Nat.eqb_spec c n) as [->|]; apply Hp. }
    destruct (contextOf v) as [k|] eqn:E; [|assumption].
    apply exec_lands; simpl; auto. }
  destruct (resume_link contextOf (exec contextOf fuel) n v w) as [w1|w1|];
    simpl in *; [|contradiction|reflexivity].
  destruct (must_wait n v w1); [reflexivity|].
  apply lands_throws, finalize_lands; [|assumption].
  simpl. intros _. apply A.
Qed.

Lemma call_throws (fuel : nat) (c : call) (w : world) :
  admissible contextOf rank c -> ordered rank c -> orderly contextOf rank w ->
  throws (exec contextOf fuel c w) = false.
Proof.
  intros A Ho Ow. destruct c as [n reason|n v|n error|n s r|n child|n child].
  - now apply lands_throws, exec_lands.
  - now apply resume_throws.
  - now apply lands_throws, exec_lands.
  - now apply lands_throws, finalize_lands.
  - now apply lands_throws, exec_lands.
  - now apply lands_throws, exec_lands.
Qed.

(** In a world in good order every call returns, given enough fuel. *)
Lemma call_returns (c : call) (w : world) :
  sound w -> admissible contextOf rank c -> ordered rank c ->
  exists fuel w', exec contextOf fuel c w = Done w'.
Proof.
  intros [Hb [Hr Hp]] A Ho.
  destruct (call_terminates contextOf rank bound (unsettled bound w) c w A)
    as (o & Hn & fuel & Hf).
  { now repeat split. }
  exists fuel. specialize (Hf fuel (Nat.le_refl _)).
  pose proof (call_throws fuel c w A Ho (conj Hr Hp)) as Ht.
  rewrite Hf in *. destruct o as [w'|w'|]; [now exists w'|discriminate|congruence].
Qed.

End Returns.

(** * Hooks that throw change nothing but the log

    [mute] makes every registered hook one that returns.  A call in a world
    and the same call in the muted world go the same way. *)

Definition mute_hook (h : hook) : hook := Hook (hook_name h) false.

Definition mute_bound (b : bound_hook) : bound_hook :=
  Bound (run_id b) (mute_hook (run_hook b)).

Definition mute_node (x : node) : node :=
  with_exitHooks (map mute_bound (exitHooks x)) x.

Definition scrub_event (e : event) : list event :=
  match e with
  | EvHook n h a => [EvHook n (mute_hook h) a]
  | EvConsoleError _ _ => []
  | _ => [e]
  end.

Definition scrub (d : list event) : list event := flat_map scrub_event d.

Definition mute (w : world) : world :=
  World (fun n => mute_node (nodes w n)) (ids w) (promises w) (next_promise w)
        (next_run w) (scrub (trace w)).

Set Implicit Arguments.

Record sim (w1 w2 : world) : Prop := Sim {
  sim_nodes : forall n, nodes w2 n = mute_node (nodes w1 n);
  sim_ids : ids w2 = ids w1;
  sim_promises : forall p, promises w2 p = promises w1 p;
  sim_next_promise : next_promise w2 = next_promise w1;
  sim_next_run : next_run w2 = next_run w1;
  sim_trace : trace w2 = scrub (trace w1)
}.

Unset Implicit Arguments.

Lemma sim_mute (w : world) : sim w (mute w).
Proof. now constructor. Qed.

Definition sim_outcome (o1 o2 : outcome) : Prop :=
  match o1, o2 with
  | Done a, Done b => sim a b
  | Threw a, Threw b => sim a b
  | OutOfFuel, OutOfFuel => True
  | _, _ => False
  end.

Lemma scrub_app (d1 d2 : list event) : scrub (d1 ++ d2) = scrub d1 ++ scrub d2.
Proof. apply flat_map_app. Qed.

Lemma sim_log (w1 w2 : world) (e : event) :
  sim w1 w2 -> scrub_event e = [e] -> sim (log e w1) (log e w2).
Proof.
  intros [] He. constructor; simpl; auto.
  rewrite scrub_app. simpl. rewrite He, app_nil_r. congruence.
Qed.

Lemma sim_upd (w1 w2 : world) (n : id) (f : node -> node) :
  sim w1 w2 -> (forall x, f (mute_node x) = mute_node (f x)) ->
  sim (upd_node n f w1) (upd_node n f w2).
Proof.
  intros [] Hf. constructor; simpl; auto.
  intros m. rewrite sim_nodes0. destruct (Nat.eqb m n); auto.
Qed.

Lemma sim_settle (w1 w2 : world) (p : pid) (s : pstate) :
  sim w1 w2 -> sim (settle p s w1) (settle p s w2).
Proof.
  intros S. unfold settle. rewrite (sim_promises S).
  destruct (promises w1 p); try (now apply sim_log).
  apply sim_log; [|reflexivity]. destruct S. constructor; simpl; auto.
  intros q. now rewrite sim_promises0.
Qed.

Lemma sim_set_state (w1 w2 : world) (n : id) (s : State) :
  sim w1 w2 -> sim (set_state n s w1) (set_state n s w2).
Proof. intros S. apply sim_log; [|reflexivity]. now apply sim_upd. Qed.

Lemma sim_settle_node (w1 w2 : world) (n : id) (s : Final) (r : value) :
  sim w1 w2 -> sim (settle_node n s r w1) (settle_node n s r w2).
Proof.
  intros S. unfold settle_node.
  replace (result (nodes (set_state n s w2) n))
    with (result (nodes (set_state n s w1) n)).
  - apply sim_upd; [now apply sim_set_state|reflexivity].
  - simpl. rewrite (sim_nodes S). now destruct (Nat.eqb n n).
Qed.

Lemma sim_unlink (w1 w2 : world) (n child : id) :
  sim w1 w2 -> sim (unlink n child w1) (unlink n child w2).
Proof. intros S. unfold unlink. now repeat apply sim_upd. Qed.

Lemma sim_detach (w1 w2 : world) (child : id) :
  sim w1 w2 -> sim (detach child w1) (detach child w2).
Proof.
  intros S. unfold detach. rewrite (sim_nodes S). simpl.
  destruct (parent (nodes w1 child)); [now apply sim_unlink|assumption].
Qed.

Lemma sim_attach (w1 w2 : world) (n child : id) :
  sim w1 w2 -> sim (attach n child w1) (attach n child w2).
Proof. intros S. unfold attach. now repeat apply sim_upd. Qed.

Lemma sim_finalizePromise (w1 w2 : world) (n : id) :
  sim w1 w2 -> sim (finalizePromise n w1) (finalizePromise n w2).
Proof.
  intros S. unfold finalizePromise. rewrite (sim_nodes S).
  unfold isCompleted, isErrored, isHalted. simpl.
  destruct (State_eqb (state (nodes w1 n)) completed),
    (State_eqb (state (nodes w1 n)) errored),
    (State_eqb (state (nodes w1 n)) halted),
    (resolve (nodes w1 n)), (reject (nodes w1 n));
    auto using sim_settle.
Qed.

Lemma sim_run_hooks (n : id) (l : list bound_hook) :
  forall w1 w2, sim w1 w2 ->
                sim (run_hooks n l w1) (run_hooks n (map mute_bound l) w2).
Proof.
  induction l as [|b l IH]; intros w1 w2 S; simpl; [assumption|].
  apply IH. destruct S. destruct (hook_throws (run_hook b));
    constructor; simpl; auto; rewrite !scrub_app; simpl;
    rewrite ?app_nil_r; congruence.
Qed.

Lemma sim_bind (o1 o2 : outcome) (k1 k2 : world -> outcome) :
  sim_outcome o1 o2 ->
  (forall w1 w2, sim w1 w2 -> sim_outcome (k1 w1) (k2 w2)) ->
  sim_outcome (bind o1 k1) (bind o2 k2).
Proof. destruct o1, o2; simpl; auto; contradiction. Qed.

Lemma sim_foreach {A : Type} (b1 b2 : A -> world -> outcome) (l : list A) :
  (forall x w1 w2, sim w1 w2 -> sim_outcome (b1 x w1) (b2 x w2)) ->
  forall w1 w2, sim w1 w2 -> sim_outcome (foreach b1 l w1) (foreach b2 l w2).
Proof.
  intros Hb. induction l as [|x l IH]; intros w1 w2 S; simpl; [assumption|].
  apply sim_bind; auto.
Qed.

Lemma existsb_pointwise {A : Type} (f g : A -> bool) (l : list A) :
  (forall a, f a = g a) -> existsb f l = existsb g l.
Proof. intros H. induction l as [|a l IH]; simpl; [|rewrite H, IH]; reflexivity. Qed.

Lemma forallb_pointwise {A : Type} (f g : A -> bool) (l : list A) :
  (forall a, f a = g a) -> forallb f l = forallb g l.
Proof. intros H. induction l as [|a l IH]; simpl; [|rewrite H, IH]; reflexivity. Qed.

Section SimFields.

Variables w1 w2 : world.
Hypothesis S : sim w1 w2.

Lemma sim_state (n : id) : state (nodes w2 n) = state (nodes w1 n).
Proof. now rewrite (sim_nodes S). Qed.

Lemma sim_result (n : id) : result (nodes w2 n) = result (nodes w1 n).
Proof. now rewrite (sim_nodes S). Qed.

Lemma sim_children (n : id) : children (nodes w2 n) = children (nodes w1 n).
Proof. now rewrite (sim_nodes S). Qed.

Lemma sim_parent (n : id) : parent (nodes w2 n) = parent (nodes w1 n).
Proof. now rewrite (sim_nodes S). Qed.

Lemma sim_required (n : id) : isRequired (nodes w2 n) = isRequired (nodes w1 n).
Proof. now rewrite (sim_nodes S). Qed.

Lemma sim_block (n : id) :
  blockOnReturnedContext (nodes w2 n) = blockOnReturnedContext (nodes w1 n).
Proof. now rewrite (sim_nodes S). Qed.

Lemma sim_hooks (n : id) :
  exitHooks (nodes w2 n) = map mute_bound (exitHooks (nodes w1 n)).
Proof. now rewrite (sim_nodes S). Qed.

Lemma sim_isBlocking (n : id) : isBlocking (nodes w2 n) = isBlocking (nodes w1 n).
Proof.
  unfold isBlocking, isRunning, isWaiting, isUnstarted. now rewrite sim_state.
Qed.

Lemma sim_isRunning (n : id) : isRunning (nodes w2 n) = isRunning (nodes w1 n).
Proof. unfold isRunning. now rewrite sim_state. Qed.

Lemma sim_isWaiting (n : id) : isWaiting (nodes w2 n) = isWaiting (nodes w1 n).
Proof. unfold isWaiting. now rewrite sim_state. Qed.

Lemma sim_isCompleted (n : id) : isCompleted (nodes w2 n) = isCompleted (nodes w1 n).
Proof. unfold isCompleted. now rewrite sim_state. Qed.

Lemma sim_isErrored (n : id) : isErrored (nodes w2 n) = isErrored (nodes w1 n).
Proof. unfold isErrored. now rewrite sim_state. Qed.

End SimFields.

Section SimStep.

Variable contextOf : value -> option id.
Variables self1 self2 : call -> world -> outcome.

Hypothesis self_sim :
  forall c w1 w2, sim w1 w2 -> sim_outcome (self1 c w1) (self2 c w2).

Ltac muted S :=
  rewrite ?(sim_isBlocking _ _ S), ?(sim_isRunning _ _ S), ?(sim_isWaiting _ _ S),
    ?(sim_isCompleted _ _ S), ?(sim_isErrored _ _ S), ?(sim_result _ _ S),
    ?(sim_children _ _ S), ?(sim_parent _ _ S), ?(sim_block _ _ S).

Lemma dispatch_sim (c : call) (w1 w2 : world) :
  sim w1 w2 ->
  sim_outcome (dispatch contextOf self1 c w1) (dispatch contextOf self2 c w2).
Proof.
  intros S. destruct c as [n reason|n v|n error|n s r|n child|n child]; simpl.
  - unfold do_halt. muted S.
    destruct (isBlocking (nodes w1 n)); [now apply self_sim|assumption].
  - unfold do_resume. muted S. destruct (isBlocking (nodes w1 n)); [|assumption].
    apply sim_bind.
    + unfold resume_link. muted S.
      destruct (isRunning (nodes w1 n)); [|assumption].
      assert (S0 : sim (upd_node n (with_result v) w1) (upd_node n (with_result v) w2))
        by now apply sim_upd.
      destruct (contextOf v); [now apply self_sim|assumption].
    + intros u1 u2 Su.
      replace (must_wait n v u2) with (must_wait n v u1).
      * destruct (must_wait n v u1); [now apply sim_set_state|now apply self_sim].
      * unfold must_wait. muted Su.
        apply existsb_pointwise. intros c. now rewrite (sim_required _ _ Su).
  - unfold do_fail. muted S.
    destruct (isBlocking (nodes w1 n)); [now apply self_sim|assumption].
  - unfold do_finalize. muted S. destruct (isBlocking (nodes w1 n)); [|assumption].
    pose proof (sim_settle_node w1 w2 n s r S) as S2.
    apply sim_bind.
    + muted S2. apply sim_foreach; [|assumption].
      intros child u1 u2 Su. unfold halt_child. muted Su.
      destruct (_ || _); [|assumption].
      apply self_sim. now apply sim_log.
    + intros u1 u2 Su. apply sim_bind.
      * assert (S4 : sim (run_hooks n (rev (exitHooks (nodes u1 n))) u1)
                         (run_hooks n (rev (exitHooks (nodes u2 n))) u2)).
        { rewrite (sim_hooks _ _ Su), <- map_rev. now apply sim_run_hooks. }
        unfold notify_parent. muted S4.
        destruct (parent _); [now apply self_sim|assumption].
      * intros x1 x2 Sx. simpl. now apply sim_finalizePromise.
  - unfold do_trapExit.
    assert (S1 : sim (unlink n child (log (EvTrapExit n child) w1))
                     (unlink n child (log (EvTrapExit n child) w2))).
    { apply sim_unlink. now apply sim_log. }
    apply sim_bind.
    + unfold adopt. muted S1.
      destruct (isCompleted _); [|assumption].
      destruct (contextOf _); [now apply self_sim|assumption].
    + intros u1 u2 Su. muted Su.
      destruct (isErrored (nodes u1 child)); [now apply self_sim|].
      replace (forallb (fun c => negb (isRequired (nodes u2 c))) (children (nodes u1 n)))
        with (forallb (fun c => negb (isRequired (nodes u1 c))) (children (nodes u1 n)))
        by (apply forallb_pointwise; intros c; now rewrite (sim_required _ _ Su)).
      destruct (_ && _); [now apply self_sim|assumption].
  - unfold do_link. destruct (Nat.eqb n child); [assumption|].
    apply sim_bind.
    + muted S. destruct (negb _); [now apply self_sim|assumption].
    + intros u1 u2 Su. pose proof (sim_detach u1 u2 child Su) as S2.
      muted S2. destruct (isBlocking _); [now apply sim_attach|now apply self_sim].
Qed.

End SimStep.

Lemma exec_sim (contextOf : value -> option id) (fuel : nat) :
  forall c w1 w2, sim w1 w2 ->
    sim_outcome (exec contextOf fuel c w1) (exec contextOf fuel c w2).
Proof.
  induction fuel as [|fuel IH]; intros c w1 w2 S; [exact I|].
  now apply (dispatch_sim contextOf _ _ IH).
Qed.

(** * The worlds of the examples *)

Lemma returned_done (o : outcome) : returned o = true -> o = Done (world_after o).
Proof. now destruct o. Qed.

Lemma fuelled_world_of (o : outcome) :
  fuelled o = true -> world_of o = Some (world_after o).
Proof. now destruct o. Qed.

Lemma family_sound (required : bool) :
  sound contextOf_value depth_rank 3 (family required).
Proof.
  repeat split.
  - intros [|[|[|n]]]; destruct required; vm_compute; intros; (lia || discriminate).
  - intros [|[|[|n]]] k; destruct required; vm_compute; intros; discriminate.
  - intros [|[|[|n]]] p; destruct required; vm_compute; intros H;
      try discriminate; injection H as <-; lia.
Qed.

Lemma waiting_family_sound : sound contextOf_value depth_rank 3 waiting_family.
Proof.
  repeat split.
  - intros [|[|[|n]]]; vm_compute; intros; (lia || discriminate).
  - intros [|[|[|n]]] k; vm_compute; intros; discriminate.
  - intros [|[|[|n]]] p; vm_compute; intros H;
      try discriminate; injection H as <-; lia.
Qed.

Lemma fresh_world_sound : sound contextOf_value depth_rank 3 fresh_world.
Proof.
  repeat split.
  - intros [|[|[|n]]]; vm_compute; intros; (lia || discriminate).
  - intros [|[|[|n]]] k; vm_compute; intros; discriminate.
  - intros [|[|[|n]]] p; vm_compute; intros H; discriminate.
Qed.

(** * The claims *)

(** ** What finalize stores *)

Section FinalizeOutcome.

Variable contextOf : value -> option id.

(** An effective [finalize] leaves the context in the state it was given,
    with the result [result || this.result], whether it returns or throws. *)
Lemma finalize_outcome (fuel : nat) (n : id) (s : Final) (r : value) (w w' : world) :
  isBlocking (nodes w n) = true ->
  world_of (exec contextOf fuel (Finalize n s r) w) = Some w' ->
  state (nodes w' n) = s /\ result (nodes w' n) = js_or r (result (nodes w n)).
Proof.
  intros B R. destruct fuel as [|fuel]; [discriminate|].
  simpl in R. unfold do_finalize in R. rewrite B in R.
  destruct (settle_node_spec n s r w) as (Es & Er & _ & _ & _ & S2 & _).
  set (w2 := settle_node n s r w) in *.
  set (P := fun u => isBlocking (nodes u n) = false
                     /\ state (nodes u n) = s
                     /\ result (nodes u n) = js_or r (result (nodes w n))).
  assert (P2 : P w2) by (now repeat split).
  assert (Hstep : forall c u u', P u ->
            world_of (exec contextOf fuel c u) = Some u' -> P u').
  { intros c u u' (Su & Hs & Hr) Ru. apply exec_frame in Ru. repeat split.
    - now apply (frame_blocking Ru).
    - now rewrite (fr_state Ru n Su).
    - now rewrite (fr_result Ru n Su). }
  assert (Hloop : forall l u', world_of (foreach
                    (halt_child contextOf (exec contextOf fuel) n r) l w2) = Some u' ->
                  P u').
  { intros l u'. apply foreach_invariant; [|assumption].
    intros child u v _ Pu Rv. unfold halt_child in Rv. destruct (_ || _).
    - now apply (Hstep (Halt child r) (log (EvHaltChild n child r) u)).
    - now injection Rv as <-. }
  cut (P w'); [now intros (_ & Hs & Hr)|].
  apply bind_world_of in R. destruct R as [R|(w3 & R3 & R)].
  { apply (Hloop (rev (children (nodes w2 n)))). now rewrite R. }
  assert (P3 : P w3) by (apply (Hloop (rev (children (nodes w2 n)))); now rewrite R3).
  set (w4 := run_hooks n (rev (exitHooks (nodes w3 n))) w3) in *.
  assert (P4 : P w4) by (unfold P, w4; now rewrite run_hooks_nodes).
  assert (Htrap : forall w5, world_of (notify_parent (exec contextOf fuel) n w4) = Some w5 ->
                             P w5).
  { intros w5 R5. unfold notify_parent in R5. destruct (parent (nodes w4 n)) as [p|].
    - now apply (Hstep (TrapExit p n) w4).
    - now injection R5 as <-. }
  apply bind_world_of in R. destruct R as [R|(w5 & R5 & R)].
  { apply Htrap. now rewrite R. }
  injection R as <-. unfold P. rewrite finalizePromise_nodes.
  apply Htrap. now rewrite R5.
Qed.

End FinalizeOutcome.

(** ** C1: resume *)

(** The child [c] of [n] makes [n] wait when [n] is resumed with [v]: it is
    the value itself and [n] blocks on the context it returns, or it is not
    the value and is required. *)
Definition keeps_waiting (v : value) (w : world) (n c : id) : Prop :=
  (v = VContext c /\ blockOnReturnedContext (nodes w n) = true)
  \/ (v <> VContext c /\ isRequired (nodes w c) = true).

Lemma is_context_spec (c : id) (v : value) :
  is_context c v = true <-> v = VContext c.
Proof.
  destruct v; simpl; split; try discriminate.
  - intros H. apply Nat.eqb_eq in H. now subst.
  - intros [= ->]. apply Nat.eqb_refl.
Qed.

Lemma must_wait_spec (n : id) (v : value) (w : world) :
  must_wait n v w = true
  <-> exists c, In c (children (nodes w n)) /\ keeps_waiting v w n c.
Proof.
  unfold must_wait. rewrite existsb_exists. split.
  - intros (c & Hin & Hc). exists c. split; [assumption|].
    destruct (is_context c v) eqn:E.
    + left. split; [now apply is_context_spec|assumption].
    + right. split; [|assumption]. intros Hv. apply is_context_spec in Hv. congruence.
  - intros (c & Hin & [[Hv Hb]|[Hv Hr]]); exists c; (split; [assumption|]).
    + apply is_context_spec in Hv. now rewrite Hv.
    + destruct (is_context c v) eqn:E; [|assumption].
      apply is_context_spec in E. contradiction.
Qed.

Section Resume.

Variable contextOf : value -> option id.

Lemma resume_link_result (fuel : nat) (n : id) (v : value) (w w1 : world) :
  isRunning (nodes w n) = true ->
  resume_link contextOf (exec contextOf fuel) n v w = Done w1 ->
  isBlocking (nodes w1 n) = true ->
  result (nodes w1 n) = v.
Proof.
  unfold resume_link. intros Run R B1. rewrite Run in R.
  assert (E0 : result (nodes (upd_node n (with_result v) w) n) = v)
    by (simpl; now rewrite Nat.eqb_refl).
  destruct (contextOf v) as [k|].
  - destruct (exec_keeps_chain contextOf fuel (Link n k) _ w1 I
                ltac:(now rewrite R) n (blocking_chained _ B1)) as [_ ->].
    exact E0.
  - now injection R as <-.
Qed.

(** C1, as amended.  In a world in good order a call of [resume] on a
    context that is not settled returns.  Let [w1] be the world once the
    value is recorded and the context it embeds is linked, which happens
    when the context was running; if the context is still not settled
    there, it ends waiting exactly when one of its children in [w1] keeps it
    waiting: a child that is the value itself when the context blocks on
    the context it returns, or a child that is not the value and is
    required.  When no child does, the context ends completed, and with the
    value as its result if it was running. *)
Theorem resume_waits_or_completes (rank : id -> nat) (bound : nat) (n : id)
  (v : value) (w : world) :
  sound contextOf rank bound w ->
  admissible contextOf rank (Resume n v) ->
  isBlocking (nodes w n) = true ->
  (exists fuel w', resume contextOf fuel n v w = Done w')
  /\ forall fuel w', resume contextOf fuel n v w = Done w' ->
       exists w1,
         resume_link contextOf (exec contextOf (pred fuel)) n v w = Done w1
         /\ (isBlocking (nodes w1 n) = true ->
             (state (nodes w' n) = waiting
              <-> exists c, In c (children (nodes w1 n)) /\ keeps_waiting v w1 n c)
             /\ ((forall c, In c (children (nodes w1 n)) -> ~ keeps_waiting v w1 n c) ->
                 state (nodes w' n) = completed
                 /\ (isRunning (nodes w n) = true -> result (nodes w' n) = v))).
Proof.
  intros Hs A B. split.
  { apply (call_returns contextOf rank bound (Resume n v) w Hs A I). }
  intros fuel w' R. destruct fuel as [|fuel]; [discriminate|].
  unfold resume in R. cbn [exec dispatch] in R. unfold do_resume in R.
  rewrite B in R. apply bind_done in R. destruct R as (w1 & R1 & R).
  exists w1. split; [exact R1|]. intros B1.
  destruct (must_wait n v w1) eqn:M.
  - injection R as <-.
    assert (Sw : state (nodes (set_state n waiting w1) n) = waiting)
      by (simpl; now rewrite Nat.eqb_refl).
    split.
    + split; [intros _; now apply must_wait_spec|intros _; exact Sw].
    + intros Hno. apply must_wait_spec in M. destruct M as (c & Hin & Hc).
      now elim (Hno c Hin).
  - destruct (finalize_outcome contextOf fuel n completed v w1 w' B1
                ltac:(now rewrite R)) as [Hst Hres].
    split.
    + split.
      * rewrite Hst. discriminate.
      * intros H. apply must_wait_spec in H. congruence.
    + intros _. split; [exact Hst|]. intros Run.
      rewrite Hres, (resume_link_result fuel n v w w1 Run R1 B1).
      unfold js_or. now destruct (truthy v).
Qed.

End Resume.

Lemma resume_waits_or_completes_witness :
  exists fuel w', resume contextOf_value fuel 1 (VNum 42) (family true) = Done w'.
Proof.
  assert (A : admissible contextOf_value depth_rank (Resume 1 (VNum 42)))
    by (intros k; discriminate).
  assert (B : isBlocking (nodes (family true) 1) = true) by (vm_compute; reflexivity).
  exact (proj1 (resume_waits_or_completes contextOf_value depth_rank 3 1 (VNum 42)
                  (family true) (family_sound true) A B)).
Defined.

(** C1, as stated, fails: the root is resumed with its forked child.  The
    child is a required child of the root, so by the claim the root would
    wait; the child is the value, the root does not block on the context it
    returns, and the root completes. *)
Lemma resume_with_forked_child_counterexample :
  exists w1 w',
    isBlocking (nodes (family true) 1) = true
    /\ resume_link contextOf_value (exec contextOf_value 4) 1 (VContext 2) (family true)
       = Done w1
    /\ In 2 (children (nodes w1 1))
    /\ isRequired (nodes w1 2) = true
    /\ resume contextOf_value 5 1 (VContext 2) (family true) = Done w'
    /\ state (nodes w' 1) = completed.
Proof.
  exists (world_after (resume_link contextOf_value (exec contextOf_value 4) 1
                         (VContext 2) (family true))).
  exists (world_after (resume contextOf_value 5 1 (VContext 2) (family true))).
  split; [vm_compute; reflexivity|].
  split; [apply returned_done; vm_compute; reflexivity|].
  split; [vm_compute; auto|].
  split; [vm_compute; reflexivity|].
  split; [apply returned_done|]; vm_compute; reflexivity.
Qed.

(** ** C2: settled contexts *)

(** C2, as amended.  Once a context is settled, no call of [halt], [fail],
    [resume], [finalize], [trapExit] or [link], on any context, changes its
    state, its result or its exit hooks, and its children are never added
    to: what is left of them is what a filter keeps, since [trapExit]
    unlinks a child that settles later.  The calls of [halt], [fail],
    [resume] and [finalize] on the settled context itself return the world
    as it was. *)
Theorem settled_context_is_frozen (contextOf : value -> option id) (fuel : nat)
  (c : call) (w w' : world) (n : id) :
  isBlocking (nodes w n) = false ->
  world_of (exec contextOf fuel c w) = Some w' ->
  state (nodes w' n) = state (nodes w n)
  /\ result (nodes w' n) = result (nodes w n)
  /\ exitHooks (nodes w' n) = exitHooks (nodes w n)
  /\ (exists keep, children (nodes w' n) = filter keep (children (nodes w n)))
  /\ (forall r s,
        halt contextOf (S fuel) n r w = Done w
        /\ fail contextOf (S fuel) n r w = Done w
        /\ resume contextOf (S fuel) n r w = Done w
        /\ finalize contextOf (S fuel) n s r w = Done w).
Proof.
  intros B R. pose proof (exec_frame contextOf fuel c w w' R) as F.
  repeat split.
  - now apply (fr_state F).
  - now apply (fr_result F).
  - apply (fr_hooks F).
  - now apply (fr_children F).
  - unfold halt. simpl. unfold do_halt. now rewrite B.
  - unfold fail. simpl. unfold do_fail. now rewrite B.
  - unfold resume. simpl. unfold do_resume. now rewrite B.
  - unfold finalize. simpl. unfold do_finalize. now rewrite B.
Qed.

Lemma settled_context_is_frozen_witness :
  state (nodes (world_after (exec contextOf_value 5 (Halt 2 (VStr "stop")) handed_off)) 1)
  = state (nodes handed_off 1).
Proof.
  assert (H1 : isBlocking (nodes handed_off 1) = false)
    by (vm_compute; reflexivity).
  assert (H2 : fuelled (exec contextOf_value 5 (Halt 2 (VStr "stop")) handed_off) = true)
    by (vm_compute; reflexivity).
  exact (proj1 (settled_context_is_frozen contextOf_value 5 _ _ _ 1 H1
                  (fuelled_world_of _ H2))).
Defined.

(** C2, as stated, fails: the root has completed and spared the child it
    returned; when that child is halted, [trapExit] takes it out of the
    children of the settled root. *)
Lemma settled_children_counterexample :
  isBlocking (nodes handed_off 1) = false
  /\ children (nodes handed_off 1) = [2]
  /\ exists w', halt contextOf_value 5 2 (VStr "stop") handed_off = Done w'
                /\ children (nodes w' 1) = [].
Proof.
  split; [vm_compute; reflexivity|]. split; [vm_compute; reflexivity|].
  exists (world_after (halt contextOf_value 5 2 (VStr "stop") handed_off)).
  split; [apply returned_done|]; vm_compute; reflexivity.
Qed.

(** ** C3: the result that finalize stores *)

(** C3, at the input where the code departs from it.  The root waits with
    the result 42; [finalize('halted', 0)] is given the result 0 and leaves
    42 in place. *)
Theorem finalize_ignores_falsy_result :
  isBlocking (nodes waiting_family 1) = true
  /\ result (nodes waiting_family 1) = VNum 42
  /\ exists w', finalize contextOf_value 5 1 halted (VNum 0) waiting_family = Done w'
                /\ state (nodes w' 1) = halted
                /\ result (nodes w' 1) = VNum 42.
Proof.
  split; [vm_compute; reflexivity|]. split; [vm_compute; reflexivity|].
  exists (world_after (finalize contextOf_value 5 1 halted (VNum 0) waiting_family)).
  split; [apply returned_done|split]; vm_compute; reflexivity.
Qed.

(** The same for every result that is falsy: 0, false, the empty string,
    null and undefined alike leave the stored result as it was. *)
Lemma finalize_falsy_result (contextOf : value -> option id) (fuel : nat)
  (n : id) (s : Final) (r : value) (w w' : world) :
  isBlocking (nodes w n) = true -> truthy r = false ->
  world_of (finalize contextOf fuel n s r w) = Some w' ->
  result (nodes w' n) = result (nodes w n).
Proof.
  intros B T R. destruct (finalize_outcome contextOf fuel n s r w w' B R) as [_ ->].
  unfold js_or. now rewrite T.
Qed.

(** ** C4: the children of a context that finalizes *)

(** The child that a finalize leaves alone: the context does not block on
    the context it returns, and its result embeds that child. *)
Definition spared (contextOf : value -> option id) (x : node) (c : id) : bool :=
  negb (blockOnReturnedContext x) && embeds contextOf (result x) c.

Lemma halts_child_spared (contextOf : value -> option id) (x : node) (c : id) :
  halts_child contextOf (blockOnReturnedContext x) (result x) c
  = negb (spared contextOf x c).
Proof.
  unfold halts_child, spared.
  now destruct (blockOnReturnedContext x), (embeds contextOf (result x) c).
Qed.

Section Cascade.

Variable contextOf : value -> option id.

(** C4.  In a world in good order, [finalize] on a context that is not
    settled returns, and it has called [halt] with its own result argument
    on the children the context had, from the last linked to the first,
    leaving out just the child that is spared: the one that the final
    result of the context embeds, when the context does not block on the
    context it returns.  The children that were not spared are settled. *)
Theorem finalize_halts_children (rank : id -> nat) (bound : nat) (n : id)
  (s : Final) (r : value) (w : world) :
  sound contextOf rank bound w ->
  admissible contextOf rank (Finalize n s r) ->
  isBlocking (nodes w n) = true ->
  (exists fuel w', finalize contextOf fuel n s r w = Done w')
  /\ forall fuel w', finalize contextOf fuel n s r w = Done w' ->
       child_halts n (delta w w')
       = map (fun c => (c, r))
           (filter (fun c => negb (spared contextOf (nodes w' n) c))
                   (rev (children (nodes w n))))
       /\ forall c, In c (children (nodes w n)) ->
                    spared contextOf (nodes w' n) c = false ->
                    isBlocking (nodes w' c) = false.
Proof.
  intros Hs A B. split.
  { apply (call_returns contextOf rank bound (Finalize n s r) w Hs A I). }
  intros fuel w' R.
  destruct (finalize_trace contextOf fuel n s r w w' B R) as (_ & Hr & Hh & _ & Hl).
  assert (F : frame w w')
    by (apply (exec_frame contextOf fuel (Finalize n s r)); unfold finalize in R;
        now rewrite R).
  assert (E : forall c,
    halts_child contextOf (blockOnReturnedContext (nodes w n))
      (js_or r (result (nodes w n))) c
    = negb (spared contextOf (nodes w' n) c)).
  { intros c. rewrite <- halts_child_spared, Hr. now rewrite (fr_block F). }
  split.
  - rewrite Hh. f_equal. apply filter_ext. exact E.
  - intros c Hin Hc. apply Hl; [assumption|]. rewrite E, Hc. reflexivity.
Qed.

End Cascade.

Lemma family_of_three_sound : sound contextOf_value depth_rank 4 family_of_three.
Proof.
  repeat split.
  - intros [|[|[|[|?]]]]; vm_compute; intros; (lia || discriminate).
  - intros [|[|[|[|?]]]] ?; vm_compute; intros; discriminate.
  - intros [|[|[|[|?]]]] ?; vm_compute; intros H; try discriminate;
      injection H as <-; lia.
Qed.

Lemma finalize_halts_children_witness :
  exists fuel w',
    finalize contextOf_value fuel 1 halted (VStr "stop") family_of_three = Done w'.
Proof.
  assert (B : isBlocking (nodes family_of_three 1) = true)
    by (vm_compute; reflexivity).
  exact (proj1 (finalize_halts_children contextOf_value depth_rank 4 1 halted
                  (VStr "stop") family_of_three family_of_three_sound I B)).
Defined.

(** The children 2 and 3 of the root are halted, 3 first. *)
Example halt_cascade_in_reverse :
  child_halts 1
    (delta family_of_three
       (world_after (finalize contextOf_value 5 1 halted (VStr "stop") family_of_three)))
  = [(3, VStr "stop"); (2, VStr "stop")].
Proof. vm_compute. reflexivity. Qed.

(** ** C5: the error of a child *)

Section FirstError.

Variable contextOf : value -> option id.

(** When a child has settled as errored, [trapExit] fails its parent with
    the result of the child, which [finalize] stores if it is truthy, and a
    later [fail] of the parent does nothing. *)
Lemma trapExit_errored_child (fuel : nat) (p c : id) (w w' : world) :
  isErrored (nodes w c) = true ->
  isBlocking (nodes w p) = true ->
  world_of (trapExit contextOf fuel p c w) = Some w' ->
  state (nodes w' p) = errored
  /\ result (nodes w' p) = js_or (result (nodes w c)) (result (nodes w p))
  /\ forall e, fail contextOf (S fuel) p e w' = Done w'.
Proof.
  intros E B R. unfold trapExit in R.
  destruct fuel as [|fuel]; [discriminate|].
  cbn [exec dispatch] in R. unfold do_trapExit in R.
  set (w1 := unlink p c (log (EvTrapExit p c) w)) in *.
  assert (Hc : nodes w1 c = with_parent None (nodes w c)
               \/ exists l, nodes w1 c = with_children l (with_parent None (nodes w c))).
  { unfold w1, unlink. simpl. rewrite Nat.eqb_refl.
    destruct (Nat.eqb c p); [right; now eexists|left; reflexivity]. }
  assert (Ec : state (nodes w1 c) = state (nodes w c)
               /\ result (nodes w1 c) = result (nodes w c)).
  { destruct Hc as [->|[l ->]]; now split. }
  destruct Ec as [Es Er].
  assert (Hp : isBlocking (nodes w1 p) = true /\ result (nodes w1 p) = result (nodes w p)).
  { unfold w1, unlink. simpl. rewrite Nat.eqb_refl.
    destruct (Nat.eqb p c); now split. }
  destruct Hp as [Bp Erp].
  assert (Ad : adopt contextOf (exec contextOf fuel) p c w1 = Done w1).
  { unfold adopt, isCompleted. rewrite Es. unfold isErrored in E.
    now destruct (state (nodes w c)) as [ | | |[ | | ]]. }
  assert (E1 : isErrored (nodes w1 c) = true)
    by (unfold isErrored in *; now rewrite Es).
  rewrite Ad in R. cbn [bind] in R. rewrite E1, Er in R.
  destruct fuel as [|fuel]; [discriminate|].
  cbn [exec dispatch] in R. unfold do_fail in R. rewrite Bp in R.
  destruct (finalize_outcome contextOf fuel p errored (result (nodes w c)) w1 w' Bp R)
    as [Hs Hr].
  split; [assumption|]. split.
  - now rewrite Hr, Erp.
  - intros e. unfold fail. simpl. unfold do_fail, isBlocking, isRunning, isWaiting,
      isUnstarted. now rewrite Hs.
Qed.

End FirstError.

Lemma just_errored_sound (error : value) :
  sound contextOf_value depth_rank 3 (just_errored 2 error waiting_family).
Proof.
  repeat split.
  - intros [|[|[|?]]]; vm_compute; intros; (lia || discriminate).
  - intros [|[|[|?]]] ?; vm_compute; intros; discriminate.
  - intros [|[|[|?]]] ?; vm_compute; intros H; try discriminate;
      injection H as <-; lia.
Qed.

(** C5, as amended.  In a world in good order, when a child has settled as
    errored, [trapExit] on a parent that is not settled returns and has
    failed the parent: the parent is errored; its result is the result of
    the child when that is truthy, and the result it had when the child has
    none; a later [fail] of the parent, with whatever error, does nothing. *)
Theorem first_child_error_wins (contextOf : value -> option id)
  (rank : id -> nat) (bound : nat) (p c : id) (w : world) :
  sound contextOf rank bound w ->
  rank c < rank p ->
  isErrored (nodes w c) = true ->
  isBlocking (nodes w p) = true ->
  (exists fuel w', trapExit contextOf fuel p c w = Done w')
  /\ forall fuel w', world_of (trapExit contextOf fuel p c w) = Some w' ->
       state (nodes w' p) = errored
       /\ (truthy (result (nodes w c)) = true ->
           result (nodes w' p) = result (nodes w c))
       /\ (result (nodes w c) = VUndefined ->
           result (nodes w' p) = result (nodes w p))
       /\ forall e, fail contextOf (S fuel) p e w' = Done w'.
Proof.
  intros Hs Hr E B. split.
  - apply (call_returns contextOf rank bound (TrapExit p c) w Hs I Hr).
  - intros fuel w' R.
    destruct (trapExit_errored_child contextOf fuel p c w w' E B R) as (Hst & Hres & Hf).
    split; [exact Hst|]. split; [|split; [|exact Hf]].
    + intros T. rewrite Hres. unfold js_or. now rewrite T.
    + intros U. rewrite Hres, U. reflexivity.
Qed.

Lemma first_child_error_wins_witness :
  exists fuel w',
    trapExit contextOf_value fuel 1 2 (just_errored 2 (VStr "E") waiting_family)
    = Done w'.
Proof.
  assert (R : depth_rank 2 < depth_rank 1) by (vm_compute; lia).
  assert (E : isErrored (nodes (just_errored 2 (VStr "E") waiting_family) 2) = true)
    by (vm_compute; reflexivity).
  assert (B : isBlocking (nodes (just_errored 2 (VStr "E") waiting_family) 1) = true)
    by (vm_compute; reflexivity).
  exact (proj1 (first_child_error_wins contextOf_value depth_rank 3 1 2
                  (just_errored 2 (VStr "E") waiting_family)
                  (just_errored_sound (VStr "E")) R E B)).
Defined.

(** C5, as stated, fails: the root waits with the result 42 for its forked
    child; the child is failed with no error, so that its result is
    undefined; [trapExit] fails the root with it, and [finalize] keeps the
    42 that the root had. *)
Lemma child_error_undefined_counterexample :
  state (nodes waiting_family 1) = waiting
  /\ parent (nodes waiting_family 2) = Some 1
  /\ exists w', fail contextOf_value 5 2 VUndefined waiting_family = Done w'
                /\ state (nodes w' 2) = errored
                /\ result (nodes w' 2) = VUndefined
                /\ state (nodes w' 1) = errored
                /\ result (nodes w' 1) = VNum 42.
Proof.
  split; [vm_compute; reflexivity|]. split; [vm_compute; reflexivity|].
  exists (world_after (fail contextOf_value 5 2 VUndefined waiting_family)).
  split; [apply returned_done|repeat split]; vm_compute; reflexivity.
Qed.

(** The same with the error 0, which the child does not even store. *)
Example child_error_zero_lost :
  let w' := world_after (fail contextOf_value 5 2 (VNum 0) waiting_family) in
  result (nodes w' 2) = VUndefined
  /\ state (nodes w' 1) = errored
  /\ result (nodes w' 1) = VNum 42.
Proof. vm_compute. repeat split. Qed.

(** ** C6: the deferred result *)

(** What a pending promise of a context in this condition becomes when
    [finalizePromise] calls its callback. *)
Definition settlement (x : node) : pstate :=
  match state x with
  | final completed => landing (Resolved (result x))
  | final errored => Rejected (result x)
  | final halted => Rejected (HaltError (result x))
  | _ => Pending
  end.


Lemma finalizePromise_settles (n : id) (p : pid) (w : world) :
  resolve (nodes w n) = Some p -> reject (nodes w n) = Some p ->
  promises w p = Pending ->
  promises (finalizePromise n w) p = settlement (nodes w n).
Proof.
  intros Hres Hrej Hp. unfold finalizePromise, settlement, isCompleted, isErrored,
    isHalted, settle.
  rewrite Hres, Hrej.
  destruct (state (nodes w n)) as [ | | |[ | | ]]; simpl; rewrite ?Hp; simpl;
    rewrite ?Nat.eqb_refl; auto.
Qed.

Section StoredPromise.

Variable contextOf : value -> option id.

(** The promise whose callbacks a context stores is settled by the
    [finalize] of that context, as the state it reaches demands. *)
Lemma finalize_settles_stored (fuel : nat) (n : id) (s : Final) (r : value)
  (p : pid) (w w' : world) :
  isBlocking (nodes w n) = true ->
  resolve (nodes w n) = Some p -> reject (nodes w n) = Some p ->
  promises w p = Pending ->
  (forall m, resolve (nodes w m) = Some p \/ reject (nodes w m) = Some p -> m = n) ->
  exec contextOf fuel (Finalize n s r) w = Done w' ->
  promises w' p = settlement (nodes w' n).
Proof.
  intros B Hres Hrej Hp Hu R. destruct fuel as [|fuel]; [discriminate|].
  cbn [exec dispatch] in R. unfold do_finalize in R. rewrite B in R.
  destruct (settle_node_spec n s r w) as (_ & _ & _ & _ & _ & S2 & _).
  set (w2 := settle_node n s r w) in *.
  set (P := fun u =>
              isBlocking (nodes u n) = false
              /\ promises u p = Pending
              /\ resolve (nodes u n) = Some p /\ reject (nodes u n) = Some p
              /\ forall m, resolve (nodes u m) = Some p \/ reject (nodes u m) = Some p
                           -> m = n).
  assert (P2 : P w2).
  { unfold P. repeat split; auto.
    - unfold w2, settle_node. simpl. now rewrite Nat.eqb_refl.
    - unfold w2, settle_node. simpl. now rewrite Nat.eqb_refl.
    - intros m. unfold w2, settle_node. simpl.
      destruct (Nat.eqb_spec m n); [auto|apply Hu]. }
  assert (Hstep : forall c u u', P u ->
            world_of (exec contextOf fuel c u) = Some u' -> P u').
  { intros c u u' (Su & Pu & Ru1 & Ru2 & Uu) Ru. apply exec_frame in Ru.
    unfold P. repeat split.
    - now apply (frame_blocking Ru).
    - rewrite (fr_promises Ru); [assumption|]. right. intros m Hm.
      now rewrite (Uu m Hm).
    - now rewrite (fr_resolve Ru).
    - now rewrite (fr_reject Ru).
    - intros m. rewrite (fr_resolve Ru), (fr_reject Ru). apply Uu. }
  apply bind_done in R. destruct R as (w3 & R3 & R).
  assert (P3 : P w3).
  { revert R3. generalize (rev (children (nodes w2 n))) as l. intros l R3.
    apply (foreach_invariant (halt_child contextOf (exec contextOf fuel) n r) P l)
      with (w := w2); [|assumption|now rewrite R3].
    intros child u v _ Pu Rv. unfold halt_child in Rv. destruct (_ || _).
    - apply (Hstep (Halt child r) (log (EvHaltChild n child r) u)); auto.
    - now injection Rv as <-. }
  set (w4 := run_hooks n (rev (exitHooks (nodes w3 n))) w3) in *.
  assert (P4 : P w4).
  { destruct P3 as (S3 & Pp & R1 & R2 & U3). unfold P, w4.
    rewrite run_hooks_nodes. repeat split; auto.
    clear -Pp. generalize (rev (exitHooks (nodes w3 n))) as l. intros l.
    revert w3 Pp. induction l as [|b l IH]; intros w3 Pp; simpl; auto.
    apply IH. now destruct (hook_throws (run_hook b)). }
  apply bind_done in R. destruct R as (w5 & R5 & R). injection R as <-.
  assert (P5 : P w5).
  { unfold notify_parent in R5. destruct (parent (nodes w4 n)) as [q|].
    - apply (Hstep (TrapExit q n) w4); auto. now rewrite R5.
    - now injection R5 as <-. }
  destruct P5 as (S5 & Pp & R1 & R2 & _).
  rewrite finalizePromise_nodes. now apply finalizePromise_settles.
Qed.

End StoredPromise.

Lemma finalizePromise_next_promise (n : id) (w : world) :
  next_promise (finalizePromise n w) = next_promise w.
Proof.
  unfold finalizePromise, settle.
  destruct (isCompleted (nodes w n)), (isErrored (nodes w n)),
    (isHalted (nodes w n)), (resolve (nodes w n)), (reject (nodes w n));
    try reflexivity;
    repeat match goal with
           | |- context [match promises w ?x with _ => _ end] =>
               destruct (promises w x)
           end; reflexivity.
Qed.





(** ** C7: the exit hooks of a context that finalizes *)

Section ExitHooks.

Variable contextOf : value -> option id.

(** C7.  [ensure] on a context that is not settled puts the hook, bound
    to the context, at the end of its exit hooks.  In a world in good
    order, [finalize] on such a context returns, and it has called each
    exit hook of the context once, with the context as argument, from the
    last registered to the first, whether hooks throw or not.  What hooks throw stays in the log: the call goes as
    it goes in the world where no hook throws, to the same outcome, the
    same states, results, children and parents of all contexts and the same
    promises. *)
Theorem exit_hooks_run_in_reverse (rank : id -> nat) (bound : nat) (n : id)
  (s : Final) (r : value) (w : world) :
  sound contextOf rank bound w ->
  admissible contextOf rank (Finalize n s r) ->
  isBlocking (nodes w n) = true ->
  (exists fuel w', finalize contextOf fuel n s r w = Done w')
  /\ (forall h, exitHooks (nodes (ensured_world (ensure n h w)) n)
                = exitHooks (nodes w n) ++ [Bound (next_run w) h])
  /\ forall fuel w', finalize contextOf fuel n s r w = Done w' ->
       hook_calls n (delta w w')
       = map (fun b => (run_hook b, Some n)) (rev (exitHooks (nodes w n)))
       /\ exists u', finalize contextOf fuel n s r (mute w) = Done u'
            /\ (forall m, state (nodes u' m) = state (nodes w' m)
                          /\ result (nodes u' m) = result (nodes w' m)
                          /\ children (nodes u' m) = children (nodes w' m)
                          /\ parent (nodes u' m) = parent (nodes w' m))
            /\ (forall p, promises u' p = promises w' p).
Proof.
  intros Hs A B. split.
  { apply (call_returns contextOf rank bound (Finalize n s r) w Hs A I). }
  split.
  { intros h. unfold ensure. cbn [nodes]. rewrite B. simpl.
    now rewrite Nat.eqb_refl. }
  intros fuel w' R.
  destruct (finalize_trace contextOf fuel n s r w w' B R) as (_ & _ & _ & Hk & _).
  split; [exact Hk|].
  pose proof (exec_sim contextOf fuel (Finalize n s r) w (mute w) (sim_mute w)) as S.
  unfold finalize in *. rewrite R in S.
  destruct (exec contextOf fuel (Finalize n s r) (mute w)) as [u'|u'|];
    simpl in S; try contradiction.
  exists u'. split; [reflexivity|]. split.
  - intros m. repeat split.
    + apply (sim_state _ _ S).
    + apply (sim_result _ _ S).
    + apply (sim_children _ _ S).
    + apply (sim_parent _ _ S).
  - apply (sim_promises S).
Qed.

End ExitHooks.

Lemma hooked_world_sound : sound contextOf_value depth_rank 3 hooked_world.
Proof.
  repeat split.
  - intros [|[|[|?]]]; vm_compute; intros; (lia || discriminate).
  - intros [|[|[|?]]] ?; vm_compute; intros; discriminate.
  - intros [|[|[|?]]] ?; vm_compute; intros; discriminate.
Qed.

Lemma exit_hooks_run_in_reverse_witness :
  exists fuel w',
    finalize contextOf_value fuel 1 halted (VStr "shutdown") hooked_world = Done w'.
Proof.
  assert (B : isBlocking (nodes hooked_world 1) = true) by (vm_compute; reflexivity).
  exact (proj1 (exit_hooks_run_in_reverse contextOf_value depth_rank 3 1 halted
                  (VStr "shutdown") hooked_world hooked_world_sound I B)).
Defined.

(** The hooks run 3, 2, 1; hook 2 throws and the root is halted all the
    same. *)
Example hooks_three_two_one :
  let w' := world_after
              (finalize contextOf_value 5 1 halted (VStr "shutdown") hooked_world) in
  hook_calls 1 (delta hooked_world w')
  = [(Hook 3 false, Some 1); (Hook 2 true, Some 1); (Hook 1 false, Some 1)]
  /\ state (nodes w' 1) = halted
  /\ result (nodes w' 1) = VStr "shutdown".
Proof. vm_compute. repeat split. Qed.

(** ** C8: ensure on a settled context *)

Lemma ensure_settled (n : id) (h : hook) (w : world) :
  isBlocking (nodes w n) = false ->
  ensure n h w
  = let w' := log (EvHook n h None)
                (World (nodes w) (ids w) (promises w) (next_promise w)
                       (S (next_run w)) (trace w)) in
    if hook_throws h then EnsureThrew w' else Ensured w' Identity.
Proof. intros B. unfold ensure. cbn [nodes]. now rewrite B. Qed.

(** What [ensure] does on a settled context: it calls the hook once, at
    once and with no argument, and leaves every context as it was, the
    exit hooks included.  When the hook returns, [ensure] returns the
    identity, whose call changes nothing; when the hook throws, so does
    [ensure]. *)
Lemma ensure_on_settled (n : id) (h : hook) (w : world) :
  isBlocking (nodes w n) = false ->
  exists w',
    ensure n h w = (if hook_throws h then EnsureThrew w' else Ensured w' Identity)
    /\ nodes w' = nodes w
    /\ delta w w' = [EvHook n h None]
    /\ forall u, call_unregister Identity u = u.
Proof.
  intros B. rewrite (ensure_settled n h w B). cbv zeta.
  eexists. split; [reflexivity|]. split; [reflexivity|]. split; [|reflexivity].
  apply delta_app. reflexivity.
Qed.

(** C8, at the input where the code departs from it.  The root has
    settled; [ensure] of a hook that throws calls the hook, bare and with
    no argument, outside any [try]: [ensure] throws and returns no
    function.  The hook loop of [finalize] calls the bound hook with the
    context, catches what it throws and reports it. *)
Theorem ensure_on_settled_throws :
  isBlocking (nodes handed_off 1) = false
  /\ (exists w', ensure 1 (Hook 0 true) handed_off = EnsureThrew w'
                 /\ nodes w' = nodes handed_off
                 /\ delta handed_off w' = [EvHook 1 (Hook 0 true) None])
  /\ (forall w' u, ensure 1 (Hook 0 true) handed_off <> Ensured w' u)
  /\ (forall w, delta w (run_hooks 1 [Bound 0 (Hook 0 true)] w)
                = [EvHook 1 (Hook 0 true) (Some 1);
                   EvConsoleError 1 (Hook 0 true)]).
Proof.
  assert (H : isBlocking (nodes handed_off 1) = false) by (vm_compute; reflexivity).
  destruct (ensure_on_settled 1 (Hook 0 true) handed_off H) as (w' & E & En & Ed & _).
  cbn [hook_throws] in E.
  split; [exact H|]. split; [|split].
  - exists w'. split; [exact E|]. split; [exact En|exact Ed].
  - intros u' u Eq. rewrite E in Eq. discriminate.
  - intros w. apply delta_app. simpl. now rewrite <- app_assoc.
Qed.

(** ** C9: a context that was never entered *)

(** C9, at the input where the code departs from it.  A context that
    nobody entered is resumed with 0: it completes at once, was never
    running and has no operation, and its result is undefined, not 0. *)
Theorem unstarted_resume_loses_falsy_value :
  state (nodes fresh_world 1) = unstarted
  /\ exists w', resume contextOf_value 5 1 (VNum 0) fresh_world = Done w'
                /\ state (nodes w' 1) = completed
                /\ result (nodes w' 1) = VUndefined
                /\ operation (nodes w' 1) = None
                /\ trace w' = [EvState 1 completed].
Proof.
  split; [vm_compute; reflexivity|].
  exists (world_after (resume contextOf_value 5 1 (VNum 0) fresh_world)).
  split; [apply returned_done|repeat split]; vm_compute; reflexivity.
Qed.

(** What does hold of a context that was never entered: [fail] and [halt]
    settle it as errored and as halted, [resume] completes it when no child
    makes it wait, and the operation stays unbound. *)
Lemma unstarted_settles (contextOf : value -> option id) (fuel : nat) (n : id)
  (v : value) (w w' : world) :
  isUnstarted (nodes w n) = true ->
  (world_of (halt contextOf fuel n v w) = Some w' -> state (nodes w' n) = halted)
  /\ (world_of (fail contextOf fuel n v w) = Some w' -> state (nodes w' n) = errored)
  /\ (must_wait n v w = false ->
      world_of (resume contextOf fuel n v w) = Some w' ->
      state (nodes w' n) = completed
      /\ result (nodes w' n) = js_or v (result (nodes w n)))
  /\ (forall c, world_of (exec contextOf fuel c w) = Some w' ->
                operation (nodes w' n) = operation (nodes w n)).
Proof.
  intros U.
  assert (B : isBlocking (nodes w n) = true)
    by (unfold isBlocking; rewrite U; apply orb_true_r).
  assert (Run : isRunning (nodes w n) = false).
  { unfold isRunning, isUnstarted in *.
    now destruct (state (nodes w n)) as [ | | |[ | | ]]. }
  split; [|split; [|split]].
  - intros R. destruct fuel as [|fuel]; [discriminate|].
    unfold halt in R. cbn [exec dispatch] in R. unfold do_halt in R.
    rewrite B in R.
    now apply (finalize_outcome contextOf fuel n halted v w w' B).
  - intros R. destruct fuel as [|fuel]; [discriminate|].
    unfold fail in R. cbn [exec dispatch] in R. unfold do_fail in R.
    rewrite B in R.
    now apply (finalize_outcome contextOf fuel n errored v w w' B).
  - intros M R. destruct fuel as [|fuel]; [discriminate|].
    unfold resume in R. cbn [exec dispatch] in R.
    unfold do_resume, resume_link in R.
    rewrite B, Run in R. cbn [bind] in R. rewrite M in R.
    now apply (finalize_outcome contextOf fuel n completed v w w' B).
  - intros c R. apply exec_frame in R. apply (fr_operation R).
Qed.

(** ** What [enter], [spawn] and [fork] are made of *)

(** The calls that come from outside the methods. *)
Definition public (c : call) : Prop :=
  match c with
  | TrapExit _ _ | Finalize _ _ _ => False
  | _ => True
  end.

Section Driven.

Variable contextOf : value -> option id.
Variable controllerOf : nat -> option (list callback).

(** From [w] to [w'] by calls of [halt], [resume], [fail] and [link] that
    return or throw, by [ensure], by constructions and by the two
    assignments of [enter]. *)
Inductive driven : world -> world -> Prop :=
| driven_stop (w : world) : driven w w
| driven_call (fuel : nat) (c : call) (w w1 w' : world) :
    public c -> world_of (exec contextOf fuel c w) = Some w1 ->
    driven w1 w' -> driven w w'
| driven_ensure (n : id) (h : hook) (w w' : world) :
    driven (ensured_world (ensure n h w)) w' -> driven w w'
| driven_construct (req : bool) (w w' : world) :
    driven (fst (construct req false w)) w' -> driven w w'
| driven_entered (n : id) (op : nat) (w w' : world) :
    isUnstarted (nodes w n) = true ->
    driven (set_state n running (upd_node n (with_operation (Some op)) w)) w' ->
    driven w w'.

Lemma driven_trans (w1 w2 w3 : world) :
  driven w1 w2 -> driven w2 w3 -> driven w1 w3.
Proof.
  intros H1 H2. induction H1; [assumption| | | |].
  - apply (driven_call fuel c w w1); auto.
  - apply (driven_ensure n h). auto.
  - apply (driven_construct req). auto.
  - apply (driven_entered n op); auto.
Qed.

Lemma add_child_with_driven (enter_child : id -> nat -> world -> outcome)
  (req : bool) (fuel : nat) (n : id) (op : nat) (w w' : world) :
  (forall c u u', world_of (enter_child c op u) = Some u' -> driven u u') ->
  world_of (fst (add_child_with contextOf enter_child req fuel n op w)) = Some w' ->
  driven w w'.
Proof.
  intros He. unfold add_child_with.
  assert (E : construct req false w
              = (fst (construct req false w), snd (construct req false w)))
    by now destruct (construct req false w).
  rewrite E. cbn [fst]. intros R. apply (driven_construct req).
  apply bind_world_of in R. destruct R as [R|(w1 & R & R')].
  - apply (driven_call fuel (Link n (snd (construct req false w))) _ w');
      [exact I|unfold link in R; now rewrite R|apply driven_stop].
  - apply (driven_call fuel (Link n (snd (construct req false w))) _ w1);
      [exact I|unfold link in R; now rewrite R|].
    now apply (He _ _ _ R').
Qed.

Lemma call_back_driven (enter_child : id -> nat -> world -> outcome)
  (fuel : nat) (n : id) (cb : callback) (w w' : world) :
  (forall c op u u', world_of (enter_child c op u) = Some u' -> driven u u') ->
  world_of (call_back contextOf enter_child fuel n cb w) = Some w' ->
  driven w w'.
Proof.
  intros He R. destruct cb as [v|e|h|op|op|r|]; cbn [call_back] in R.
  - apply (driven_call fuel (Resume n v) w w'); [exact I|exact R|apply driven_stop].
  - apply (driven_call fuel (Fail n e) w w'); [exact I|exact R|apply driven_stop].
  - apply (driven_ensure n h).
    destruct (ensure n h w); injection R as <-; apply driven_stop.
  - apply (add_child_with_driven enter_child false fuel n op); [|exact R].
    intros c u u'. apply He.
  - apply (add_child_with_driven enter_child true fuel n op); [|exact R].
    intros c u u'. apply He.
  - apply (driven_call fuel (Halt n r) w w'); [exact I|exact R|apply driven_stop].
  - injection R as <-. apply driven_stop.
Qed.

(** [enter], whether it returns or throws, is made of such steps. *)
Lemma enter_driven (fuel : nat) :
  forall n op w w',
    world_of (enter contextOf controllerOf fuel n op w) = Some w' -> driven w w'.
Proof.
  induction fuel as [|fuel IH]; intros n op w w' R; [discriminate|].
  cbn [enter] in R.
  destruct (isUnstarted (nodes w n)) eqn:U;
    [|injection R as <-; apply driven_stop].
  destruct (controllerOf op) as [handler|];
    [|injection R as <-; apply driven_stop].
  apply (driven_entered n op); [exact U|].
  revert R.
  apply (foreach_invariant _ (driven (set_state n running
                                        (upd_node n (with_operation (Some op)) w))));
    [|apply driven_stop].
  intros cb u u' _ Du Ru. apply (driven_trans _ _ _ Du).
  now apply (call_back_driven (enter contextOf controllerOf fuel) fuel n cb).
Qed.

(** And so are [spawn] and [fork]. *)
Lemma add_child_driven (req : bool) (fuel : nat) (n : id) (op : nat)
  (w w' : world) :
  world_of (fst (add_child contextOf controllerOf req fuel n op w)) = Some w' ->
  driven w w'.
Proof.
  unfold add_child. apply add_child_with_driven.
  intros c u u'. apply enter_driven.
Qed.

End Driven.

(** ** C10: the promises of a context *)

Lemma finalizePromise_blocking (n : id) (w : world) :
  isBlocking (nodes w n) = true -> finalizePromise n w = w.
Proof.
  unfold finalizePromise, isBlocking, isRunning, isWaiting, isUnstarted,
    isCompleted, isErrored, isHalted.
  destruct (state (nodes w n)) as [ | | |[ | | ]]; simpl; try discriminate;
    intros _; now destruct (resolve (nodes w n)), (reject (nodes w n)).
Qed.

Lemma finalizePromise_other (n : id) (p : pid) (w : world) :
  resolve (nodes w n) <> Some p -> reject (nodes w n) <> Some p ->
  promises (finalizePromise n w) p = promises w p.
Proof.
  intros H1 H2. unfold finalizePromise, settle.
  destruct (isCompleted (nodes w n)), (isErrored (nodes w n)),
    (isHalted (nodes w n)), (resolve (nodes w n)) as [q|],
    (reject (nodes w n)) as [q'|]; try reflexivity;
    repeat match goal with
           | |- context [match promises w ?x with _ => _ end] =>
               destruct (promises w x) eqn:?
           end; simpl; try reflexivity;
    match goal with
    | |- context [Nat.eqb p ?x] =>
        destruct (Nat.eqb_spec p x); [subst; congruence|reflexivity]
    end.
Qed.

(** A promise that was handed out, is pending, and whose callbacks no
    context stores. *)
Definition orphan (p : pid) (w : world) : Prop :=
  p < next_promise w
  /\ promises w p = Pending
  /\ forall m, resolve (nodes w m) <> Some p /\ reject (nodes w m) <> Some p.

Lemma orphan_kept (p : pid) (w w' : world) :
  orphan p w ->
  next_promise w' = next_promise w ->
  promises w' = promises w ->
  (forall m, (resolve (nodes w' m) = resolve (nodes w m)
              /\ reject (nodes w' m) = reject (nodes w m))
             \/ (resolve (nodes w' m) = None /\ reject (nodes w' m) = None)) ->
  orphan p w'.
Proof.
  intros (Hlt & Hp & Hn) En Ep Hm. repeat split.
  - now rewrite En.
  - now rewrite Ep.
  - destruct (Hm m) as [[-> _]|[-> _]]; [apply Hn|discriminate].
  - destruct (Hm m) as [[_ ->]|[_ ->]]; [apply Hn|discriminate].
Qed.

Lemma orphan_promise (p : pid) (n : id) (w : world) :
  orphan p w -> orphan p (fst (promise n w)).
Proof.
  intros (Hlt & Hp & Hn). unfold promise. cbn [fst].
  set (w1 := upd_node n (with_callbacks (Some (next_promise w))) _).
  assert (Hm : forall m, resolve (nodes w1 m) <> Some p /\ reject (nodes w1 m) <> Some p).
  { intros m. unfold w1. simpl. destruct (Nat.eqb m n); [|apply Hn].
    simpl. split; intros [= E]; lia. }
  repeat split.
  - rewrite finalizePromise_next_promise. unfold w1. simpl. lia.
  - rewrite finalizePromise_other; try apply Hm.
    unfold w1. simpl. destruct (Nat.eqb_spec p (next_promise w)); [lia|assumption].
  - rewrite finalizePromise_nodes. apply Hm.
  - rewrite finalizePromise_nodes. apply Hm.
Qed.

Lemma orphan_ensure (p : pid) (n : id) (h : hook) (w : world) :
  orphan p w -> orphan p (ensured_world (ensure n h w)).
Proof.
  intros O. apply (orphan_kept p w); [exact O| | |];
    unfold ensure; cbn [nodes];
    destruct (isBlocking (nodes w n)); try destruct (hook_throws h);
    try reflexivity; intros m; left; simpl;
    try destruct (Nat.eqb m n); now split.
Qed.

Lemma orphan_construct (p : pid) (req bl : bool) (w : world) :
  orphan p w -> orphan p (fst (construct req bl w)).
Proof.
  intros O. apply (orphan_kept p w); [exact O| | |]; try reflexivity.
  intros m. simpl. destruct (Nat.eqb m (ids w)); [right|left]; now split.
Qed.

Section Facade.

Variable contextOf : value -> option id.
Variable controllerOf : nat -> option (list callback).

Lemma orphan_call (p : pid) (fuel : nat) (c : call) (w w' : world) :
  orphan p w -> world_of (exec contextOf fuel c w) = Some w' -> orphan p w'.
Proof.
  intros (Hlt & Hp & Hn) R. apply exec_frame in R. repeat split.
  - now rewrite (fr_next_promise R).
  - rewrite (fr_promises R); [assumption|]. right. intros m [H|H]; now elim (Hn m).
  - rewrite (fr_resolve R). apply Hn.
  - rewrite (fr_reject R). apply Hn.
Qed.

Lemma driven_orphan (p : pid) (w w' : world) :
  orphan p w -> driven contextOf w w' -> orphan p w'.
Proof.
  intros O D. induction D as [w|fuel c w w1 w' _ R _ IH|n h w w' _ IH
                              |req w w' _ IH|n op w w' _ _ IH].
  - exact O.
  - apply IH. now apply (orphan_call p fuel c w).
  - apply IH. now apply orphan_ensure.
  - apply IH. now apply orphan_construct.
  - apply IH. apply (orphan_kept p w); [exact O| | |]; try reflexivity.
    intros m. left. simpl. destruct (Nat.eqb m n); now split.
Qed.

(** What the users of the tree, the handlers and the platform can do to a
    world: calls of the methods, which return or throw, accesses to a
    promise, the jobs of promises, [ensure] and the function it returns,
    constructions, [enter], [spawn] and [fork]. *)
Inductive step : world -> world -> Prop :=
| step_call (fuel : nat) (c : call) (w w' : world) :
    world_of (exec contextOf fuel c w) = Some w' -> step w w'
| step_promise (n : id) (w : world) : step w (fst (promise n w))
| step_then_job (p : pid) (w : world) : step w (then_job p w)
| step_reaction_job (p : pid) (w : world) : step w (reaction_job p w)
| step_ensure (n : id) (h : hook) (w : world) :
    step w (ensured_world (ensure n h w))
| step_unregister (u : unregister) (w : world) : step w (call_unregister u w)
| step_construct (req bl : bool) (w : world) : step w (fst (construct req bl w))
| step_enter (fuel : nat) (n : id) (op : nat) (w w' : world) :
    world_of (enter contextOf controllerOf fuel n op w) = Some w' -> step w w'
| step_add_child (req : bool) (fuel : nat) (n : id) (op : nat) (w w' : world) :
    world_of (fst (add_child contextOf controllerOf req fuel n op w)) = Some w' ->
    step w w'.

Inductive steps (w : world) : world -> Prop :=
| steps_none : steps w w
| steps_more (w1 w2 : world) : steps w w1 -> step w1 w2 -> steps w w2.

Lemma step_orphan (p : pid) (w w' : world) :
  orphan p w -> step w w' -> orphan p w'.
Proof.
  intros O St. pose proof O as (Hlt & Hp & Hn).
  destruct St as [fuel c w w' R|n w|q w|q w|n h w|u w|req bl w
                  |fuel n op w w' R|req fuel n op w w' R].
  - now apply (orphan_call p fuel c w).
  - now apply orphan_promise.
  - unfold then_job. destruct (promises w q) as [ |v|k|v|v] eqn:Eq; try exact O.
    destruct v as [ | | | | |c| | ]; try exact O.
    assert (Hqp : Nat.eqb p q = false).
    { apply Nat.eqb_neq. intros ->. congruence. }
    destruct (orphan_promise p c w O) as (H1 & H2 & H3).
    repeat split; cbn [next_promise promises nodes]; try assumption.
    + now rewrite Hqp.
    + apply H3.
    + apply H3.
  - unfold reaction_job. destruct (promises w q) as [ |v|k|v|v] eqn:Eq; try exact O.
    destruct (settled (promises w k)); [|exact O].
    assert (Hqp : Nat.eqb p q = false).
    { apply Nat.eqb_neq. intros ->. congruence. }
    repeat split; cbn [next_promise promises nodes]; try assumption.
    + now rewrite Hqp.
    + apply Hn.
    + apply Hn.
  - now apply orphan_ensure.
  - apply (orphan_kept p w); [exact O| | |];
      destruct u as [n run|]; try reflexivity; intros m; left; simpl;
      try destruct (Nat.eqb m n); now split.
  - now apply orphan_construct.
  - apply (driven_orphan p w); [exact O|].
    now apply (enter_driven contextOf controllerOf fuel n op).
  - apply (driven_orphan p w); [exact O|].
    now apply (add_child_driven contextOf controllerOf req fuel n op).
Qed.

Lemma steps_orphan (p : pid) (w w' : world) :
  orphan p w -> steps w w' -> orphan p w'.
Proof.
  intros O St. induction St as [|w1 w2 _ IH S1]; [assumption|].
  now apply (step_orphan p w1).
Qed.

(** C10, as amended.  Two accesses to the promise of a context that is not
    settled hand out two promises, both pending, and leave the callbacks of
    the second one stored.  Whatever is done to the world afterwards, the
    first promise stays pending.  When the context finalizes and the
    finalize returns, it is the callback of the second promise that is
    called, as the state of the context demands: the second promise is
    settled, unless the context has completed with a context as its result,
    in which case the promise is resolved with that context and is not
    settled. *)
Theorem stale_promise_never_settles (n : id) (w : world) :
  isBlocking (nodes w n) = true ->
  (forall m p, resolve (nodes w m) = Some p \/ reject (nodes w m) = Some p ->
               p < next_promise w) ->
  let w1 := fst (promise n w) in
  let p1 := snd (promise n w) in
  let w2 := fst (promise n w1) in
  let p2 := snd (promise n w1) in
  p1 <> p2
  /\ promises w2 p1 = Pending
  /\ promises w2 p2 = Pending
  /\ resolve (nodes w2 n) = Some p2
  /\ reject (nodes w2 n) = Some p2
  /\ (forall w3, steps w2 w3 -> promises w3 p1 = Pending)
  /\ (forall fuel s r w3,
        finalize contextOf fuel n s r w2 = Done w3 ->
        promises w3 p2 = settlement (nodes w3 n)
        /\ (thenable (result (nodes w3 n)) = false \/ s <> completed ->
            settled (promises w3 p2) = true)
        /\ (s = completed -> thenable (result (nodes w3 n)) = true ->
            promises w3 p2 = Following (result (nodes w3 n)))
        /\ promises w3 p1 = Pending).
Proof.
  intros B Hall. unfold promise. cbn [fst snd].
  set (p1 := next_promise w).
  set (u1 := upd_node n (with_callbacks (Some p1)) _).
  assert (B1 : isBlocking (nodes u1 n) = true)
    by (unfold u1; simpl; now rewrite Nat.eqb_refl).
  rewrite (finalizePromise_blocking n u1 B1).
  set (u2 := upd_node n (with_callbacks (Some (next_promise u1))) _).
  assert (B2 : isBlocking (nodes u2 n) = true)
    by (unfold u2; simpl; now rewrite Nat.eqb_refl).
  rewrite (finalizePromise_blocking n u2 B2).
  assert (E2 : next_promise u1 = S p1) by reflexivity. rewrite E2 in *.
  assert (O1 : orphan p1 u2).
  { repeat split.
    - unfold u2. simpl. lia.
    - unfold u2, u1. simpl. rewrite Nat.eqb_refl.
      destruct (Nat.eqb_spec p1 (S p1)); [lia|reflexivity].
    - unfold u2, u1. simpl. destruct (Nat.eqb_spec m n) as [->|].
      + simpl. intros [= E]. lia.
      + intros E. specialize (Hall m p1 (or_introl E)). unfold p1 in Hall. lia.
    - unfold u2, u1. simpl. destruct (Nat.eqb_spec m n) as [->|].
      + simpl. intros [= E]. lia.
      + intros E. specialize (Hall m p1 (or_intror E)). unfold p1 in Hall. lia. }
  assert (P2 : promises u2 (S p1) = Pending)
    by (unfold u2; simpl; now rewrite Nat.eqb_refl).
  assert (R2 : resolve (nodes u2 n) = Some (S p1) /\ reject (nodes u2 n) = Some (S p1))
    by (unfold u2; simpl; now rewrite Nat.eqb_refl).
  assert (U2 : forall k, resolve (nodes u2 k) = Some (S p1)
                         \/ reject (nodes u2 k) = Some (S p1) -> k = n).
  { intros k. unfold u2, u1. simpl. destruct (Nat.eqb_spec k n); [auto|].
    intros H. specialize (Hall k (S p1) H). unfold p1 in Hall. lia. }
  split; [lia|]. split; [apply O1|]. split; [exact P2|].
  split; [apply R2|]. split; [apply R2|]. split.
  - intros w3 St. now apply (steps_orphan p1 u2 w3 O1).
  - intros fuel s r w3 R.
    pose proof (finalize_settles_stored contextOf fuel n s r (S p1) u2 w3 B2
                  (proj1 R2) (proj2 R2) P2 U2 R) as Hset.
    destruct (finalize_outcome contextOf fuel n s r u2 w3 B2
                ltac:(unfold finalize in R; now rewrite R)) as [Hst _].
    split; [exact Hset|]. split; [|split].
    + intros H. rewrite Hset. unfold settlement. rewrite Hst.
      destruct s; try reflexivity. simpl.
      destruct H as [H|H]; [now rewrite H|now elim H].
    + intros -> Ht. rewrite Hset. unfold settlement. rewrite Hst. simpl.
      now rewrite Ht.
    + apply (steps_orphan p1 u2 w3 O1).
      apply (steps_more u2 u2 w3 (steps_none u2)).
      apply (step_call fuel (Finalize n s r)). unfold finalize in R. now rewrite R.
Qed.

End Facade.

Lemma stale_promise_never_settles_witness :
  snd (promise 1 root_world) <> snd (promise 1 (fst (promise 1 root_world))).
Proof.
  assert (B : isBlocking (nodes root_world 1) = true) by (vm_compute; reflexivity).
  assert (H : forall m p, resolve (nodes root_world m) = Some p
                          \/ reject (nodes root_world m) = Some p ->
                          p < next_promise root_world).
  { intros [|[|m]] p; vm_compute; intros [E|E]; discriminate. }
  exact (proj1 (stale_promise_never_settles contextOf_value any_controller 1
                  root_world B H)).
Defined.

(** C10, as stated, fails: the root is asked twice for its promise and then
    completes with its spawned child as the result.  The root has settled;
    its second promise was resolved with the child, and is not settled. *)
Lemma latest_promise_of_hand_off_counterexample :
  let w2 := fst (promise 1 (fst (promise 1 (family false)))) in
  let p2 := snd (promise 1 (fst (promise 1 (family false)))) in
  let w3 := world_after (resume contextOf_value 5 1 (VContext 2) w2) in
  returned (resume contextOf_value 5 1 (VContext 2) w2) = true
  /\ state (nodes w3 1) = completed
  /\ resolve (nodes w3 1) = Some p2
  /\ promises w3 p2 = Following (VContext 2)
  /\ settled (promises w3 p2) = false.
Proof. vm_compute. repeat split. Qed.

(** A [finalize] that throws calls no callback.  The forked child is asked
    twice for its promise and then resumes with its parent as the value:
    [trapExit] on the parent links the parent to itself and throws.  The
    child has completed, and both its promises are pending. *)
Example throwing_finalize_calls_no_callback :
  let w2 := fst (promise 2 (fst (promise 2 (family true)))) in
  let p1 := snd (promise 2 (family true)) in
  let p2 := snd (promise 2 (fst (promise 2 (family true)))) in
  let o := resume contextOf_value 5 2 (VContext 1) w2 in
  returned o = false /\ fuelled o = true
  /\ state (nodes (world_after o) 2) = completed
  /\ resolve (nodes (world_after o) 2) = Some p2
  /\ promises (world_after o) p2 = Pending
  /\ promises (world_after o) p1 = Pending.
Proof. vm_compute. repeat split. Qed.

(** The root is asked twice for its promise and is then halted: the
    second promise is rejected with a [HaltError], the first one is
    pending. *)
Example second_promise_settles :
  let w2 := fst (promise 1 (fst (promise 1 root_world))) in
  let w3 := world_after (halt contextOf_value 5 1 (VStr "shutdown") w2) in
  promises w3 1 = Rejected (HaltError (VStr "shutdown"))
  /\ promises w3 0 = Pending.
Proof. vm_compute. split; reflexivity. Qed.

(** * The scenarios of the specification, run *)

(** The root settles its own operation with 42 and has no required child:
    it completes with 42. *)
Example scenario_resume :
  let w' := world_after (resume contextOf_value 5 1 (VNum 42) root_world) in
  state (nodes w' 1) = completed /\ result (nodes w' 1) = VNum 42.
Proof. vm_compute. split; reflexivity. Qed.

(** The root forks two children; the first fails with E: the root is
    errored with E and the second child is halted with E. *)
Example scenario_fork_fail :
  let w := world_after
             (fst (add_child contextOf_value any_controller true 5 1 8 (family true))) in
  let w' := world_after (fail contextOf_value 8 2 (VStr "E") w) in
  children (nodes w 1) = [2; 3]
  /\ state (nodes w' 1) = errored /\ result (nodes w' 1) = VStr "E"
  /\ state (nodes w' 3) = halted /\ result (nodes w' 3) = VStr "E"
  /\ child_halts 1 (delta w w') = [(3, VStr "E")].
Proof. vm_compute. repeat split. Qed.

(** Linking the root to itself throws. *)
Example scenario_self_link :
  throws (link contextOf_value 5 1 1 root_world) = true.
Proof. vm_compute. reflexivity. Qed.

(** Entering a context twice throws. *)
Example scenario_enter_twice :
  throws (enter contextOf_value any_controller 5 1 0 root_world) = true.
Proof. vm_compute. reflexivity. Qed.

(** A root that blocks on the context it returns is resumed with a running
    context 2 that has no parent: it adopts it and waits; when 2 completes,
    the root completes. *)
Example scenario_returned_context :
  let w0 := fst (construct false true empty_world) in
  let w1 := world_after (enter contextOf_value any_controller 5 1 0 w0) in
  let w2 := world_after (enter contextOf_value any_controller 5 2 0
                           (fst (construct false false w1))) in
  let w3 := world_after (resume contextOf_value 5 1 (VContext 2) w2) in
  let w4 := world_after (resume contextOf_value 8 2 (VNum 7) w3) in
  state (nodes w3 1) = waiting /\ children (nodes w3 1) = [2]
  /\ parent (nodes w3 2) = Some 1
  /\ state (nodes w4 2) = completed /\ result (nodes w4 2) = VNum 7
  /\ state (nodes w4 1) = completed /\ result (nodes w4 1) = VContext 2.
Proof. vm_compute. repeat split. Qed.

(** A context that fails with an error that embeds a required child of the
    root, and a root that is resumed with that context: [resume] links the
    errored context, [trapExit] fails the root, the child is spared, and
    [resume] goes on to put the errored root in the waiting state. *)
Example resume_after_failure_waits :
  let w0 := fst (construct false false (family true)) in
  let w1 := world_after (fail contextOf_value 5 3 (VContext 2) w0) in
  let w2 := world_after (resume contextOf_value 8 1 (VContext 3) w1) in
  state (nodes w1 3) = errored
  /\ skipn 3 (trace w2) = [EvTrapExit 1 3; EvState 1 errored; EvState 1 waiting]
  /\ state (nodes w2 1) = waiting.
Proof. vm_compute. repeat split. Qed.

(** * More of the tree: link *)

Lemma set_add_absent (c : id) (l : list id) :
  ~ In c l -> set_add c l = l ++ [c].
Proof.
  intros H. unfold set_add. destruct (existsb (Nat.eqb c) l) eqn:E; [|reflexivity].
  apply existsb_exists in E. destruct E as (x & Hx & Ex).
  apply Nat.eqb_eq in Ex. now subst.
Qed.

Lemma set_delete_absent (c : id) (l : list id) : ~ In c (set_delete c l).
Proof.
  unfold set_delete. intros H. apply filter_In in H. destruct H as [_ H].
  now rewrite Nat.eqb_refl in H.
Qed.

Lemma set_add_present (c : id) (l : list id) : In c (set_add c l).
Proof.
  unfold set_add. destruct (existsb (Nat.eqb c) l) eqn:E.
  - apply existsb_exists in E. destruct E as (x & Hx & Ex).
    apply Nat.eqb_eq in Ex. now subst.
  - apply in_or_app. right. now left.
Qed.

(** X1.  Linking a context that is not settled under another one that is not
    settled needs no further call: the child gets the new parent, leaves
    the children of the parent it had, and is among the children of the new
    one; a child that is linked again under its own parent moves to the end
    of the children.  No state changes and nothing is logged. *)
Theorem link_attaches (contextOf : value -> option id) (fuel : nat)
  (n child : id) (w : world) :
  n <> child ->
  isBlocking (nodes w n) = true ->
  isBlocking (nodes w child) = true ->
  exists w',
    link contextOf (S fuel) n child w = Done w'
    /\ parent (nodes w' child) = Some n
    /\ In child (children (nodes w' n))
    /\ (parent (nodes w child) = Some n ->
        children (nodes w' n) = set_delete child (children (nodes w n)) ++ [child])
    /\ (forall q, parent (nodes w child) = Some q -> q <> n ->
                  children (nodes w' q) = set_delete child (children (nodes w q)))
    /\ (forall m, state (nodes w' m) = state (nodes w m)
                  /\ result (nodes w' m) = result (nodes w m))
    /\ trace w' = trace w.
Proof.
  intros Hne Bn Bc. unfold link. cbn [exec dispatch]. unfold do_link.
  destruct (Nat.eqb_spec n child) as [|_]; [contradiction|].
  rewrite Bn. cbn [negb bind].
  assert (Bd : isBlocking (nodes (detach child w) child) = true).
  { unfold detach. destruct (parent (nodes w child)) as [q|]; [|exact Bc].
    unfold unlink. simpl. rewrite Nat.eqb_refl.
    destruct (Nat.eqb child q); exact Bc. }
  rewrite Bd. eexists. split; [reflexivity|].
  assert (Nc : Nat.eqb child n = false) by (apply Nat.eqb_neq; congruence).
  split; [|split; [|split; [|split; [|split]]]].
  - unfold attach. simpl. rewrite Nc, Nat.eqb_refl. reflexivity.
  - unfold attach. simpl. rewrite Nat.eqb_refl. simpl. apply set_add_present.
  - intros Hp. unfold attach, detach. rewrite Hp. unfold unlink. simpl.
    rewrite !Nat.eqb_refl. simpl. apply Nat.eqb_neq in Hne. rewrite Hne. simpl.
    apply set_add_absent, set_delete_absent.
  - intros q Hp Hq. unfold attach, detach. rewrite Hp. unfold unlink. simpl.
    rewrite Nat.eqb_refl. destruct (Nat.eqb_spec q n) as [|_]; [contradiction|].
    destruct (Nat.eqb q child); reflexivity.
  - intros m. unfold attach, detach.
    destruct (parent (nodes w child)) as [q|]; unfold unlink; simpl;
      destruct (Nat.eqb m n), (Nat.eqb m child); try destruct (Nat.eqb m q);
      simpl; split; reflexivity.
  - unfold attach, detach. now destruct (parent (nodes w child)).
Qed.

Lemma link_attaches_witness :
  exists w',
    link contextOf_value 1 1 2 (family true) = Done w'
    /\ parent (nodes w' 2) = Some 1.
Proof.
  assert (Hne : 1 <> 2) by discriminate.
  assert (Bn : isBlocking (nodes (family true) 1) = true) by (vm_compute; reflexivity).
  assert (Bc : isBlocking (nodes (family true) 2) = true) by (vm_compute; reflexivity).
  destruct (link_attaches contextOf_value 0 1 2 (family true) Hne Bn Bc)
    as (w' & R & Hp & _).
  exists w'. now split.
Defined.

Section LinkSettled.

Variable contextOf : value -> option id.

(** [halt] leaves a context that was not settled halted, with the reason as
    its result if the reason is truthy, whether it returns or throws. *)
Lemma halt_outcome (fuel : nat) (n : id) (r : value) (w w' : world) :
  isBlocking (nodes w n) = true ->
  world_of (halt contextOf fuel n r w) = Some w' ->
  state (nodes w' n) = halted /\ result (nodes w' n) = js_or r (result (nodes w n)).
Proof.
  intros B R. destruct fuel as [|fuel]; [discriminate|].
  unfold halt in R. cbn [exec dispatch] in R. unfold do_halt in R. rewrite B in R.
  now apply (finalize_outcome contextOf fuel n halted r w w' B).
Qed.

(** Once [trapExit] of a settled context has returned, the child it was
    called with is none of its children. *)
Lemma trapExit_settled_unlinks (fuel : nat) (n child : id) (w w' : world) :
  isBlocking (nodes w n) = false -> n <> child ->
  trapExit contextOf fuel n child w = Done w' ->
  ~ In child (children (nodes w' n)).
Proof.
  intros B Hne R. destruct fuel as [|fuel]; [discriminate|].
  unfold trapExit in R. cbn [exec dispatch] in R. unfold do_trapExit in R.
  set (w1 := unlink n child (log (EvTrapExit n child) w)) in *.
  assert (B1 : isBlocking (nodes w1 n) = false).
  { unfold w1, unlink. simpl. rewrite Nat.eqb_refl.
    destruct (Nat.eqb n child); exact B. }
  assert (C1 : ~ In child (children (nodes w1 n))).
  { unfold w1, unlink. simpl. rewrite Nat.eqb_refl. simpl.
    apply set_delete_absent. }
  apply bind_done in R. destruct R as (w2 & R2 & R).
  assert (F2 : frame w1 w2).
  { apply (adopt_frame contextOf (exec contextOf fuel) (exec_framed contextOf fuel)
             n child). now rewrite R2. }
  assert (F : frame w2 w').
  { destruct (isErrored (nodes w2 child)).
    - apply (exec_frame contextOf fuel _ _ _ ltac:(now rewrite R)).
    - destruct (_ && _).
      + apply (exec_frame contextOf fuel _ _ _ ltac:(now rewrite R)).
      + injection R as <-. apply frame_refl. }
  destruct (fr_children (frame_trans _ _ _ F2 F) n B1) as [g Hg].
  rewrite Hg. intros Hin. apply filter_In in Hin. now destruct Hin.
Qed.

(** X2.  A context cannot be attached under a settled one.  In a world in
    good order, [link] of a child of lower rank than the context, another
    context then, under a settled context returns; the child is settled
    then, halted if it was not settled before, and it is none of the
    children of the settled context, whose state is as it was. *)
Theorem link_under_settled_halts (rank : id -> nat) (bound : nat)
  (n child : id) (w : world) :
  sound contextOf rank bound w ->
  rank child < rank n ->
  isBlocking (nodes w n) = false ->
  (exists fuel w', link contextOf fuel n child w = Done w')
  /\ forall fuel w', link contextOf fuel n child w = Done w' ->
       isBlocking (nodes w' child) = false
       /\ (isBlocking (nodes w child) = true -> state (nodes w' child) = halted)
       /\ ~ In child (children (nodes w' n))
       /\ state (nodes w' n) = state (nodes w n).
Proof.
  intros Hs Hr B. split.
  { apply (call_returns contextOf rank bound (Link n child) w Hs I Hr). }
  intros fuel w' R.
  assert (Hne : n <> child) by (intros ->; lia).
  assert (F : frame w w')
    by (apply (exec_frame contextOf fuel (Link n child)); unfold link in R;
        now rewrite R).
  destruct fuel as [|fuel]; [discriminate|].
  unfold link in R. cbn [exec dispatch] in R. unfold do_link in R.
  destruct (Nat.eqb_spec n child) as [|_]; [contradiction|].
  rewrite B in R. cbn [negb] in R.
  apply bind_done in R. destruct R as (w1 & R1 & R).
  destruct (exec_framed contextOf fuel (Halt child VUndefined) w w1
              ltac:(now rewrite R1)) as [F1 S1].
  specialize (S1 child eq_refl).
  pose proof (frame_detach child w1) as F12.
  pose proof (frame_blocking F12 child S1) as S2.
  rewrite S2 in R.
  pose proof (exec_frame contextOf fuel (TrapExit n child) _ w'
                ltac:(now rewrite R)) as F2.
  assert (H1 : isBlocking (nodes w child) = true -> state (nodes w1 child) = halted).
  { intros Bc. apply (halt_outcome fuel child VUndefined w w1 Bc).
    unfold halt. now rewrite R1. }
  repeat split.
  - apply (frame_blocking F2), S2.
  - intros Bc. rewrite (fr_state F2 child S2), (fr_state F12 child S1). auto.
  - apply (trapExit_settled_unlinks fuel n child (detach child w1) w'); auto.
    apply (frame_blocking F12), (frame_blocking F1), B.
  - now apply (fr_state F).
Qed.

End LinkSettled.

Lemma link_under_settled_halts_witness :
  exists fuel w', link contextOf_value fuel 1 2 handed_off = Done w'.
Proof.
  assert (Hs : sound contextOf_value depth_rank 3 handed_off).
  { repeat split.
    - intros [|[|[|?]]]; vm_compute; intros; (lia || discriminate).
    - intros [|[|[|?]]] ?; vm_compute; intros Hc Hk; try discriminate;
        injection Hk as <-; lia.
    - intros [|[|[|?]]] ?; vm_compute; intros H; try discriminate;
        injection H as <-; lia. }
  assert (Hr : depth_rank 2 < depth_rank 1) by (vm_compute; lia).
  assert (B : isBlocking (nodes handed_off 1) = false) by (vm_compute; reflexivity).
  exact (proj1 (link_under_settled_halts contextOf_value depth_rank 3 1 2
                  handed_off Hs Hr B)).
Defined.

(** * More of the tree: enter, spawn and fork *)

(** A context that is in use and is not unstarted. *)
Definition started (n : id) (w : world) : Prop :=
  isUnstarted (nodes w n) = false /\ n < ids w.

Definition after (P : world -> Prop) (o : outcome) : Prop :=
  match o with
  | Done w | Threw w => P w
  | OutOfFuel => True
  end.

Lemma after_bind (P : world -> Prop) (o : outcome) (k : world -> outcome) :
  after P o -> (forall w, P w -> after P (k w)) -> after P (bind o k).
Proof. destruct o; simpl; auto. Qed.

Lemma after_foreach {A : Type} (P : world -> Prop) (body : A -> world -> outcome)
  (l : list A) :
  (forall x w, P w -> after P (body x w)) ->
  forall w, P w -> after P (foreach body l w).
Proof.
  intros Hb. induction l as [|x l IH]; intros w Pw; simpl; [assumption|].
  apply after_bind; auto.
Qed.

Lemma after_world_of (P : world -> Prop) (o : outcome) :
  (forall w, world_of o = Some w -> P w) <-> after P o.
Proof.
  destruct o as [w|w|]; simpl; split; intros H.
  - now apply H.
  - now intros u [= <-].
  - now apply H.
  - now intros u [= <-].
  - exact I.
  - discriminate.
Qed.

Section Started.

Variable n : id.

(** No assignment of a method makes a context unstarted. *)
Definition never_unstarted (w : world) : Prop := isUnstarted (nodes w n) = false.

Lemma never_unstarted_shape (w w' : world) :
  (isUnstarted (nodes w' n) = true -> isUnstarted (nodes w n) = true) ->
  never_unstarted w -> never_unstarted w'.
Proof.
  unfold never_unstarted. intros H Hw.
  destruct (isUnstarted (nodes w' n)); [|reflexivity].
  rewrite H in Hw by reflexivity. discriminate.
Qed.

Lemma never_unstarted_nodes (w w' : world) :
  nodes w' = nodes w -> never_unstarted w -> never_unstarted w'.
Proof. unfold never_unstarted. now intros ->. Qed.

Lemma never_unstarted_upd (m : id) (f : node -> node) (w : world) :
  (forall x, isUnstarted (f x) = true -> isUnstarted x = true) ->
  never_unstarted w -> never_unstarted (upd_node m f w).
Proof.
  intros Hf. apply never_unstarted_shape. simpl.
  destruct (Nat.eqb n m); [apply Hf|auto].
Qed.

Lemma never_unstarted_settle_node (m : id) (s : Final) (r : value) (w : world) :
  never_unstarted w -> never_unstarted (settle_node m s r w).
Proof.
  apply never_unstarted_shape. unfold settle_node. simpl.
  destruct (Nat.eqb n m); [discriminate|auto].
Qed.

Lemma never_unstarted_unlink (p c : id) (w : world) :
  never_unstarted w -> never_unstarted (unlink p c w).
Proof.
  intros H. unfold unlink. apply never_unstarted_upd; [auto|].
  now apply never_unstarted_upd.
Qed.

Lemma never_unstarted_detach (c : id) (w : world) :
  never_unstarted w -> never_unstarted (detach c w).
Proof.
  unfold detach. destruct (parent (nodes w c)); [apply never_unstarted_unlink|auto].
Qed.

Lemma never_unstarted_attach (p c : id) (w : world) :
  never_unstarted w -> never_unstarted (attach p c w).
Proof.
  intros H. unfold attach. apply never_unstarted_upd; [auto|].
  now apply never_unstarted_upd.
Qed.

Section StartedStep.

Variable contextOf : value -> option id.
Variable self : call -> world -> outcome.

Hypothesis self_never :
  forall c w, never_unstarted w -> after never_unstarted (self c w).

Lemma dispatch_never_unstarted (c : call) (w : world) :
  never_unstarted w -> after never_unstarted (dispatch contextOf self c w).
Proof.
  destruct c as [m reason|m v|m error|m s r|m child|m child]; simpl; intros L.
  - unfold do_halt. destruct (isBlocking (nodes w m)); [|assumption].
    now apply self_never.
  - unfold do_resume. destruct (isBlocking (nodes w m)); [|assumption].
    apply after_bind.
    + unfold resume_link. destruct (isRunning (nodes w m)); [|assumption].
      assert (L0 : never_unstarted (upd_node m (with_result v) w))
        by now apply never_unstarted_upd.
      destruct (contextOf v) as [k|]; [|assumption].
      now apply self_never.
    + intros w1 L1. destruct (must_wait m v w1).
      * simpl. apply (never_unstarted_nodes (upd_node m (with_state waiting) w1));
          [reflexivity|].
        apply never_unstarted_upd; [discriminate|assumption].
      * now apply self_never.
  - unfold do_fail. destruct (isBlocking (nodes w m)); [|assumption].
    now apply self_never.
  - unfold do_finalize. destruct (isBlocking (nodes w m)); [|assumption].
    apply after_bind.
    + apply after_foreach; [|now apply never_unstarted_settle_node].
      intros child u Lu. unfold halt_child. destruct (_ || _); [|assumption].
      apply self_never. now apply (never_unstarted_nodes u).
    + intros w3 L3. apply after_bind.
      * assert (L4 : never_unstarted (run_hooks m (rev (exitHooks (nodes w3 m))) w3))
          by (apply (never_unstarted_nodes w3); [apply run_hooks_nodes|assumption]).
        unfold notify_parent. destruct (parent _); [|assumption].
        now apply self_never.
      * intros w5 L5. simpl.
        apply (never_unstarted_nodes w5); [apply finalizePromise_nodes|assumption].
  - unfold do_trapExit. apply after_bind.
    + assert (L1 : never_unstarted (unlink m child (log (EvTrapExit m child) w))).
      { apply never_unstarted_unlink. now apply (never_unstarted_nodes w). }
      unfold adopt. destruct (isCompleted _); [|assumption].
      destruct (contextOf _); [|assumption]. now apply self_never.
    + intros w2 L2. destruct (isErrored _); [now apply self_never|].
      destruct (_ && _); [|assumption]. now apply self_never.
  - unfold do_link. destruct (Nat.eqb m child); [assumption|].
    apply after_bind.
    + destruct (negb _); [|assumption]. now apply self_never.
    + intros w1 L1. pose proof (never_unstarted_detach child w1 L1) as L2.
      destruct (isBlocking _).
      * simpl. now apply never_unstarted_attach.
      * now apply self_never.
Qed.

End StartedStep.

Lemma exec_never_unstarted (contextOf : value -> option id) (fuel : nat) :
  forall c w, never_unstarted w -> after never_unstarted (exec contextOf fuel c w).
Proof.
  induction fuel as [|fuel IH]; intros c w L; [exact I|].
  now apply (dispatch_never_unstarted contextOf (exec contextOf fuel) IH).
Qed.

End Started.

Lemma finalizePromise_ids (n : id) (w : world) :
  ids (finalizePromise n w) = ids w.
Proof.
  unfold finalizePromise, settle.
  destruct (isCompleted (nodes w n)), (isErrored (nodes w n)),
    (isHalted (nodes w n)), (resolve (nodes w n)), (reject (nodes w n));
    try reflexivity;
    repeat match goal with
           | |- context [match promises w ?x with _ => _ end] =>
               destruct (promises w x)
           end; reflexivity.
Qed.

Lemma started_shape (n : id) (w w' : world) :
  state (nodes w' n) = state (nodes w n) -> ids w <= ids w' ->
  started n w -> started n w'.
Proof.
  unfold started, isUnstarted. intros -> Hi [H Hn]. split; [assumption|lia].
Qed.

Lemma started_promise (n m : id) (w : world) :
  started n w -> started n (fst (promise m w)).
Proof.
  apply started_shape; unfold promise; cbn [fst].
  - rewrite finalizePromise_nodes. simpl. now destruct (Nat.eqb n m).
  - now rewrite finalizePromise_ids.
Qed.

Section Enter.

Variable contextOf : value -> option id.
Variable controllerOf : nat -> option (list callback).

Lemma started_call (n : id) (fuel : nat) (c : call) (w w' : world) :
  started n w -> world_of (exec contextOf fuel c w) = Some w' -> started n w'.
Proof.
  intros [H Hn] R. split.
  - pose proof (exec_never_unstarted n contextOf fuel c w H) as A.
    now apply (after_world_of (never_unstarted n)) in R.
  - apply exec_frame in R. now rewrite (fr_ids R).
Qed.

Lemma driven_started (n : id) (w w' : world) :
  started n w -> driven contextOf w w' -> started n w'.
Proof.
  intros S D. induction D as [w|fuel c w w1 w' _ R _ IH|m h w w' _ IH
                              |req w w' _ IH|m op w w' _ _ IH].
  - exact S.
  - apply IH. now apply (started_call n fuel c w).
  - apply IH. revert S. apply started_shape; unfold ensure; cbn [nodes];
      destruct (isBlocking (nodes w m)); try destruct (hook_throws h);
      simpl; try destruct (Nat.eqb n m); auto.
  - apply IH. destruct S as [H Hn]. split.
    + unfold isUnstarted in *. simpl.
      destruct (Nat.eqb_spec n (ids w)); [lia|assumption].
    + simpl. lia.
  - apply IH. destruct S as [H Hn]. split; [|exact Hn].
    unfold isUnstarted in *. simpl. destruct (Nat.eqb n m); [reflexivity|assumption].
Qed.

Lemma step_started (n : id) (w w' : world) :
  started n w -> step contextOf controllerOf w w' -> started n w'.
Proof.
  intros S St.
  destruct St as [fuel c w w' R|m w|q w|q w|m h w|u w|req bl w
                  |fuel m op w w' R|req fuel m op w w' R].
  - now apply (started_call n fuel c w).
  - now apply started_promise.
  - unfold then_job. destruct (promises w q) as [ |v|k|v|v]; try exact S.
    destruct v as [ | | | | |c| | ]; try exact S.
    apply (started_promise n c w) in S. exact S.
  - unfold reaction_job. destruct (promises w q) as [ |v|k|v|v]; try exact S.
    now destruct (settled (promises w k)).
  - revert S. apply started_shape; unfold ensure; cbn [nodes];
      destruct (isBlocking (nodes w m)); try destruct (hook_throws h);
      simpl; try destruct (Nat.eqb n m); auto.
  - revert S. apply started_shape; destruct u as [m run|]; simpl;
      try destruct (Nat.eqb n m); auto.
  - destruct S as [H Hn]. split.
    + unfold isUnstarted in *. simpl.
      destruct (Nat.eqb_spec n (ids w)); [lia|assumption].
    + simpl. lia.
  - apply (driven_started n w); [exact S|].
    now apply (enter_driven contextOf controllerOf fuel m op).
  - apply (driven_started n w); [exact S|].
    now apply (add_child_driven contextOf controllerOf req fuel m op).
Qed.

Lemma steps_started (n : id) (w w' : world) :
  started n w -> steps contextOf controllerOf w w' -> started n w'.
Proof.
  intros S St. induction St as [|w1 w2 _ IH S1]; [assumption|].
  now apply (step_started n w1).
Qed.

(** What [enter] leaves of a context in use, when the operation has a
    handler: the context is not unstarted. *)
Lemma enter_started (fuel : nat) (n : id) (op : nat) (w w' : world) :
  n < ids w -> controllerOf op <> None ->
  world_of (enter contextOf controllerOf fuel n op w) = Some w' ->
  started n w'.
Proof.
  intros Hn Hc R. destruct (isUnstarted (nodes w n)) eqn:U.
  - destruct fuel as [|fuel]; [discriminate|]. cbn [enter] in R. rewrite U in R.
    destruct (controllerOf op) as [handler|] eqn:C; [|now elim Hc].
    set (w1 := set_state n running (upd_node n (with_operation (Some op)) w)) in *.
    assert (S1 : started n w1).
    { split; [|exact Hn]. unfold w1, isUnstarted. simpl. now rewrite Nat.eqb_refl. }
    revert R. apply (foreach_invariant _ (started n)); [|exact S1].
    intros cb u u' _ Su Ru. apply (driven_started n u); [exact Su|].
    apply (call_back_driven contextOf (enter contextOf controllerOf fuel) fuel n cb);
      [|exact Ru].
    intros c o x x'. apply enter_driven.
  - apply (driven_started n w); [now split|].
    now apply (enter_driven contextOf controllerOf fuel n op).
Qed.

(** X3.  A context is entered at most once.  [enter] on a context that is
    not unstarted throws and changes nothing, and so it does with an
    operation that has no handler.  On an unstarted context, with an
    operation that has a handler, it stores the operation, makes the
    context running and calls the handler: what [enter] returns or throws
    is what the calls of the handler return or throw from there.  After an
    [enter] of a context whose id is in use, with an operation that has a
    handler, whatever has come of it and whatever is done to the world
    later, every [enter] on the context throws and changes nothing. *)
Theorem enter_at_most_once (n : id) (w : world) :
  (forall fuel op, isUnstarted (nodes w n) = false ->
                   enter contextOf controllerOf (S fuel) n op w = Threw w)
  /\ (forall fuel op, controllerOf op = None ->
                      enter contextOf controllerOf (S fuel) n op w = Threw w)
  /\ (forall fuel op handler,
        isUnstarted (nodes w n) = true -> controllerOf op = Some handler ->
        let w1 := set_state n running (upd_node n (with_operation (Some op)) w) in
        state (nodes w1 n) = running
        /\ operation (nodes w1 n) = Some op
        /\ (forall m, m <> n -> nodes w1 m = nodes w m)
        /\ enter contextOf controllerOf (S fuel) n op w
           = foreach (call_back contextOf (enter contextOf controllerOf fuel) fuel n)
                     handler w1)
  /\ (forall fuel op w1,
        n < ids w -> controllerOf op <> None ->
        world_of (enter contextOf controllerOf fuel n op w) = Some w1 ->
        forall w2, steps contextOf controllerOf w1 w2 ->
        forall fuel' op', enter contextOf controllerOf (S fuel') n op' w2 = Threw w2).
Proof.
  split; [|split; [|split]].
  - intros fuel op U. cbn [enter]. now rewrite U.
  - intros fuel op C. cbn [enter]. rewrite C.
    now destruct (isUnstarted (nodes w n)).
  - intros fuel op handler U C w1. split; [|split; [|split]].
    + unfold w1. simpl. now rewrite Nat.eqb_refl.
    + unfold w1. simpl. now rewrite Nat.eqb_refl.
    + intros m Hm. apply Nat.eqb_neq in Hm. unfold w1. simpl. now rewrite Hm.
    + cbn [enter]. now rewrite U, C.
  - intros fuel op w1 Hn Hc R w2 St fuel' op'.
    pose proof (enter_started fuel n op w w1 Hn Hc R) as S1.
    destruct (steps_started n w1 w2 S1 St) as [U _].
    cbn [enter]. now rewrite U.
Qed.

(** The handler of operation 1 resumes at once: [enter] returns with the
    context completed.  The handler of operation 3 throws: [enter] throws,
    and the context is left running.  Neither can be entered again. *)
Example enter_runs_the_handler :
  let o1 := enter contextOf_value some_controllers 5 1 1 fresh_world in
  let o3 := enter contextOf_value some_controllers 5 1 3 fresh_world in
  returned o1 = true
  /\ state (nodes (world_after o1) 1) = completed
  /\ result (nodes (world_after o1) 1) = VNum 7
  /\ throws o3 = true
  /\ state (nodes (world_after o3) 1) = running
  /\ throws (enter contextOf_value some_controllers 5 1 0 (world_after o1)) = true
  /\ throws (enter contextOf_value some_controllers 5 1 0 (world_after o3)) = true.
Proof. vm_compute. repeat split. Qed.

End Enter.

Section Children.
Variable contextOf : value -> option id.
Variable controllerOf : nat -> option (list callback).

Lemma construct_spec (req bl : bool) (w : world) :
  snd (construct req bl w) = ids w
  /\ nodes (fst (construct req bl w)) (ids w) = new_node req bl
  /\ (forall m, m <> ids w -> nodes (fst (construct req bl w)) m = nodes w m)
  /\ ids (fst (construct req bl w)) = S (ids w)
  /\ trace (fst (construct req bl w)) = trace w.
Proof.
  unfold construct. simpl. rewrite Nat.eqb_refl. repeat split.
  intros m Hm. apply Nat.eqb_neq in Hm. now rewrite Hm.
Qed.

(** X4.  [spawn] and [fork] on a context that is not settled.  The child
    takes the next id; it is required if forked and not if spawned, it is
    linked as the last child, and then it is entered, unstarted: the call
    returns or throws what [enter] returns or throws in that world.  With
    an operation that has no handler the call throws, and the child stays
    linked and unstarted; with a handler that makes no call it returns, the
    child running with the operation stored. *)
Theorem add_child_links_and_enters (req : bool) (fuel : nat) (n : id) (op : nat)
  (w : world) :
  isBlocking (nodes w n) = true ->
  n <> ids w ->
  ~ In (ids w) (children (nodes w n)) ->
  exists w1,
    add_child contextOf controllerOf req (S fuel) n op w
    = (enter contextOf controllerOf (S fuel) (ids w) op w1, ids w)
    /\ ids w1 = S (ids w)
    /\ state (nodes w1 (ids w)) = unstarted
    /\ isRequired (nodes w1 (ids w)) = req
    /\ blockOnReturnedContext (nodes w1 (ids w)) = false
    /\ parent (nodes w1 (ids w)) = Some n
    /\ children (nodes w1 n) = children (nodes w n) ++ [ids w]
    /\ state (nodes w1 n) = state (nodes w n)
    /\ (forall m, m <> n -> m <> ids w -> nodes w1 m = nodes w m)
    /\ trace w1 = trace w
    /\ (controllerOf op = None ->
        add_child contextOf controllerOf req (S fuel) n op w = (Threw w1, ids w))
    /\ (controllerOf op = Some [] ->
        exists w2,
          add_child contextOf controllerOf req (S fuel) n op w = (Done w2, ids w)
          /\ state (nodes w2 (ids w)) = running
          /\ operation (nodes w2 (ids w)) = Some op
          /\ parent (nodes w2 (ids w)) = Some n
          /\ children (nodes w2 n) = children (nodes w n) ++ [ids w]
          /\ state (nodes w2 n) = state (nodes w n)).
Proof.
  intros B Hne Hin. unfold add_child, add_child_with.
  destruct (construct_spec req false w) as (Ec & Nc & Nn & Ei & Et).
  destruct (construct req false w) as [w0 c]. cbn [fst snd] in *. subst c.
  set (c := ids w) in *.
  pose proof (Nn n Hne) as Nn'.
  assert (En : Nat.eqb n c = false) by now apply Nat.eqb_neq.
  assert (Ecn : Nat.eqb c n = false) by (apply Nat.eqb_neq; congruence).
  unfold link. cbn [exec dispatch]. unfold do_link.
  rewrite En, Nn', B. cbn [negb bind].
  assert (D : detach c w0 = w0) by (unfold detach; now rewrite Nc).
  rewrite D, Nc. replace (isBlocking (new_node req false)) with true by reflexivity.
  cbn [bind].
  set (w1 := attach n c w0).
  assert (N1c : nodes w1 c = with_parent (Some n) (new_node req false)).
  { unfold w1, attach. simpl. now rewrite Ecn, Nat.eqb_refl, Nc. }
  assert (N1n : nodes w1 n
                = with_children (set_add c (children (nodes w n))) (nodes w n)).
  { unfold w1, attach. simpl. now rewrite Nat.eqb_refl, En, Nn'. }
  assert (N1m : forall m, m <> n -> m <> c -> nodes w1 m = nodes w m).
  { intros m H1 H2. unfold w1, attach. simpl.
    apply Nat.eqb_neq in H1. pose proof H2 as H2'. apply Nat.eqb_neq in H2.
    rewrite H1, H2. now apply Nn. }
  assert (I1 : ids w1 = S c) by exact Ei.
  assert (T1 : trace w1 = trace w) by exact Et.
  clearbody w1. exists w1. split; [reflexivity|].
  rewrite N1c, N1n. cbn [state isRequired blockOnReturnedContext parent children
                          with_parent with_children new_node].
  rewrite (set_add_absent c _ Hin).
  split; [exact I1|]. split; [reflexivity|]. split; [reflexivity|].
  split; [reflexivity|]. split; [reflexivity|]. split; [reflexivity|].
  split; [reflexivity|]. split; [exact N1m|]. split; [exact T1|].
  assert (U1 : isUnstarted (nodes w1 c) = true) by now rewrite N1c.
  split.
  - intros C. cbn [enter]. now rewrite U1, C.
  - intros C. cbn [enter]. rewrite U1, C. cbn [foreach].
    eexists. split; [reflexivity|]. simpl.
    rewrite !Nat.eqb_refl, ?En, ?Ecn, N1c, N1n. simpl.
    rewrite (set_add_absent c _ Hin). now repeat split.
Qed.

Lemma exec_succ (fuel : nat) (c : call) (w : world) :
  exec contextOf (S fuel) c w = dispatch contextOf (exec contextOf fuel) c w.
Proof. reflexivity. Qed.

(** [halt] of a context that has no child, no hook, no parent and no
    promise is the two assignments of [finalize]. *)
Lemma halt_fresh (fuel : nat) (c : id) (r : value) (w : world) (x : node) :
  nodes w c = x -> isBlocking x = true ->
  children x = [] -> exitHooks x = [] -> parent x = None ->
  resolve x = None -> reject x = None ->
  exec contextOf (S (S fuel)) (Halt c r) w = Done (settle_node c halted r w).
Proof.
  intros Nx B Hc Hh Hp Hr1 Hr2. subst x. cbn [exec dispatch].
  unfold do_halt. rewrite B. cbn [dispatch]. unfold do_finalize. rewrite B.
  destruct (settle_node_spec c halted r w) as (Es & _ & Ec & Ehk & _ & _ & _).
  assert (Ep : parent (nodes (settle_node c halted r w) c) = None).
  { unfold settle_node. simpl. rewrite Nat.eqb_refl. simpl. exact Hp. }
  assert (Er : resolve (nodes (settle_node c halted r w) c) = None
               /\ reject (nodes (settle_node c halted r w) c) = None).
  { unfold settle_node. simpl. rewrite Nat.eqb_refl. simpl. now split. }
  set (w2 := settle_node c halted r w) in *.
  rewrite Ec, Hc. cbn [rev foreach bind]. rewrite Ehk, Hh. cbn [rev run_hooks].
  unfold notify_parent. rewrite Ep. cbn [bind].
  unfold finalizePromise. destruct Er as [-> ->].
  now destruct (isCompleted (nodes w2 c)), (isErrored (nodes w2 c)),
    (isHalted (nodes w2 c)).
Qed.

(** X5.  [spawn] and [fork] on a settled context throw: [link] halts the new
    child, and [enter] refuses a context that is not unstarted.  The child
    is left halted, with no parent, and is no child of the settled
    context. *)
Theorem add_child_under_settled_throws (req : bool) (fuel : nat) (n : id)
  (op : nat) (w : world) :
  isBlocking (nodes w n) = false ->
  n <> ids w ->
  exists w',
    add_child contextOf controllerOf req (S (S (S fuel))) n op w
    = (Threw w', ids w)
    /\ state (nodes w' (ids w)) = halted
    /\ parent (nodes w' (ids w)) = None
    /\ ~ In (ids w) (children (nodes w' n))
    /\ state (nodes w' n) = state (nodes w n)
    /\ result (nodes w' n) = result (nodes w n).
Proof.
  intros B Hne. unfold add_child, add_child_with.
  destruct (construct_spec req false w) as (Ec & Nc & Nn & Ei & _).
  destruct (construct req false w) as [w0 c]. cbn [fst snd] in *. subst c.
  set (c := ids w) in *.
  specialize (Nn n Hne).
  assert (En : Nat.eqb n c = false) by now apply Nat.eqb_neq.
  assert (Ecn : Nat.eqb c n = false) by (apply Nat.eqb_neq; congruence).
  unfold link. rewrite exec_succ. cbn [dispatch]. unfold do_link.
  rewrite En, Nn, B. cbn [negb].
  rewrite (halt_fresh fuel c VUndefined w0 (new_node req false) Nc);
    try reflexivity.
  cbn [bind].
  set (w1 := settle_node c halted VUndefined w0).
  assert (N1c : nodes w1 c = with_state halted (new_node req false)).
  { unfold w1, settle_node. simpl. now rewrite Nat.eqb_refl, Nc. }
  assert (N1n : nodes w1 n = nodes w n).
  { unfold w1, settle_node. simpl. now rewrite En, Nn. }
  clearbody w1.
  assert (D : detach c w1 = w1) by (unfold detach; now rewrite N1c).
  rewrite D, N1c.
  replace (isBlocking (with_state halted (new_node req false))) with false
    by reflexivity.
  rewrite exec_succ. cbn [dispatch]. unfold do_trapExit.
  set (w2 := unlink n c (log (EvTrapExit n c) w1)).
  assert (N2c : nodes w2 c = with_parent None (with_state halted (new_node req false))).
  { unfold w2, unlink. simpl. now rewrite Ecn, Nat.eqb_refl, N1c. }
  assert (N2n : nodes w2 n
                = with_children (set_delete c (children (nodes w n))) (nodes w n)).
  { unfold w2, unlink. simpl. now rewrite Nat.eqb_refl, En, N1n. }
  clearbody w2. unfold adopt. rewrite N2c.
  replace (isCompleted (with_parent None (with_state halted (new_node req false))))
    with false by reflexivity.
  cbn [bind]. rewrite N2c, N2n.
  replace (isErrored (with_parent None (with_state halted (new_node req false))))
    with false by reflexivity.
  assert (Wn : isWaiting (with_children (set_delete c (children (nodes w n)))
                            (nodes w n)) = false).
  { unfold isBlocking in B. unfold isWaiting in *. simpl.
    destruct (State_eqb (state (nodes w n)) waiting); [|reflexivity].
    now rewrite orb_true_r in B. }
  rewrite Wn. cbn [andb bind enter]. rewrite N2c.
  replace (isUnstarted (with_parent None (with_state halted (new_node req false))))
    with false by reflexivity.
  eexists. split; [reflexivity|]. rewrite N2c, N2n. simpl.
  repeat split. apply set_delete_absent.
Qed.

End Children.

Lemma add_child_links_and_enters_witness :
  exists w1,
    fork contextOf_value any_controller 1 1 7 root_world
    = (enter contextOf_value any_controller 1 2 7 w1, 2)
    /\ parent (nodes w1 2) = Some 1.
Proof.
  assert (B : isBlocking (nodes root_world 1) = true) by (vm_compute; reflexivity).
  assert (Hne : 1 <> ids root_world) by (vm_compute; discriminate).
  assert (Hin : ~ In (ids root_world) (children (nodes root_world 1)))
    by (vm_compute; tauto).
  destruct (add_child_links_and_enters contextOf_value any_controller true 0 1 7
              root_world B Hne Hin) as (w1 & R & _ & _ & _ & _ & Hp & _).
  exists w1. split; [exact R|exact Hp].
Defined.

Lemma add_child_under_settled_throws_witness :
  exists w',
    spawn contextOf_value any_controller 3 1 7 handed_off = (Threw w', 3)
    /\ state (nodes w' 3) = halted.
Proof.
  assert (B : isBlocking (nodes handed_off 1) = false) by (vm_compute; reflexivity).
  assert (Hne : 1 <> ids handed_off) by (vm_compute; discriminate).
  destruct (add_child_under_settled_throws contextOf_value any_controller false 0 1 7
              handed_off B Hne) as (w' & R & Hs & _).
  exists w'. split; [exact R|exact Hs].
Defined.

(** The handler of operation 2 forks the operation 1, whose handler
    resumes with 7 at once, and then spawns the operation 0: [spawn] of
    the operation 2 under the root returns with the new child 2 running,
    its forked child 3 completed with 7 and gone from its children, and its
    spawned child 4 running. *)
Example spawn_runs_the_handlers :
  let o := fst (spawn contextOf_value some_controllers 8 1 2 root_world) in
  let w' := world_after o in
  returned o = true
  /\ state (nodes w' 2) = running /\ parent (nodes w' 2) = Some 1
  /\ state (nodes w' 3) = completed /\ result (nodes w' 3) = VNum 7
  /\ isRequired (nodes w' 3) = true /\ parent (nodes w' 3) = None
  /\ state (nodes w' 4) = running /\ parent (nodes w' 4) = Some 2
  /\ children (nodes w' 2) = [4].
Proof. vm_compute. repeat split. Qed.

(** * More of the exit hooks: ensure and the function it returns *)

(** Every bound hook that is registered was bound before: the next bound
    hook is a new one. *)
Definition fresh_runs (w : world) : Prop :=
  forall n b, In b (exitHooks (nodes w n)) -> run_id b < next_run w.

Lemma filter_all {A : Type} (f : A -> bool) (l : list A) :
  (forall a, In a l -> f a = true) -> filter f l = l.
Proof.
  induction l as [|a l IH]; intros H; simpl; [reflexivity|].
  rewrite (H a (or_introl eq_refl)), IH; [reflexivity|].
  intros b Hb. apply H. now right.
Qed.

(** The exit hooks after [ensure], and after the function it returned. *)
Lemma unregister_restores (n : id) (h : hook) (w : world) :
  isBlocking (nodes w n) = true ->
  fresh_runs w ->
  ensure n h w
  = Ensured (ensured_world (ensure n h w)) (DeleteRun n (next_run w))
  /\ exitHooks (nodes (ensured_world (ensure n h w)) n)
     = exitHooks (nodes w n) ++ [Bound (next_run w) h]
  /\ exitHooks (nodes (call_unregister (DeleteRun n (next_run w))
                         (ensured_world (ensure n h w))) n)
     = exitHooks (nodes w n).
Proof.
  intros B Hf. unfold ensure. rewrite B. cbn [ensured_world run_id].
  split; [reflexivity|]. split.
  - simpl. now rewrite Nat.eqb_refl.
  - simpl. rewrite !Nat.eqb_refl. simpl. rewrite filter_app. simpl.
    rewrite Nat.eqb_refl. simpl. rewrite app_nil_r.
    apply filter_all. intros b Hb. specialize (Hf n b Hb).
    apply negb_true_iff, Nat.eqb_neq. lia.
Qed.

(** X6.  [ensure] on a context that is not settled puts the bound hook at the
    end of the exit hooks and returns the function that takes it out
    again: calling that function gives back the exit hooks as they were,
    whatever else is registered, the same hook bound another time
    included; calling it twice is calling it once.  No other context is
    touched, and nothing is logged: the hook is not called. *)
Theorem ensure_then_unregister (n : id) (h : hook) (w : world) :
  isBlocking (nodes w n) = true ->
  fresh_runs w ->
  exists w1 u,
    ensure n h w = Ensured w1 u
    /\ exitHooks (nodes w1 n) = exitHooks (nodes w n) ++ [Bound (next_run w) h]
    /\ exitHooks (nodes (call_unregister u w1) n) = exitHooks (nodes w n)
    /\ (forall m, m <> n ->
                  nodes w1 m = nodes w m /\ nodes (call_unregister u w1) m = nodes w m)
    /\ (forall m, exitHooks (nodes (call_unregister u (call_unregister u w1)) m)
                  = exitHooks (nodes (call_unregister u w1) m))
    /\ trace (call_unregister u w1) = trace w
    /\ fresh_runs w1.
Proof.
  intros B Hf. unfold ensure. rewrite B. do 2 eexists.
  split; [reflexivity|]. cbn [run_id call_unregister].
  assert (Hkeep : filter (fun b => negb (Nat.eqb (run_id b) (next_run w)))
                    (exitHooks (nodes w n)) = exitHooks (nodes w n)).
  { apply filter_all. intros b Hb. specialize (Hf n b Hb).
    apply negb_true_iff, Nat.eqb_neq. lia. }
  split; [|split; [|split; [|split; [|split]]]].
  - simpl. now rewrite Nat.eqb_refl.
  - simpl. rewrite !Nat.eqb_refl. simpl.
    rewrite filter_app, Hkeep. simpl. rewrite Nat.eqb_refl. simpl.
    apply app_nil_r.
  - intros m Hm. apply Nat.eqb_neq in Hm. simpl. rewrite Hm. now split.
  - intros m. simpl. destruct (Nat.eqb m n); [|reflexivity]. simpl.
    rewrite filter_filter. apply filter_ext. intros b.
    now destruct (negb (Nat.eqb (run_id b) (next_run w))).
  - reflexivity.
  - intros m b. simpl. destruct (Nat.eqb m n); simpl.
    + intros Hb. apply in_app_or in Hb. destruct Hb as [Hb|[<-|[]]].
      * specialize (Hf m b Hb). lia.
      * simpl. lia.
    + intros Hb. specialize (Hf m b Hb). lia.
Qed.

Lemma ensure_blocking (n : id) (h : hook) (w : world) :
  isBlocking (nodes w n) = true ->
  ensure n h w
  = Ensured (ensured_world (ensure n h w)) (DeleteRun n (next_run w)).
Proof. intros B. unfold ensure. now rewrite B. Qed.

Lemma fresh_runs_hooked_world : fresh_runs hooked_world.
Proof.
  intros [|[|n]] b; vm_compute; intros H; try contradiction.
  destruct H as [<-|[<-|[<-|[]]]]; repeat constructor.
Qed.

Lemma ensure_then_unregister_witness :
  exists w1 u,
    ensure 1 (Hook 4 false) hooked_world = Ensured w1 u
    /\ exitHooks (nodes (call_unregister u w1) 1) = exitHooks (nodes hooked_world 1).
Proof.
  assert (B : isBlocking (nodes hooked_world 1) = true) by (vm_compute; reflexivity).
  destruct (ensure_then_unregister 1 (Hook 4 false) hooked_world B
              fresh_runs_hooked_world) as (w1 & u & E & _ & H & _).
  exists w1, u. split; assumption.
Defined.

Section Unregister.

Variable contextOf : value -> option id.
Variable rank : id -> nat.
Variable bound : nat.

(** Good order is a matter of states, results and parents. *)
Lemma sound_shape (w w' : world) :
  (forall m, state (nodes w' m) = state (nodes w m)
             /\ result (nodes w' m) = result (nodes w m)
             /\ parent (nodes w' m) = parent (nodes w m)) ->
  sound contextOf rank bound w -> sound contextOf rank bound w'.
Proof.
  intros E (Hb & Hr & Hp). repeat split.
  - intros m Bm. apply Hb. revert Bm.
    unfold isBlocking, isRunning, isWaiting, isUnstarted.
    now rewrite (proj1 (E m)).
  - intros c k Hc Hk. apply (Hr c k).
    + revert Hc. unfold chained, isErrored, isHalted. now rewrite (proj1 (E c)).
    + now rewrite <- (proj1 (proj2 (E c))).
  - intros c p Hc. apply (Hp c p). now rewrite <- (proj2 (proj2 (E c))).
Qed.

Lemma ensure_shape (n : id) (h : hook) (w : world) (u : unregister) (m : id) :
  isBlocking (nodes w n) = true ->
  let w1 := ensured_world (ensure n h w) in
  (state (nodes w1 m) = state (nodes w m)
   /\ result (nodes w1 m) = result (nodes w m)
   /\ parent (nodes w1 m) = parent (nodes w m))
  /\ (state (nodes (call_unregister u w1) m) = state (nodes w m)
      /\ result (nodes (call_unregister u w1) m) = result (nodes w m)
      /\ parent (nodes (call_unregister u w1) m) = parent (nodes w m)).
Proof.
  intros B. unfold ensure. rewrite B. cbn [ensured_world].
  destruct u as [k run|]; simpl;
    destruct (Nat.eqb m n); try destruct (Nat.eqb m k); simpl; repeat split.
Qed.

(** X7.  The hook that [ensure] registered last is the first that [finalize]
    calls; once the function that [ensure] returned has been called,
    [finalize] does not call the hook: it calls the hooks that were there
    before, and those only.  In a world in good order both finalizes
    return. *)
Theorem unregistered_hook_is_not_run (n : id) (h : hook) (s : Final) (r : value)
  (w w1 : world) (u : unregister) :
  sound contextOf rank bound w ->
  admissible contextOf rank (Finalize n s r) ->
  isBlocking (nodes w n) = true ->
  fresh_runs w ->
  ensure n h w = Ensured w1 u ->
  (exists fuel w', finalize contextOf fuel n s r w1 = Done w')
  /\ (exists fuel w', finalize contextOf fuel n s r (call_unregister u w1) = Done w')
  /\ (forall fuel w', finalize contextOf fuel n s r w1 = Done w' ->
        hook_calls n (delta w1 w')
        = (h, Some n) :: map (fun b => (run_hook b, Some n))
                             (rev (exitHooks (nodes w n))))
  /\ (forall fuel w', finalize contextOf fuel n s r (call_unregister u w1) = Done w' ->
        hook_calls n (delta (call_unregister u w1) w')
        = map (fun b => (run_hook b, Some n)) (rev (exitHooks (nodes w n)))).
Proof.
  intros Hs A B Hf E.
  destruct (unregister_restores n h w B Hf) as (E' & H1 & H2).
  rewrite E in E', H1, H2. cbn [ensured_world] in E', H1, H2.
  injection E' as Eu. rewrite <- Eu in H2.
  assert (Ew : w1 = ensured_world (ensure n h w)) by now rewrite E.
  assert (B1 : isBlocking (nodes w1 n) = true).
  { pose proof (proj1 (proj1 (ensure_shape n h w u n B))) as Es.
    unfold isBlocking, isRunning, isWaiting, isUnstarted in *.
    rewrite Ew, Es. exact B. }
  assert (B2 : isBlocking (nodes (call_unregister u w1) n) = true).
  { pose proof (proj1 (proj2 (ensure_shape n h w u n B))) as Es.
    unfold isBlocking, isRunning, isWaiting, isUnstarted in *.
    rewrite Ew, Es. exact B. }
  split; [|split; [|split]].
  - apply (call_returns contextOf rank bound (Finalize n s r) w1); [|exact A|exact I].
    apply (sound_shape w); [|exact Hs]. intros m. rewrite Ew.
    apply (proj1 (ensure_shape n h w u m B)).
  - apply (call_returns contextOf rank bound (Finalize n s r)); [|exact A|exact I].
    apply (sound_shape w); [|exact Hs]. intros m. rewrite Ew.
    apply (proj2 (ensure_shape n h w u m B)).
  - intros fuel w' R.
    destruct (finalize_trace contextOf fuel n s r _ w' B1 R) as (_ & _ & _ & Hk & _).
    rewrite Hk, H1, rev_app_distr. reflexivity.
  - intros fuel w' R.
    destruct (finalize_trace contextOf fuel n s r _ w' B2 R) as (_ & _ & _ & Hk & _).
    now rewrite Hk, H2.
Qed.

End Unregister.

Lemma unregistered_hook_is_not_run_witness :
  exists fuel w',
    finalize contextOf_value fuel 1 halted VUndefined
      (call_unregister (DeleteRun 1 (next_run hooked_world))
         (ensured_world (ensure 1 (Hook 4 false) hooked_world))) = Done w'.
Proof.
  assert (B : isBlocking (nodes hooked_world 1) = true) by (vm_compute; reflexivity).
  exact (proj1 (proj2 (unregistered_hook_is_not_run contextOf_value depth_rank 3
                         1 (Hook 4 false) halted VUndefined hooked_world _ _
                         hooked_world_sound I B fresh_runs_hooked_world
                         (ensure_blocking 1 (Hook 4 false) hooked_world B)))).
Defined.


(** * The tree of contexts *)

(** The two sides of a link agree: a context is among the children of
    another exactly when that one is its parent, and no context is listed
    twice. *)
Definition linked (w : world) : Prop :=
  (forall p c, In c (children (nodes w p)) <-> parent (nodes w c) = Some p)
  /\ forall p, NoDup (children (nodes w p)).

(** [trapExit] is called by a child on its parent, or by [link] on a
    context that has no parent. *)
Definition well_called (c : call) (w : world) : Prop :=
  match c with
  | TrapExit n child =>
      parent (nodes w child) = Some n \/ parent (nodes w child) = None
  | _ => True
  end.

Lemma linked_shape (w w' : world) :
  (forall m, children (nodes w' m) = children (nodes w m)
             /\ parent (nodes w' m) = parent (nodes w m)) ->
  linked w -> linked w'.
Proof.
  intros E [H1 H2]. split.
  - intros p c. rewrite (proj1 (E p)), (proj2 (E c)). apply H1.
  - intros p. rewrite (proj1 (E p)). apply H2.
Qed.

Lemma linked_nodes (w w' : world) : nodes w' = nodes w -> linked w -> linked w'.
Proof. intros E. apply linked_shape. intros m. now rewrite E. Qed.

Lemma unlink_children (n child : id) (w : world) (m : id) :
  children (nodes (unlink n child w) m)
  = if Nat.eqb m n then set_delete child (children (nodes w m))
    else children (nodes w m).
Proof.
  unfold unlink. simpl. destruct (Nat.eqb m n), (Nat.eqb m child); reflexivity.
Qed.

Lemma unlink_parent (n child : id) (w : world) (m : id) :
  parent (nodes (unlink n child w) m)
  = if Nat.eqb m child then None else parent (nodes w m).
Proof.
  unfold unlink. simpl. destruct (Nat.eqb m n), (Nat.eqb m child); reflexivity.
Qed.

Lemma set_delete_In (c k : id) (l : list id) :
  In k (set_delete c l) <-> In k l /\ k <> c.
Proof.
  unfold set_delete. rewrite filter_In, negb_true_iff, Nat.eqb_neq. tauto.
Qed.

Lemma linked_unlink (n child : id) (w : world) :
  parent (nodes w child) = Some n \/ parent (nodes w child) = None ->
  linked w -> linked (unlink n child w).
Proof.
  intros Hp [H1 H2]. split.
  - intros p c. rewrite unlink_children, unlink_parent.
    destruct (Nat.eqb_spec c child) as [->|Nc], (Nat.eqb_spec p n) as [->|Np].
    + rewrite set_delete_In. split; [tauto|discriminate].
    + rewrite H1. split; [|discriminate]. intros E.
      destruct Hp as [Hp|Hp]; rewrite Hp in E; congruence.
    + rewrite set_delete_In, H1. tauto.
    + apply H1.
  - intros p. rewrite unlink_children. destruct (Nat.eqb p n); [|apply H2].
    apply NoDup_filter, H2.
Qed.

Lemma linked_detach (child : id) (w : world) :
  linked w -> linked (detach child w) /\ parent (nodes (detach child w) child) = None.
Proof.
  intros L. unfold detach. destruct (parent (nodes w child)) as [q|] eqn:E.
  - split; [apply linked_unlink; auto|].
    rewrite unlink_parent. now rewrite Nat.eqb_refl.
  - now split.
Qed.

Lemma attach_children (n child : id) (w : world) (m : id) :
  children (nodes (attach n child w) m)
  = if Nat.eqb m n then set_add child (children (nodes w m))
    else children (nodes w m).
Proof.
  unfold attach. simpl. destruct (Nat.eqb m n), (Nat.eqb m child); reflexivity.
Qed.

Lemma attach_parent (n child : id) (w : world) (m : id) :
  parent (nodes (attach n child w) m)
  = if Nat.eqb m child then Some n else parent (nodes w m).
Proof.
  unfold attach. simpl. destruct (Nat.eqb m n), (Nat.eqb m child); reflexivity.
Qed.

Lemma linked_attach (n child : id) (w : world) :
  parent (nodes w child) = None -> linked w -> linked (attach n child w).
Proof.
  intros Hp [H1 H2].
  assert (Hn : forall p, ~ In child (children (nodes w p))).
  { intros p Hi. apply H1 in Hi. congruence. }
  split.
  - intros p c. rewrite attach_children, attach_parent.
    destruct (Nat.eqb_spec c child) as [->|Nc], (Nat.eqb_spec p n) as [->|Np].
    + split; [reflexivity|]. intros _. apply set_add_present.
    + split; [intros Hi; now apply Hn in Hi|]. intros [= E]. congruence.
    + rewrite (set_add_absent child _ (Hn n)), in_app_iff, H1. simpl.
      split; [intros [H|[H|[]]]; congruence|tauto].
    + apply H1.
  - intros p. rewrite attach_children. destruct (Nat.eqb p n); [|apply H2].
    rewrite (set_add_absent child _ (Hn p)).
    apply NoDup_app; [apply H2|repeat constructor; simpl; tauto|].
    intros x Hx [<-|[]]. now apply Hn in Hx.
Qed.

Lemma linked_settle_node (n : id) (s : Final) (r : value) (w : world) :
  linked w -> linked (settle_node n s r w).
Proof.
  apply linked_shape. intros m. unfold settle_node. simpl.
  destruct (Nat.eqb m n); simpl; now split.
Qed.

Section TreeStep.

Variable contextOf : value -> option id.
Variable self : call -> world -> outcome.

Hypothesis self_linked :
  forall c w, well_called c w -> linked w -> after linked (self c w).

Lemma dispatch_linked (c : call) (w : world) :
  well_called c w -> linked w -> after linked (dispatch contextOf self c w).
Proof.
  destruct c as [n reason|n v|n error|n s r|n child|n child]; simpl;
    intros Hc L.
  - unfold do_halt. destruct (isBlocking (nodes w n)); [|assumption].
    now apply (self_linked (Finalize n halted reason)).
  - unfold do_resume. destruct (isBlocking (nodes w n)); [|assumption].
    apply after_bind.
    + unfold resume_link. destruct (isRunning (nodes w n)); [|assumption].
      assert (L0 : linked (upd_node n (with_result v) w)).
      { revert L. apply linked_shape. intros m. simpl.
        destruct (Nat.eqb m n); now split. }
      destruct (contextOf v) as [k|]; [|assumption].
      now apply (self_linked (Link n k)).
    + intros w1 L1. destruct (must_wait n v w1).
      * simpl. revert L1. apply linked_shape. intros m. simpl.
        destruct (Nat.eqb m n); now split.
      * now apply (self_linked (Finalize n completed v)).
  - unfold do_fail. destruct (isBlocking (nodes w n)); [|assumption].
    now apply (self_linked (Finalize n errored error)).
  - unfold do_finalize. destruct (isBlocking (nodes w n)); [|assumption].
    apply after_bind.
    + apply after_foreach; [|now apply linked_settle_node].
      intros child u Lu. unfold halt_child. destruct (_ || _); [|assumption].
      apply (self_linked (Halt child r)); [exact I|].
      now apply (linked_nodes u).
    + intros w3 L3.
      assert (L4 : linked (run_hooks n (rev (exitHooks (nodes w3 n))) w3))
        by (apply (linked_nodes w3); [apply run_hooks_nodes|assumption]).
      apply after_bind.
      * unfold notify_parent.
        destruct (parent (nodes (run_hooks n (rev (exitHooks (nodes w3 n))) w3) n))
          as [p|] eqn:Ep; [|assumption].
        apply (self_linked (TrapExit p n)); [now left|assumption].
      * intros w5 L5. simpl.
        apply (linked_nodes w5); [apply finalizePromise_nodes|assumption].
  - unfold do_trapExit.
    set (w1 := unlink n child (log (EvTrapExit n child) w)).
    assert (L1 : linked w1).
    { apply linked_unlink; [exact Hc|]. now apply (linked_nodes w). }
    apply after_bind.
    + unfold adopt. destruct (isCompleted (nodes w1 child)); [|assumption].
      destruct (contextOf (result (nodes w1 child))) as [k|]; [|assumption].
      now apply (self_linked (Link n k)).
    + intros w2 L2. destruct (isErrored (nodes w2 child)).
      * now apply (self_linked (Fail n (result (nodes w2 child)))).
      * destruct (_ && _); [|assumption].
        now apply (self_linked (Finalize n completed VUndefined)).
  - unfold do_link. destruct (Nat.eqb n child); [assumption|].
    apply after_bind.
    + destruct (negb _); [|assumption].
      now apply (self_linked (Halt child VUndefined)).
    + intros w1 L1. destruct (linked_detach child w1 L1) as [L2 P2].
      destruct (isBlocking (nodes (detach child w1) child)).
      * simpl. now apply linked_attach.
      * apply (self_linked (TrapExit n child)); [now right|assumption].
Qed.

End TreeStep.

Lemma exec_linked (contextOf : value -> option id) (fuel : nat) :
  forall c w, well_called c w -> linked w -> after linked (exec contextOf fuel c w).
Proof.
  induction fuel as [|fuel IH]; intros c w Hc L; [exact I|].
  now apply (dispatch_linked contextOf (exec contextOf fuel) IH).
Qed.


(** * Settling detaches *)

(** From [w] to [w'], every context that is settled in [w'] has no parent,
    unless it was settled in [w] already and has the parent it had. *)
Definition settles_detached (w w' : world) : Prop :=
  forall m, isBlocking (nodes w' m) = false ->
            parent (nodes w' m) = None
            \/ (isBlocking (nodes w m) = false
                /\ parent (nodes w' m) = parent (nodes w m)).

Lemma settles_detached_shape (w w' : world) :
  (forall m, state (nodes w' m) = state (nodes w m)
             /\ parent (nodes w' m) = parent (nodes w m)) ->
  settles_detached w w'.
Proof.
  intros E m B. right. split; [|apply E].
  revert B. unfold isBlocking, isRunning, isWaiting, isUnstarted.
  now rewrite (proj1 (E m)).
Qed.

Lemma settles_detached_nodes (w w' : world) :
  nodes w' = nodes w -> settles_detached w w'.
Proof. intros E. apply settles_detached_shape. intros m. now rewrite E. Qed.

Lemma settles_detached_refl (w : world) : settles_detached w w.
Proof. now apply settles_detached_nodes. Qed.

Lemma settles_detached_trans (w1 w2 w3 : world) :
  settles_detached w1 w2 -> settles_detached w2 w3 -> settles_detached w1 w3.
Proof.
  intros H12 H23 m B. destruct (H23 m B) as [E|[B2 E]]; [now left|].
  destruct (H12 m B2) as [E1|[B1 E1]]; [left|right]; [|split; [assumption|]];
    congruence.
Qed.

Lemma foreach_done {A : Type} (body : A -> world -> outcome) (P : world -> Prop)
  (l : list A) :
  (forall x w w', P w -> body x w = Done w' -> P w') ->
  forall w w', P w -> foreach body l w = Done w' -> P w'.
Proof.
  intros Hb. induction l as [|x l IH]; intros w w' Pw R; simpl in R.
  - now injection R as <-.
  - apply bind_done in R. destruct R as (w1 & R1 & R). eauto.
Qed.

Lemma settles_detached_unlink (n child : id) (w : world) :
  settles_detached w (unlink n child w).
Proof.
  intros m B. unfold unlink in *.
  unfold isBlocking, isRunning, isWaiting, isUnstarted in *. simpl in *.
  destruct (Nat.eqb m n), (Nat.eqb m child); simpl in *; auto.
Qed.

Lemma settles_detached_detach (child : id) (w : world) :
  settles_detached w (detach child w).
Proof.
  unfold detach. destruct (parent (nodes w child));
    [apply settles_detached_unlink|apply settles_detached_refl].
Qed.

Lemma settles_detached_attach (n child : id) (w : world) :
  isBlocking (nodes w child) = true -> settles_detached w (attach n child w).
Proof.
  intros Bc m B. unfold attach in *.
  unfold isBlocking, isRunning, isWaiting, isUnstarted in *. simpl in *.
  destruct (Nat.eqb_spec m child) as [E|E].
  - subst m. destruct (Nat.eqb child n); simpl in *; congruence.
  - destruct (Nat.eqb m n); simpl in *; auto.
Qed.

Section Detached.

Variable contextOf : value -> option id.

Definition leaves_detached (c : call) (w w' : world) : Prop :=
  settles_detached w w'
  /\ match c with
     | TrapExit _ child =>
         isBlocking (nodes w child) = false -> parent (nodes w' child) = None
     | _ => True
     end.

Lemma exec_leaves_detached (fuel : nat) :
  forall c w w', exec contextOf fuel c w = Done w' -> leaves_detached c w w'.
Proof.
  induction fuel as [|fuel IH]; intros c w w' R; [discriminate|].
  assert (F : frame w w') by (apply (exec_frame contextOf (S fuel) c); now rewrite R).
  cbn [exec] in R.
  destruct c as [n reason|n v|n error|n s r|n child|n child]; cbn [dispatch] in R.
  - split; [|exact I]. unfold do_halt in R.
    destruct (isBlocking (nodes w n)).
    + apply (IH _ _ _ R).
    + injection R as <-. apply settles_detached_refl.
  - split; [|exact I]. unfold do_resume in R.
    destruct (isBlocking (nodes w n)) eqn:B;
      [|injection R as <-; apply settles_detached_refl].
    apply bind_done in R. destruct R as (w1 & R1 & R).
    assert (H1 : settles_detached w w1).
    { unfold resume_link in R1. destruct (isRunning (nodes w n)).
      - assert (H0 : settles_detached w (upd_node n (with_result v) w)).
        { apply settles_detached_shape. intros m. simpl.
          destruct (Nat.eqb m n); now split. }
        destruct (contextOf v) as [k|].
        + apply (settles_detached_trans _ _ _ H0). apply (IH _ _ _ R1).
        + now injection R1 as <-.
      - injection R1 as <-. apply settles_detached_refl. }
    destruct (must_wait n v w1).
    + injection R as <-. intros m Bm. simpl in Bm.
      destruct (Nat.eqb_spec m n) as [E|Hm];
        [subst m; vm_compute in Bm; discriminate|].
      destruct (H1 m Bm) as [E|E]; [left|right]; simpl;
        apply Nat.eqb_neq in Hm; now rewrite Hm.
    + apply (settles_detached_trans _ _ _ H1). apply (IH _ _ _ R).
  - split; [|exact I]. unfold do_fail in R.
    destruct (isBlocking (nodes w n)).
    + apply (IH _ _ _ R).
    + injection R as <-. apply settles_detached_refl.
  - split; [|exact I]. unfold do_finalize in R.
    destruct (isBlocking (nodes w n)) eqn:B;
      [|injection R as <-; apply settles_detached_refl].
    destruct (settle_node_spec n s r w) as (_ & _ & _ & _ & _ & S2 & _).
    set (w2 := settle_node n s r w) in *.
    apply bind_done in R. destruct R as (w3 & R3 & R).
    apply bind_done in R. destruct R as (w5 & R5 & R). injection R as <-.
    destruct (halt_children_trace contextOf fuel n r _ w2 w3 S2 R3)
      as (_ & _ & _ & _ & Hst & _).
    assert (H23 : settles_detached w2 w3).
    { revert R3. apply (foreach_done _ (settles_detached w2));
        [|apply settles_detached_refl].
      intros child u u' Hu Ru. unfold halt_child in Ru.
      destruct (_ || _); [|now injection Ru as <-].
      apply (settles_detached_trans _ _ _ Hu).
      apply (settles_detached_trans _ (log (EvHaltChild n child r) u));
        [now apply settles_detached_nodes|apply (IH _ _ _ Ru)]. }
    set (w4 := run_hooks n (rev (exitHooks (nodes w3 n))) w3) in *.
    assert (E4 : nodes w4 = nodes w3) by apply run_hooks_nodes.
    assert (H34 : settles_detached w3 w4) by now apply settles_detached_nodes.
    assert (B4 : isBlocking (nodes w4 n) = false)
      by (rewrite E4; apply (Hst n S2)).
    assert (H45 : settles_detached w4 w5 /\ parent (nodes w5 n) = None).
    { unfold notify_parent in R5. destruct (parent (nodes w4 n)) as [p|] eqn:Ep.
      - destruct (IH _ _ _ R5) as [H P]. split; [exact H|now apply P].
      - injection R5 as <-. split; [apply settles_detached_refl|assumption]. }
    destruct H45 as [H45 P5].
    assert (H2 : settles_detached w2 (finalizePromise n w5)).
    { apply (settles_detached_trans _ _ _ H23).
      apply (settles_detached_trans _ _ _ H34).
      apply (settles_detached_trans _ _ _ H45).
      apply settles_detached_nodes, finalizePromise_nodes. }
    intros m Bm. destruct (Nat.eqb_spec m n) as [E|Hm].
    + subst m. left. now rewrite finalizePromise_nodes.
    + destruct (H2 m Bm) as [E|[B2 E]]; [now left|right].
      unfold w2, settle_node in B2, E. simpl in B2, E.
      apply Nat.eqb_neq in Hm. rewrite Hm in B2, E. now split.
  - unfold do_trapExit in R.
    set (w1 := unlink n child (log (EvTrapExit n child) w)) in *.
    assert (H1 : settles_detached w w1).
    { apply (settles_detached_trans _ (log (EvTrapExit n child) w));
        [now apply settles_detached_nodes|apply settles_detached_unlink]. }
    assert (P1 : parent (nodes w1 child) = None).
    { unfold w1. unfold unlink. simpl.
      destruct (Nat.eqb child n); simpl; now rewrite Nat.eqb_refl. }
    apply bind_done in R. destruct R as (w2 & R2 & R).
    assert (H12 : settles_detached w1 w2).
    { unfold adopt in R2. destruct (isCompleted (nodes w1 child)).
      - destruct (contextOf (result (nodes w1 child))) as [k|].
        + apply (IH _ _ _ R2).
        + injection R2 as <-. apply settles_detached_refl.
      - injection R2 as <-. apply settles_detached_refl. }
    assert (H2 : settles_detached w2 w').
    { destruct (isErrored (nodes w2 child)); [apply (IH _ _ _ R)|].
      destruct (_ && _); [apply (IH _ _ _ R)|].
      injection R as <-. apply settles_detached_refl. }
    pose proof (settles_detached_trans _ _ _ H12 H2) as H1'.
    split; [apply (settles_detached_trans _ _ _ H1 H1')|].
    intros Bc. pose proof (frame_blocking F child Bc) as Bc'.
    destruct (H1' child Bc') as [E|[_ E]]; congruence.
  - split; [|exact I]. unfold do_link in R.
    destruct (Nat.eqb n child); [discriminate|].
    apply bind_done in R. destruct R as (w1 & R1 & R).
    assert (H1 : settles_detached w w1).
    { destruct (negb _); [apply (IH _ _ _ R1)|].
      injection R1 as <-. apply settles_detached_refl. }
    apply (settles_detached_trans _ _ _ H1).
    apply (settles_detached_trans _ _ _ (settles_detached_detach child w1)).
    destruct (isBlocking (nodes (detach child w1) child)) eqn:Bc.
    + injection R as <-. now apply settles_detached_attach.
    + apply (IH _ _ _ R).
Qed.

End Detached.


(** The ids from the next one on are not in use: no context that is not
    settled has one, none has a parent and none has children. *)
Definition vacant (w : world) : Prop :=
  forall m, ids w <= m ->
            isBlocking (nodes w m) = false
            /\ parent (nodes w m) = None
            /\ children (nodes w m) = [].

Lemma vacant_blocking (w : world) (n : id) :
  vacant w -> isBlocking (nodes w n) = true -> n < ids w.
Proof.
  intros V B. destruct (Nat.lt_ge_cases n (ids w)) as [|H]; [assumption|].
  destruct (V n H) as (B' & _). congruence.
Qed.

(** An update of a context in use keeps the other ids vacant. *)
Lemma vacant_upd (n : id) (f : node -> node) (w : world) :
  n < ids w -> vacant w -> vacant (upd_node n f w).
Proof.
  intros Hn V m Hm. simpl in *. destruct (Nat.eqb_spec m n); [lia|now apply V].
Qed.

Lemma vacant_nodes (w w' : world) :
  nodes w' = nodes w -> ids w' = ids w -> vacant w -> vacant w'.
Proof. intros En Ei V m Hm. rewrite En. apply V. now rewrite <- Ei. Qed.

Lemma vacant_unlink (p c : id) (w : world) : vacant w -> vacant (unlink p c w).
Proof.
  intros V m Hm. cbn [ids unlink upd_node] in Hm. destruct (V m Hm) as (B & P & C).
  rewrite unlink_parent, unlink_children.
  split; [|split].
  - revert B. unfold isBlocking, isRunning, isWaiting, isUnstarted, unlink. simpl.
    now destruct (Nat.eqb m p), (Nat.eqb m c).
  - now destruct (Nat.eqb m c).
  - destruct (Nat.eqb m p); [now rewrite C|exact C].
Qed.

Lemma vacant_detach (c : id) (w : world) : vacant w -> vacant (detach c w).
Proof.
  unfold detach. destruct (parent (nodes w c)); [apply vacant_unlink|auto].
Qed.

Lemma vacant_attach (p c : id) (w : world) :
  p < ids w -> c < ids w -> vacant w -> vacant (attach p c w).
Proof.
  intros Hp Hc V. unfold attach. apply vacant_upd; [exact Hp|].
  now apply vacant_upd.
Qed.

Lemma vacant_settle_node (n : id) (s : Final) (r : value) (w : world) :
  n < ids w -> vacant w -> vacant (settle_node n s r w).
Proof.
  intros Hn V m Hm. unfold settle_node in *. simpl in *.
  destruct (Nat.eqb_spec m n); [lia|now apply V].
Qed.

Lemma run_hooks_ids (n : id) (l : list bound_hook) :
  forall w, ids (run_hooks n l w) = ids w.
Proof.
  induction l as [|b l IH]; intros w; simpl; [reflexivity|].
  rewrite IH. now destruct (hook_throws (run_hook b)).
Qed.

Lemma after_conj (P Q : world -> Prop) (o : outcome) :
  after P o -> after Q o -> after (fun w => P w /\ Q w) o.
Proof. destruct o; simpl; auto. Qed.

Lemma after_impl (P Q : world -> Prop) (o : outcome) :
  (forall w, P w -> Q w) -> after P o -> after Q o.
Proof. destruct o; simpl; auto. Qed.

Section Vacant.

Variable contextOf : value -> option id.

(** A call keeps the vacant ids vacant, and takes none. *)
Definition keeps_vacant (i : id) (w : world) : Prop := vacant w /\ ids w = i.

Lemma exec_vacant (fuel : nat) :
  forall c w, vacant w -> after (keeps_vacant (ids w)) (exec contextOf fuel c w).
Proof.
  induction fuel as [|fuel IH]; intros c w V; [exact I|].
  assert (IH' : forall c u, keeps_vacant (ids w) u ->
                            after (keeps_vacant (ids w)) (exec contextOf fuel c u)).
  { intros c' u [Vu Iu]. rewrite <- Iu. now apply IH. }
  assert (K : keeps_vacant (ids w) w) by now split.
  cbn [exec].
  destruct c as [n reason|n v|n error|n s r|n child|n child]; cbn [dispatch].
  - unfold do_halt. destruct (isBlocking (nodes w n)); [|exact K]. now apply IH'.
  - unfold do_resume. destruct (isBlocking (nodes w n)) eqn:B; [|exact K].
    pose proof (vacant_blocking w n V B) as Hn.
    apply after_bind.
    + unfold resume_link. destruct (isRunning (nodes w n)); [|exact K].
      assert (K0 : keeps_vacant (ids w) (upd_node n (with_result v) w))
        by (split; [now apply vacant_upd|reflexivity]).
      destruct (contextOf v) as [k|]; [|exact K0]. now apply IH'.
    + intros w1 [V1 I1]. destruct (must_wait n v w1); [|now apply IH'].
      simpl. split; [|exact I1].
      apply (vacant_nodes (upd_node n (with_state waiting) w1)); try reflexivity.
      apply vacant_upd; [lia|assumption].
  - unfold do_fail. destruct (isBlocking (nodes w n)); [|exact K]. now apply IH'.
  - unfold do_finalize. destruct (isBlocking (nodes w n)) eqn:B; [|exact K].
    pose proof (vacant_blocking w n V B) as Hn.
    apply after_bind.
    + apply after_foreach.
      * intros child u [Vu Iu]. unfold halt_child. destruct (_ || _);
          [|now split].
        apply IH'. split; [|exact Iu]. now apply (vacant_nodes u).
      * split; [now apply vacant_settle_node|reflexivity].
    + intros w3 [V3 I3]. apply after_bind.
      * assert (K4 : keeps_vacant (ids w)
                       (run_hooks n (rev (exitHooks (nodes w3 n))) w3)).
        { split.
          - apply (vacant_nodes w3); [apply run_hooks_nodes| |assumption].
            apply run_hooks_ids.
          - now rewrite run_hooks_ids. }
        unfold notify_parent. destruct (parent _); [|exact K4]. now apply IH'.
      * intros w5 [V5 I5]. simpl. split.
        -- apply (vacant_nodes w5); [apply finalizePromise_nodes| |assumption].
           apply finalizePromise_ids.
        -- now rewrite finalizePromise_ids.
  - unfold do_trapExit. apply after_bind.
    + assert (K1 : keeps_vacant (ids w) (unlink n child (log (EvTrapExit n child) w))).
      { split; [|reflexivity]. apply vacant_unlink. now apply (vacant_nodes w). }
      unfold adopt. destruct (isCompleted _); [|exact K1].
      destruct (contextOf _); [|exact K1]. now apply IH'.
    + intros w2 K2. destruct (isErrored _); [now apply IH'|].
      destruct (_ && _); [|exact K2]. now apply IH'.
  - unfold do_link. destruct (Nat.eqb n child); [exact K|].
    (* a context that is not settled is halted before it would be attached
       under a settled one *)
    set (o := if negb (isBlocking (nodes w n))
              then exec contextOf fuel (Halt child VUndefined) w else Done w).
    assert (A1 : after (keeps_vacant (ids w)) o).
    { unfold o. destruct (negb _); [now apply IH'|exact K]. }
    assert (A2 : after (fun w1 => isBlocking (nodes w n) = false ->
                                  isBlocking (nodes w1 child) = false) o).
    { apply after_world_of. intros w1 R Bn. unfold o in R. rewrite Bn in R.
      cbn [negb] in R.
      destruct (isBlocking (nodes w child)) eqn:Bc.
      - destruct (halt_outcome contextOf fuel child VUndefined w w1 Bc R) as [Es _].
        unfold isBlocking, isRunning, isWaiting, isUnstarted. now rewrite Es.
      - apply exec_frame in R. now apply (frame_blocking R). }
    pose proof (after_conj _ _ o A1 A2) as A. clearbody o.
    destruct o as [w1|w1|]; cbn [bind after] in *; [|apply A|exact I].
    destruct A as [[V1 I1] H1].
    pose proof (vacant_detach child w1 V1) as V2.
    assert (I2 : ids (detach child w1) = ids w).
    { rewrite <- I1. unfold detach. now destruct (parent (nodes w1 child)). }
    assert (Bd : isBlocking (nodes (detach child w1) child)
                 = isBlocking (nodes w1 child)).
    { unfold detach. destruct (parent (nodes w1 child)) as [q|]; [|reflexivity].
      unfold isBlocking, isRunning, isWaiting, isUnstarted, unlink. simpl.
      rewrite Nat.eqb_refl. now destruct (Nat.eqb child q). }
    destruct (isBlocking (nodes (detach child w1) child)) eqn:Bc.
    + simpl. split; [|exact I2].
      apply vacant_attach; [| |exact V2].
      * rewrite I2. destruct (isBlocking (nodes w n)) eqn:Bn;
          [now apply vacant_blocking|].
        rewrite H1 in Bd by reflexivity. discriminate.
      * now apply vacant_blocking.
    + apply IH'. now split.
Qed.

End Vacant.

Lemma vacant_shape (w w' : world) :
  (forall m, state (nodes w' m) = state (nodes w m)
             /\ parent (nodes w' m) = parent (nodes w m)
             /\ children (nodes w' m) = children (nodes w m)) ->
  ids w' = ids w -> vacant w -> vacant w'.
Proof.
  intros E Ei V m Hm. rewrite Ei in Hm. destruct (V m Hm) as (B & P & C).
  destruct (E m) as (Es & Ep & Ec). rewrite Ep, Ec. repeat split; try assumption.
  revert B. unfold isBlocking, isRunning, isWaiting, isUnstarted. now rewrite Es.
Qed.

Lemma construct_tree (req bl : bool) (w : world) :
  linked w -> vacant w ->
  linked (fst (construct req bl w)) /\ vacant (fst (construct req bl w)).
Proof.
  intros L V.
  assert (Nc : nodes (fst (construct req bl w)) (ids w) = new_node req bl)
    by (simpl; now rewrite Nat.eqb_refl).
  assert (Nn : forall m, m <> ids w -> nodes (fst (construct req bl w)) m = nodes w m).
  { intros m Hm. apply Nat.eqb_neq in Hm. simpl. now rewrite Hm. }
  destruct (V (ids w) (Nat.le_refl _)) as (_ & Hp & Hc).
  split.
  - destruct L as [H1 H2]. split.
    + intros p c.
      destruct (Nat.eq_dec p (ids w)) as [->|Np],
               (Nat.eq_dec c (ids w)) as [->|Nc'];
        try rewrite Nc; try rewrite (Nn _ Np); try rewrite (Nn _ Nc'); simpl.
      * split; [contradiction|discriminate].
      * split; [contradiction|]. intros E. apply H1 in E. now rewrite Hc in E.
      * split; [|discriminate]. intros E. apply H1 in E. congruence.
      * apply H1.
    + intros p. destruct (Nat.eq_dec p (ids w)) as [->|Np].
      * rewrite Nc. constructor.
      * rewrite (Nn _ Np). apply H2.
  - intros m Hm. cbn [construct fst ids] in Hm.
    rewrite Nn by lia. apply V. lia.
Qed.

(** A call of a handler that makes no context. *)
Definition plain (cb : callback) : bool :=
  match cb with
  | CallSpawn _ | CallFork _ => false
  | _ => true
  end.

Lemma ensure_linked (n : id) (h : hook) (w : world) :
  linked w -> linked (ensured_world (ensure n h w)).
Proof.
  apply linked_shape. intros m. unfold ensure.
  destruct (isBlocking (nodes w n)); [|destruct (hook_throws h)]; simpl;
    try destruct (Nat.eqb m n); now split.
Qed.

Lemma construct_linked (req bl : bool) (w : world) :
  linked w -> parent (nodes w (ids w)) = None -> children (nodes w (ids w)) = [] ->
  linked (fst (construct req bl w)).
Proof.
  intros L Hp Hc.
  assert (Nc : nodes (fst (construct req bl w)) (ids w) = new_node req bl)
    by (simpl; now rewrite Nat.eqb_refl).
  assert (Nn : forall m, m <> ids w -> nodes (fst (construct req bl w)) m = nodes w m).
  { intros m Hm. apply Nat.eqb_neq in Hm. simpl. now rewrite Hm. }
  destruct L as [H1 H2]. split.
  - intros p c.
    destruct (Nat.eq_dec p (ids w)) as [->|Np],
             (Nat.eq_dec c (ids w)) as [->|Nc'];
      try rewrite Nc; try rewrite (Nn _ Np); try rewrite (Nn _ Nc'); simpl.
    + split; [contradiction|discriminate].
    + split; [contradiction|]. intros E. apply H1 in E. now rewrite Hc in E.
    + split; [|discriminate]. intros E. apply H1 in E. congruence.
    + apply H1.
  - intros p. destruct (Nat.eq_dec p (ids w)) as [->|Np].
    + rewrite Nc. constructor.
    + rewrite (Nn _ Np). apply H2.
Qed.

Section Tree.

Variable contextOf : value -> option id.
Variable controllerOf : nat -> option (list callback).

Lemma public_well_called (c : call) (w : world) : public c -> well_called c w.
Proof. now destruct c. Qed.

(** What [enter], [spawn] and [fork] are made of keeps the tree a tree and
    the vacant ids vacant. *)
Lemma driven_tree (w w' : world) :
  linked w -> vacant w -> driven contextOf w w' -> linked w' /\ vacant w'.
Proof.
  intros L V D. induction D as [w|fuel c w w1 w' Hc R _ IH|n h w w' _ IH
                                |req w w' _ IH|n op w w' U _ IH].
  - now split.
  - apply IH.
    + pose proof (exec_linked contextOf fuel c w (public_well_called c w Hc) L) as A.
      now apply (after_world_of linked) in R.
    + pose proof (exec_vacant contextOf fuel c w V) as A.
      apply (after_world_of (keeps_vacant (ids w))) in R; [apply R|exact A].
  - apply IH.
    + revert L. apply linked_shape. intros m. unfold ensure.
      destruct (isBlocking (nodes w n)); [|destruct (hook_throws h)]; simpl;
        try destruct (Nat.eqb m n); now split.
    + revert V. apply vacant_shape; unfold ensure;
        destruct (isBlocking (nodes w n)); try destruct (hook_throws h); simpl;
        try reflexivity; intros m; try destruct (Nat.eqb m n); now repeat split.
  - destruct (construct_tree req false w L V). now apply IH.
  - apply IH.
    + revert L. apply linked_shape. intros m. simpl.
      destruct (Nat.eqb m n); simpl; now split.
    + assert (Hn : n < ids w).
      { apply vacant_blocking; [exact V|]. unfold isBlocking. rewrite U.
        apply orb_true_r. }
      apply (vacant_nodes (upd_node n (with_state running)
                             (upd_node n (with_operation (Some op)) w)));
        try reflexivity.
      apply vacant_upd; [exact Hn|]. now apply vacant_upd.
Qed.

Lemma call_back_plain (e : id -> nat -> world -> outcome) (fuel : nat) (n : id)
  (cb : callback) (w : world) :
  plain cb = true -> linked w -> after linked (call_back contextOf e fuel n cb w).
Proof.
  destruct cb; simpl; intros P L; try discriminate;
    try (now apply exec_linked); [|exact L].
  pose proof (ensure_linked n h w L) as H.
  now destruct (ensure n h w).
Qed.

Lemma enter_plain (fuel : nat) (n : id) (op : nat) (w : world) :
  (forall handler, controllerOf op = Some handler -> forallb plain handler = true) ->
  linked w -> after linked (enter contextOf controllerOf fuel n op w).
Proof.
  intros Hp L. destruct fuel as [|fuel]; [exact I|]. cbn [enter].
  destruct (isUnstarted (nodes w n)); [|exact L].
  destruct (controllerOf op) as [handler|]; [|exact L].
  specialize (Hp handler eq_refl).
  assert (L1 : linked (set_state n running (upd_node n (with_operation (Some op)) w))).
  { revert L. apply linked_shape. intros m. simpl.
    destruct (Nat.eqb m n); now split. }
  revert L1. generalize (set_state n running (upd_node n (with_operation (Some op)) w)).
  induction handler as [|cb handler IH]; intros u Lu; [exact Lu|].
  cbn [forallb] in Hp. apply andb_prop in Hp. destruct Hp as [Hc Hh].
  cbn [foreach]. apply after_bind; [now apply call_back_plain|].
  intros u' Lu'. now apply IH.
Qed.

Lemma add_child_plain (req : bool) (fuel : nat) (n : id) (op : nat) (w : world) :
  parent (nodes w (ids w)) = None -> children (nodes w (ids w)) = [] ->
  (forall handler, controllerOf op = Some handler -> forallb plain handler = true) ->
  linked w ->
  after linked (fst (add_child contextOf controllerOf req fuel n op w)).
Proof.
  intros Hp Hc Hh L. unfold add_child, add_child_with.
  pose proof (construct_linked req false w L Hp Hc) as L0.
  destruct (construct req false w) as [w0 c]. cbn [fst snd] in *.
  apply after_bind.
  - now apply exec_linked.
  - intros u Lu. now apply enter_plain.
Qed.

(** X8.  The tree stays a tree.  In a world where children and parents agree,
    they agree after every call of [halt], [resume], [fail], [finalize] and
    [link], after [trapExit] called by a child on its parent or on a context
    without a parent, after [ensure], the function it returns and the
    [promise] getter, and after [enter], [spawn] and [fork] with all that
    the handlers do, whether the call returns or throws: for handlers that
    make no context, where the next id is that of no child and of no
    parent; for all handlers, where the ids from the next one on are not in
    use.  The ids that are not in use stay so, but for those that [spawn]
    and [fork] take. *)
Theorem tree_stays_linked (w : world) :
  linked w ->
  (forall fuel c, well_called c w -> after linked (exec contextOf fuel c w))
  /\ (forall fuel n op,
        (forall handler, controllerOf op = Some handler ->
                         forallb plain handler = true) ->
        after linked (enter contextOf controllerOf fuel n op w))
  /\ (forall req fuel n op,
        parent (nodes w (ids w)) = None -> children (nodes w (ids w)) = [] ->
        (forall handler, controllerOf op = Some handler ->
                         forallb plain handler = true) ->
        after linked (fst (add_child contextOf controllerOf req fuel n op w)))
  /\ (forall fuel n op,
        vacant w ->
        after (fun u => linked u /\ vacant u)
              (enter contextOf controllerOf fuel n op w))
  /\ (forall req fuel n op,
        vacant w ->
        after (fun u => linked u /\ vacant u)
              (fst (add_child contextOf controllerOf req fuel n op w)))
  /\ (forall fuel c, vacant w -> after vacant (exec contextOf fuel c w))
  /\ (forall n h, linked (ensured_world (ensure n h w)))
  /\ (forall u, linked (call_unregister u w))
  /\ (forall n, linked (fst (promise n w))).
Proof.
  intros L. split; [|split; [|split; [|split; [|split; [|split; [|split; [|split]]]]]]].
  - intros fuel c Hc. now apply exec_linked.
  - intros fuel n op Hh. now apply enter_plain.
  - intros req fuel n op Hp Hc Hh. now apply add_child_plain.
  - intros fuel n op V. apply after_world_of. intros u R.
    apply (driven_tree w u L V).
    now apply (enter_driven contextOf controllerOf fuel n op).
  - intros req fuel n op V. apply after_world_of. intros u R.
    apply (driven_tree w u L V).
    now apply (add_child_driven contextOf controllerOf req fuel n op).
  - intros fuel c V. apply (after_impl (keeps_vacant (ids w))); [now intros u [H _]|].
    now apply exec_vacant.
  - intros n h. revert L. apply linked_shape. intros m. unfold ensure.
    destruct (isBlocking (nodes w n)); [|destruct (hook_throws h)]; simpl;
      try destruct (Nat.eqb m n); now split.
  - intros [n run|]; [|assumption]. revert L. apply linked_shape. intros m. simpl.
    destruct (Nat.eqb m n); now split.
  - intros n. apply (linked_nodes (upd_node n (with_callbacks (Some (next_promise w))) w)).
    + unfold promise. cbn [fst]. now rewrite finalizePromise_nodes.
    + revert L. apply linked_shape. intros m. simpl.
      destruct (Nat.eqb m n); now split.
Qed.

(** X9.  Settling detaches.  Whatever context a call that returns has settled,
    the cascade of halts and the parents that failed included, has no
    parent afterwards and is the child of no context.  In a world in good
    order the call returns. *)
Theorem settled_contexts_are_detached (c : call) (w : world) :
  linked w ->
  well_called c w ->
  (forall rank bound,
      sound contextOf rank bound w -> admissible contextOf rank c ->
      ordered rank c ->
      exists fuel w', exec contextOf fuel c w = Done w')
  /\ forall fuel w',
       exec contextOf fuel c w = Done w' ->
       forall m, isBlocking (nodes w m) = true ->
                 isBlocking (nodes w' m) = false ->
                 parent (nodes w' m) = None
                 /\ forall p, ~ In m (children (nodes w' p)).
Proof.
  intros L Hc. split.
  { intros rank bound Hs A Ho. now apply (call_returns contextOf rank bound). }
  intros fuel w' R m B B'.
  destruct (exec_leaves_detached contextOf fuel c w w' R) as [H _].
  assert (P : parent (nodes w' m) = None).
  { destruct (H m B') as [E|[E _]]; congruence. }
  split; [exact P|].
  pose proof (exec_linked contextOf fuel c w Hc L) as L'. rewrite R in L'.
  intros p Hi. apply (proj1 L') in Hi. congruence.
Qed.

End Tree.

Ltac linked_cases :=
  vm_compute; split; intros H;
  try discriminate; try contradiction; try reflexivity;
  repeat (destruct H as [H|H]; try discriminate; try contradiction);
  auto.

Lemma family_of_three_linked : linked family_of_three.
Proof.
  split.
  - intros [|[|[|[|p]]]] [|[|[|[|c]]]]; linked_cases.
  - intros [|[|[|[|p]]]]; vm_compute; repeat constructor; simpl; intuition discriminate.
Qed.

Lemma tree_stays_linked_witness :
  after linked (exec contextOf_value 5 (Halt 1 (VStr "stop")) family_of_three).
Proof.
  exact (proj1 (tree_stays_linked contextOf_value any_controller family_of_three
                  family_of_three_linked) 5 (Halt 1 (VStr "stop")) I).
Defined.

Lemma settled_contexts_are_detached_witness :
  parent (nodes (world_after (exec contextOf_value 5 (Halt 1 (VStr "stop"))
                                family_of_three)) 2) = None.
Proof.
  refine (proj1 (proj2 (settled_contexts_are_detached contextOf_value
                          (Halt 1 (VStr "stop")) family_of_three
                          family_of_three_linked I)
                   5 _ (returned_done _ _) 2 _ _));
    vm_compute; reflexivity.
Defined.


Lemma root_world_vacant : vacant root_world.
Proof.
  intros m Hm. change (ids root_world) with 2 in Hm.
  destruct m as [|[|m]]; [lia|lia|]. vm_compute. repeat split.
Qed.

(** The handlers of the examples keep the tree in order. *)
Example spawn_keeps_the_tree :
  after (fun u => linked u /\ vacant u)
        (fst (spawn contextOf_value some_controllers 8 1 2 root_world)).
Proof.
  assert (L : linked root_world).
  { split.
    - intros [|[|p]] [|[|c]]; vm_compute; split; intros H;
        try discriminate; try contradiction.
    - intros [|[|p]]; vm_compute; constructor. }
  apply after_world_of. intros u R.
  apply (driven_tree contextOf_value root_world u L root_world_vacant).
  now apply (add_child_driven contextOf_value some_controllers false 8 1 2).
Qed.


(** * The root of a context *)

Lemma root_fuel (fuel : nat) :
  forall n w r, root fuel n w = Some r -> root (S fuel) n w = Some r.
Proof.
  induction fuel as [|fuel IH]; intros n w r H; [discriminate|].
  cbn [root] in *. destruct (parent (nodes w n)) as [p|]; [|assumption].
  now apply IH.
Qed.

Lemma root_ranked (rank : id -> nat) (top : nat) (w : world) :
  parent_ranked rank w ->
  (forall m, rank m <= top) ->
  forall fuel n, top - rank n < fuel ->
    exists r, root fuel n w = Some r
              /\ parent (nodes w r) = None
              /\ rank n <= rank r.
Proof.
  intros Hp Ht. induction fuel as [|fuel IH]; intros n Hf; [lia|].
  cbn [root]. destruct (parent (nodes w n)) as [p|] eqn:E.
  - pose proof (Hp n p E) as Hr. pose proof (Ht p) as Hb.
    destruct (IH p) as (r & Hroot & Hnone & Hle); [lia|].
    exists r. repeat split; [assumption|assumption|lia].
  - exists n. repeat split; [assumption|lia].
Qed.

(** X10.  The [root] getter finds the top of the tree.  In a world where the
    rank goes up from children to parents and has a top, the getter returns
    for every context, within as many frames as there are ranks above the
    context: what it returns has no parent; it is the context itself
    exactly when the context has no parent; and a context and its parent
    have the same root. *)
Theorem root_is_the_top (rank : id -> nat) (top : nat) (n : id) (w : world) :
  parent_ranked rank w ->
  (forall m, rank m <= top) ->
  exists r,
    (forall fuel, top - rank n < fuel -> root fuel n w = Some r)
    /\ parent (nodes w r) = None
    /\ (r = n <-> parent (nodes w n) = None)
    /\ (forall p, parent (nodes w n) = Some p ->
                  forall fuel, top - rank p < fuel -> root fuel p w = Some r).
Proof.
  intros Hp Ht.
  destruct (root_ranked rank top w Hp Ht (S (top - rank n)) n) as (r & Hr & Hn & Hle);
    [lia|].
  assert (Hall : forall k fuel, top - rank k < fuel ->
                   forall r', root (S (top - rank k)) k w = Some r' ->
                              root fuel k w = Some r').
  { intros k fuel Hf r' H. induction Hf as [|fuel _ IH]; [assumption|].
    now apply root_fuel. }
  exists r. split; [|split; [|split]].
  - intros fuel Hf. now apply Hall.
  - exact Hn.
  - split.
    + now intros <-.
    + intros E. cbn [root] in Hr. rewrite E in Hr. congruence.
  - intros p E fuel Hf. pose proof (Hp n p E) as Hlt. pose proof (Ht p) as Hb.
    destruct (root_ranked rank top w Hp Ht (S (top - rank p)) p) as (r' & Hr' & _);
      [lia|].
    assert (r' = r); [|subst r'; now apply Hall].
    pose proof (Hall p (top - rank n) ltac:(lia) r' Hr') as H1.
    cbn [root] in Hr. rewrite E in Hr. congruence.
Qed.

Lemma family_parent_ranked (required : bool) :
  parent_ranked depth_rank (family required).
Proof. apply (family_sound required). Qed.

Lemma root_is_the_top_witness :
  exists r, forall fuel, 10 - depth_rank 2 < fuel -> root fuel 2 (family true) = Some r.
Proof.
  assert (Ht : forall m, depth_rank m <= 10) by (intros m; unfold depth_rank; lia).
  destruct (root_is_the_top depth_rank 10 2 (family true)
              (family_parent_ranked true) Ht) as (r & H & _).
  now exists r.
Defined.

(** What the getter returns for the forked child of the root. *)
Example root_of_forked_child :
  root 3 2 (family true) = Some 1 /\ root 3 1 (family true) = Some 1.
Proof. vm_compute. split; reflexivity. Qed.

Lemma link_parents (contextOf : value -> option id) (fuel : nat)
  (n child : id) (w : world) :
  n <> child ->
  isBlocking (nodes w n) = true ->
  isBlocking (nodes w child) = true ->
  exists w',
    link contextOf (S fuel) n child w = Done w'
    /\ parent (nodes w' child) = Some n
    /\ (forall m, m <> child -> parent (nodes w' m) = parent (nodes w m))
    /\ (forall m, isBlocking (nodes w' m) = isBlocking (nodes w m)).
Proof.
  intros Hne Bn Bc. unfold link. cbn [exec dispatch]. unfold do_link.
  destruct (Nat.eqb_spec n child) as [|_]; [contradiction|].
  rewrite Bn. cbn [negb bind].
  assert (Bd : isBlocking (nodes (detach child w) child) = true).
  { unfold detach. destruct (parent (nodes w child)) as [q|]; [|exact Bc].
    unfold unlink. simpl. rewrite Nat.eqb_refl.
    destruct (Nat.eqb child q); exact Bc. }
  rewrite Bd. eexists. split; [reflexivity|].
  assert (Nc : Nat.eqb child n = false) by (apply Nat.eqb_neq; congruence).
  split; [|split].
  - unfold attach. simpl. rewrite Nc, Nat.eqb_refl. reflexivity.
  - intros m Hm. apply Nat.eqb_neq in Hm. unfold attach, detach.
    destruct (parent (nodes w child)) as [q|]; unfold unlink; simpl;
      rewrite Hm; destruct (Nat.eqb m n); try destruct (Nat.eqb m q); reflexivity.
  - intros m. unfold attach, detach.
    destruct (parent (nodes w child)) as [q|]; unfold unlink; simpl;
      destruct (Nat.eqb m n), (Nat.eqb m child); try destruct (Nat.eqb m q);
      reflexivity.
Qed.

Lemma root_cycle (a b : id) (w : world) :
  parent (nodes w a) = Some b -> parent (nodes w b) = Some a ->
  forall fuel, root fuel a w = None /\ root fuel b w = None.
Proof.
  intros Ha Hb. induction fuel as [|fuel [IHa IHb]]; [now split|].
  cbn [root]. rewrite Ha, Hb. now split.
Qed.

(** X11.  [link] refuses to link a context to itself, and nothing more: two
    contexts that are not settled can be linked each under the other, both
    calls return, and then each is the parent of the other and the [root]
    getter of either never returns, however many frames it has. *)
Theorem link_makes_cycles (contextOf : value -> option id) (f1 f2 : nat)
  (a b : id) (w : world) :
  a <> b ->
  isBlocking (nodes w a) = true ->
  isBlocking (nodes w b) = true ->
  exists w1 w2,
    link contextOf (S f1) a b w = Done w1
    /\ link contextOf (S f2) b a w1 = Done w2
    /\ parent (nodes w2 a) = Some b
    /\ parent (nodes w2 b) = Some a
    /\ forall fuel, root fuel a w2 = None /\ root fuel b w2 = None.
Proof.
  intros Hne Ba Bb.
  destruct (link_parents contextOf f1 a b w Hne Ba Bb) as (w1 & R1 & P1 & _ & B1).
  assert (Hne' : b <> a) by congruence.
  destruct (link_parents contextOf f2 b a w1 Hne') as (w2 & R2 & P2 & O2 & _).
  { now rewrite B1. }
  { now rewrite B1. }
  assert (Pb : parent (nodes w2 b) = Some a) by now rewrite (O2 b Hne').
  exists w1, w2. split; [assumption|]. split; [assumption|].
  split; [assumption|]. split; [assumption|]. now apply root_cycle.
Qed.

Lemma link_makes_cycles_witness :
  exists w1 w2,
    link contextOf_value 1 1 2 (family true) = Done w1
    /\ link contextOf_value 1 2 1 w1 = Done w2
    /\ forall fuel, root fuel 1 w2 = None.
Proof.
  assert (Hne : 1 <> 2) by discriminate.
  assert (Bn : isBlocking (nodes (family true) 1) = true) by (vm_compute; reflexivity).
  assert (Bc : isBlocking (nodes (family true) 2) = true) by (vm_compute; reflexivity).
  destruct (link_makes_cycles contextOf_value 0 0 1 2 (family true) Hne Bn Bc)
    as (w1 & w2 & R1 & R2 & _ & _ & H).
  exists w1, w2. split; [assumption|]. split; [assumption|].
  intros fuel. apply H.
Defined.

(** * Calls in a world in good order *)

Section GoodOrder.

Variable contextOf : value -> option id.
Variable rank : id -> nat.
Variable bound : nat.

(** X12.  In a world in good order every call that keeps the order returns:
    a call of [link] or [trapExit] on a child of lower rank than the
    context, a call of [resume], or of [finalize] as completed, with a
    value that embeds no context or one of lower rank than the context,
    and every call of [halt], of [fail] and of [finalize] as errored or
    halted.  Such a call does not throw, it does not run forever, and what
    it returns does not depend on the frames it is given beyond those it
    needs.  After such a call that a method makes on another ([halt],
    [fail], [link], [trapExit], [finalize] as errored or halted, and
    [finalize] as completed with a falsy result) the world is in good order
    again. *)
Theorem calls_return_in_good_order (c : call) (w : world) :
  sound contextOf rank bound w ->
  admissible contextOf rank c ->
  ordered rank c ->
  (exists fuel w', exec contextOf fuel c w = Done w')
  /\ (forall fuel, throws (exec contextOf fuel c w) = false)
  /\ (forall fuel fuel' w',
        exec contextOf fuel c w = Done w' -> fuel <= fuel' ->
        exec contextOf fuel' c w = Done w')
  /\ (forall fuel w',
        exec contextOf fuel c w = Done w' -> internal c w ->
        sound contextOf rank bound w').
Proof.
  intros Hs A Ho. split; [|split; [|split]].
  - now apply (call_returns contextOf rank bound).
  - intros fuel. apply (call_throws contextOf rank); [assumption|assumption|apply Hs].
  - intros fuel fuel' w' R L.
    rewrite (exec_le contextOf fuel fuel' L c w); [assumption|].
    now rewrite R.
  - intros fuel w' R Hi. destruct Hs as [Hb [Hr Hp]]. split.
    + assert (T : tame contextOf rank bound (unsettled bound w) w)
        by now repeat split.
      apply (tame_exec contextOf rank bound _ fuel c w w' Hi R T).
    + pose proof (exec_lands contextOf rank fuel c w Ho Hi (conj Hr Hp)) as H.
      now rewrite R in H.
Qed.

End GoodOrder.

Lemma calls_return_in_good_order_witness :
  exists fuel w',
    exec contextOf_value fuel (Halt 1 (VStr "stop")) family_of_three = Done w'.
Proof.
  exact (proj1 (calls_return_in_good_order contextOf_value depth_rank 4
                  (Halt 1 (VStr "stop")) family_of_three
                  family_of_three_sound I I)).
Defined.

(** * What no call changes *)

(** X13.  No call of [halt], [resume], [fail], [finalize], [trapExit] or [link],
    whether it returns or throws, changes whether a context is required or
    blocks on the context it returns, the exit hooks of a context (the
    hooks that [finalize] has run stay registered), its operation or the
    callbacks of its promise; none makes a context, a promise or a bound
    hook; and the log only grows. *)
Theorem calls_keep_what_is_fixed (contextOf : value -> option id) (fuel : nat)
  (c : call) (w w' : world) :
  world_of (exec contextOf fuel c w) = Some w' ->
  (forall n, isRequired (nodes w' n) = isRequired (nodes w n)
             /\ blockOnReturnedContext (nodes w' n)
                = blockOnReturnedContext (nodes w n)
             /\ exitHooks (nodes w' n) = exitHooks (nodes w n)
             /\ operation (nodes w' n) = operation (nodes w n)
             /\ resolve (nodes w' n) = resolve (nodes w n)
             /\ reject (nodes w' n) = reject (nodes w n))
  /\ ids w' = ids w
  /\ next_promise w' = next_promise w
  /\ next_run w' = next_run w
  /\ (exists d, trace w' = trace w ++ d)
  /\ (forall p, promises w p <> Pending -> promises w' p = promises w p).
Proof.
  intros R. pose proof (exec_frame contextOf fuel c w w' R) as F.
  split; [|split; [|split; [|split; [|split]]]].
  - intros n. repeat split;
      [apply (fr_required F)|apply (fr_block F)|apply (fr_hooks F)
      |apply (fr_operation F)|apply (fr_resolve F)|apply (fr_reject F)].
  - apply (fr_ids F).
  - apply (fr_next_promise F).
  - apply (fr_next_run F).
  - destruct (fr_trace F) as (d & E & _). now exists d.
  - intros p Hp. apply (fr_promises F). now left.
Qed.

Lemma calls_keep_what_is_fixed_witness :
  exitHooks (nodes (world_after (exec contextOf_value 5 (Halt 1 (VStr "stop"))
                                   hooked_world)) 1)
  = exitHooks (nodes hooked_world 1).
Proof.
  refine (proj1 (proj2 (proj2 (proj1
            (calls_keep_what_is_fixed contextOf_value 5 (Halt 1 (VStr "stop"))
               hooked_world _ (fuelled_world_of _ _)) 1)))).
  vm_compute. reflexivity.
Defined.

(** * A context resumed with itself *)

(** X14.  [resume] on a running context with a value that embeds the context
    itself throws, because [link] refuses; by then the value is stored as
    the result, and it stays: the context is running as before, with the
    new result, and nothing else has changed. *)
Theorem resume_with_itself_throws (contextOf : value -> option id) (fuel : nat)
  (n : id) (v : value) (w : world) :
  isRunning (nodes w n) = true ->
  contextOf v = Some n ->
  exists w',
    resume contextOf (S (S fuel)) n v w = Threw w'
    /\ state (nodes w' n) = running
    /\ result (nodes w' n) = v
    /\ children (nodes w' n) = children (nodes w n)
    /\ parent (nodes w' n) = parent (nodes w n)
    /\ (forall m, m <> n -> nodes w' m = nodes w m)
    /\ trace w' = trace w.
Proof.
  intros Hr Hv. unfold resume. cbn [exec dispatch]. unfold do_resume.
  assert (B : isBlocking (nodes w n) = true)
    by (unfold isBlocking; now rewrite Hr).
  rewrite B. unfold resume_link. rewrite Hr, Hv.
  cbn [exec dispatch]. unfold do_link. rewrite Nat.eqb_refl. cbn [bind].
  eexists. split; [reflexivity|]. simpl. rewrite Nat.eqb_refl. simpl.
  unfold isRunning in Hr. destruct (state (nodes w n)) as [ | | |f] eqn:E;
    try discriminate.
  repeat split.
  intros m Hm. apply Nat.eqb_neq in Hm. now rewrite Hm.
Qed.

Lemma resume_with_itself_throws_witness :
  exists w', resume contextOf_value 2 1 (VContext 1) root_world = Threw w'
             /\ result (nodes w' 1) = VContext 1.
Proof.
  assert (Hr : isRunning (nodes root_world 1) = true) by (vm_compute; reflexivity).
  destruct (resume_with_itself_throws contextOf_value 0 1 (VContext 1) root_world
              Hr eq_refl) as (w' & R & _ & E & _).
  now exists w'.
Defined.

(** * A child leaves: trapExit *)

(** Whether a context whose child has left is released: it waits, and none
    of the children it has left is required. *)
Definition released (p child : id) (w : world) : bool :=
  isWaiting (nodes w p)
  && forallb (fun c => negb (isRequired (nodes w c)))
             (set_delete child (children (nodes w p))).

Lemma unlink_state (n child : id) (w : world) (m : id) :
  state (nodes (unlink n child w) m) = state (nodes w m)
  /\ result (nodes (unlink n child w) m) = result (nodes w m)
  /\ isRequired (nodes (unlink n child w) m) = isRequired (nodes w m).
Proof.
  unfold unlink. simpl. destruct (Nat.eqb m n), (Nat.eqb m child); repeat split.
Qed.

Section TrapExit.

Variable contextOf : value -> option id.

(** The first steps of [trapExit] on a child that has not failed and whose
    result embeds no context. *)
Lemma trapExit_plain (fuel : nat) (p child : id) (w : world) :
  p <> child ->
  isErrored (nodes w child) = false ->
  (isCompleted (nodes w child) = true -> contextOf (result (nodes w child)) = None) ->
  let w1 := unlink p child (log (EvTrapExit p child) w) in
  trapExit contextOf (S fuel) p child w
  = if released p child w
    then exec contextOf fuel (Finalize p completed VUndefined) w1
    else Done w1.
Proof.
  intros Hne He Hc w1. unfold trapExit. cbn [exec dispatch]. unfold do_trapExit.
  fold w1.
  destruct (unlink_state p child (log (EvTrapExit p child) w) child) as (Es & Er & _).
  fold w1 in Es, Er. cbn [log nodes] in Es, Er.
  assert (A : adopt contextOf (exec contextOf fuel) p child w1 = Done w1).
  { unfold adopt, isCompleted in *. rewrite Es, Er.
    destruct (State_eqb (state (nodes w child)) completed); [|reflexivity].
    now rewrite Hc. }
  rewrite A. cbn [bind].
  unfold isErrored in *. rewrite Es, He.
  assert (C : isWaiting (nodes w1 p)
              && forallb (fun c => negb (isRequired (nodes w1 c)))
                         (children (nodes w1 p))
              = released p child w).
  { unfold released. f_equal.
    - unfold isWaiting, w1.
      now rewrite (proj1 (unlink_state p child (log (EvTrapExit p child) w) p)).
    - replace (children (nodes w1 p)) with (set_delete child (children (nodes w p))).
      + apply forallb_pointwise. intros c. unfold w1.
        now rewrite (proj2 (proj2 (unlink_state p child (log (EvTrapExit p child) w) c))).
      + unfold w1, unlink. simpl. rewrite Nat.eqb_refl.
        now destruct (Nat.eqb p child). }
  rewrite C. reflexivity.
Qed.

Variable rank : id -> nat.
Variable bound : nat.

(** X15.  In a world in good order, [trapExit] on a parent and a child of
    lower rank that has settled without failing, and whose result embeds no
    context if it has completed, returns, and the child has no parent.  A
    parent that waits and has no required child left completes, with the
    result it has stored: forked children keep a parent waiting, spawned
    children do not.  In every other case the parent loses the child and
    nothing else changes: a halted child does not take its parent along. *)
Theorem trapExit_releases_parent (p child : id) (w : world) :
  sound contextOf rank bound w ->
  rank child < rank p ->
  isBlocking (nodes w child) = false ->
  isErrored (nodes w child) = false ->
  (isCompleted (nodes w child) = true -> contextOf (result (nodes w child)) = None) ->
  (exists fuel w', trapExit contextOf fuel p child w = Done w')
  /\ forall fuel w', trapExit contextOf fuel p child w = Done w' ->
       parent (nodes w' child) = None
       /\ (released p child w = true ->
           state (nodes w' p) = completed
           /\ result (nodes w' p) = result (nodes w p))
       /\ (released p child w = false ->
           children (nodes w' p) = set_delete child (children (nodes w p))
           /\ (forall m, state (nodes w' m) = state (nodes w m)
                         /\ result (nodes w' m) = result (nodes w m))
           /\ (forall m, m <> p -> children (nodes w' m) = children (nodes w m))
           /\ trace w' = trace w ++ [EvTrapExit p child]).
Proof.
  intros Hs Hr Bc He Hc. split.
  { apply (call_returns contextOf rank bound (TrapExit p child) w Hs I Hr). }
  intros fuel w' R.
  assert (Hne : p <> child) by (intros ->; lia).
  split.
  { destruct (exec_leaves_detached contextOf fuel (TrapExit p child) w w' R)
      as [_ H]. now apply H. }
  destruct fuel as [|fuel]; [discriminate|].
  rewrite (trapExit_plain fuel p child w Hne He Hc) in R.
  set (w1 := unlink p child (log (EvTrapExit p child) w)) in *.
  destruct (released p child w) eqn:Rel; (split; [|intros D]);
    try discriminate; try intros _.
  - assert (B1 : isBlocking (nodes w1 p) = true).
    { unfold released in Rel. apply andb_prop in Rel. destruct Rel as [Wp _].
      unfold isBlocking, isRunning, isWaiting, isUnstarted in *. unfold w1.
      rewrite (proj1 (unlink_state p child (log (EvTrapExit p child) w) p)).
      cbn [log nodes]. rewrite Wp. now rewrite orb_true_r. }
    destruct (finalize_outcome contextOf fuel p completed VUndefined w1 w' B1)
      as [Es Er]; [now rewrite R|].
    split; [exact Es|]. rewrite Er. simpl.
    apply (proj1 (proj2 (unlink_state p child (log (EvTrapExit p child) w) p))).
  - injection R as <-. split; [|split; [|split]].
    + unfold w1, unlink. simpl. rewrite Nat.eqb_refl.
      now destruct (Nat.eqb p child).
    + intros m. split; apply (unlink_state p child (log (EvTrapExit p child) w) m).
    + intros m Hm. apply Nat.eqb_neq in Hm. unfold w1, unlink. simpl.
      rewrite Hm. now destruct (Nat.eqb m child).
    + reflexivity.
Qed.

End TrapExit.

Lemma halted_child_sound :
  sound contextOf_value depth_rank 3 (settle_node 2 halted VUndefined waiting_family).
Proof.
  repeat split.
  - intros [|[|[|?]]]; vm_compute; intros; (lia || discriminate).
  - intros [|[|[|?]]] ?; vm_compute; intros; discriminate.
  - intros [|[|[|?]]] ?; vm_compute; intros H; try discriminate;
      injection H as <-; lia.
Qed.

Lemma trapExit_releases_parent_witness :
  exists fuel w',
    trapExit contextOf_value fuel 1 2 (settle_node 2 halted VUndefined waiting_family)
    = Done w'.
Proof.
  assert (R : depth_rank 2 < depth_rank 1) by (vm_compute; lia).
  assert (B : isBlocking (nodes (settle_node 2 halted VUndefined waiting_family) 2)
              = false) by (vm_compute; reflexivity).
  assert (E : isErrored (nodes (settle_node 2 halted VUndefined waiting_family) 2)
              = false) by (vm_compute; reflexivity).
  assert (C : isCompleted (nodes (settle_node 2 halted VUndefined waiting_family) 2)
              = true ->
              contextOf_value
                (result (nodes (settle_node 2 halted VUndefined waiting_family) 2))
              = None) by (vm_compute; reflexivity).
  exact (proj1 (trapExit_releases_parent contextOf_value depth_rank 3 1 2
                  (settle_node 2 halted VUndefined waiting_family)
                  halted_child_sound R B E C)).
Defined.

(** The root waited with the result 42 for its forked child only: when the
    child is halted the root completes with 42. *)
Example halted_fork_releases_root :
  let w := settle_node 2 halted VUndefined waiting_family in
  let w' := world_after (trapExit contextOf_value 5 1 2 w) in
  released 1 2 w = true
  /\ state (nodes w' 1) = completed
  /\ result (nodes w' 1) = VNum 42.
Proof. vm_compute. repeat split. Qed.

Lemma detach_state (child : id) (w : world) (m : id) :
  state (nodes (detach child w) m) = state (nodes w m)
  /\ result (nodes (detach child w) m) = result (nodes w m)
  /\ isRequired (nodes (detach child w) m) = isRequired (nodes w m).
Proof.
  unfold detach. destruct (parent (nodes w child)); [apply unlink_state|now repeat split].
Qed.

Lemma attach_state (n child : id) (w : world) (m : id) :
  state (nodes (attach n child w) m) = state (nodes w m)
  /\ result (nodes (attach n child w) m) = result (nodes w m)
  /\ isRequired (nodes (attach n child w) m) = isRequired (nodes w m).
Proof.
  unfold attach. simpl. destruct (Nat.eqb m n), (Nat.eqb m child); repeat split.
Qed.

Lemma isBlocking_state (x y : node) : state x = state y -> isBlocking x = isBlocking y.
Proof.
  intros E. unfold isBlocking, isRunning, isWaiting, isUnstarted. now rewrite E.
Qed.

(** X16.  A hand-off reaches a parent that goes on.  When a child has
    completed with a result that embeds a context other than the parent
    that is not settled, and the parent is not settled and either does not
    wait or the embedded context is required, [trapExit] returns, takes the child out
    and links the embedded context in its place: the context has the parent
    as its parent, is among its children and among those of no former
    parent, and no state and no result changes. *)
Theorem trapExit_adopts (contextOf : value -> option id) (fuel : nat)
  (p child k : id) (w : world) :
  p <> k ->
  isCompleted (nodes w child) = true ->
  contextOf (result (nodes w child)) = Some k ->
  isBlocking (nodes w p) = true ->
  isBlocking (nodes w k) = true ->
  isWaiting (nodes w p) = false \/ isRequired (nodes w k) = true ->
  exists w',
    trapExit contextOf (S (S fuel)) p child w = Done w'
    /\ parent (nodes w' k) = Some p
    /\ In k (children (nodes w' p))
    /\ ~ In child (children (nodes w' p))
    /\ parent (nodes w' child) = None
    /\ (forall q, parent (nodes w k) = Some q -> q <> p ->
                  ~ In k (children (nodes w' q)))
    /\ (forall m, state (nodes w' m) = state (nodes w m)
                  /\ result (nodes w' m) = result (nodes w m))
    /\ trace w' = trace w ++ [EvTrapExit p child].
Proof.
  intros Hne Hc Hk Bp Bk Hw.
  assert (Nck : child <> k).
  { intros ->. unfold isCompleted, isBlocking, isRunning, isWaiting, isUnstarted in *.
    destruct (state (nodes w k)) as [ | | |[ | | ]]; discriminate. }
  assert (Ncp : child <> p).
  { intros ->. unfold isCompleted, isBlocking, isRunning, isWaiting, isUnstarted in *.
    destruct (state (nodes w p)) as [ | | |[ | | ]]; discriminate. }
  unfold trapExit. cbn [exec dispatch]. unfold do_trapExit.
  set (w0 := log (EvTrapExit p child) w).
  set (w1 := unlink p child w0).
  assert (S1 : forall m, state (nodes w1 m) = state (nodes w m)
                         /\ result (nodes w1 m) = result (nodes w m)
                         /\ isRequired (nodes w1 m) = isRequired (nodes w m))
    by (intros m; apply (unlink_state p child w0 m)).
  unfold adopt. unfold isCompleted in *.
  rewrite (proj1 (S1 child)), Hc, (proj1 (proj2 (S1 child))), Hk.
  cbn [exec dispatch]. unfold do_link.
  destruct (Nat.eqb_spec p k) as [|_]; [contradiction|].
  rewrite (isBlocking_state (nodes w1 p) (nodes w p) (proj1 (S1 p))), Bp.
  cbn [negb bind].
  set (w2 := detach k w1).
  assert (S2 : forall m, state (nodes w2 m) = state (nodes w m)
                         /\ result (nodes w2 m) = result (nodes w m)
                         /\ isRequired (nodes w2 m) = isRequired (nodes w m)).
  { intros m. destruct (detach_state k w1 m) as (A & B & C).
    destruct (S1 m) as (A1 & B1 & C1). unfold w2. repeat split; congruence. }
  rewrite (isBlocking_state (nodes w2 k) (nodes w k) (proj1 (S2 k))), Bk.
  cbn [bind].
  set (w3 := attach p k w2).
  assert (S3 : forall m, state (nodes w3 m) = state (nodes w m)
                         /\ result (nodes w3 m) = result (nodes w m)
                         /\ isRequired (nodes w3 m) = isRequired (nodes w m)).
  { intros m. destruct (attach_state p k w2 m) as (A & B & C).
    destruct (S2 m) as (A1 & B1 & C1). unfold w3. repeat split; congruence. }
  assert (Ck : In k (children (nodes w3 p))).
  { unfold w3. rewrite attach_children, Nat.eqb_refl. apply set_add_present. }
  unfold isErrored. rewrite (proj1 (S3 child)).
  replace (State_eqb (state (nodes w child)) errored) with false
    by (destruct (state (nodes w child)) as [ | | |[ | | ]]; try discriminate;
        reflexivity).
  assert (Hcond : isWaiting (nodes w3 p)
                  && forallb (fun c => negb (isRequired (nodes w3 c)))
                             (children (nodes w3 p)) = false).
  { destruct Hw as [Hw|Hw].
    - unfold isWaiting in *. now rewrite (proj1 (S3 p)), Hw.
    - apply andb_false_iff. right.
      destruct (forallb _ _) eqn:Fa; [|reflexivity].
      rewrite forallb_forall in Fa. specialize (Fa k Ck).
      now rewrite (proj2 (proj2 (S3 k))), Hw in Fa. }
  rewrite Hcond. exists w3. split; [reflexivity|].
  assert (Ekc : Nat.eqb k child = false) by (apply Nat.eqb_neq; congruence).
  assert (Ecp : Nat.eqb child p = false) by now apply Nat.eqb_neq.
  assert (P1 : parent (nodes w1 child) = None).
  { unfold w1. now rewrite unlink_parent, Nat.eqb_refl. }
  assert (C1 : ~ In child (children (nodes w1 p))).
  { unfold w1. rewrite unlink_children, Nat.eqb_refl. apply set_delete_absent. }
  assert (D2 : forall m,
             (In child (children (nodes w2 m)) -> In child (children (nodes w1 m)))
             /\ (m = child -> parent (nodes w2 m) = parent (nodes w1 m))).
  { intros m. unfold w2, detach. destruct (parent (nodes w1 k)) as [q|]; [|now split].
    rewrite unlink_children, unlink_parent. split.
    - destruct (Nat.eqb m q); [|auto]. intros H. now apply set_delete_In in H.
    - intros ->. apply Nat.eqb_neq in Nck. now rewrite Nck. }
  split; [|split; [|split; [|split; [|split; [|split]]]]].
  - unfold w3. now rewrite attach_parent, Nat.eqb_refl.
  - exact Ck.
  - unfold w3. rewrite attach_children, Nat.eqb_refl. intros H.
    unfold set_add in H. destruct (existsb (Nat.eqb k) (children (nodes w2 p))).
    + apply (proj1 (D2 p)) in H. contradiction.
    + apply in_app_or in H. destruct H as [H|[H|[]]]; [|congruence].
      apply (proj1 (D2 p)) in H. contradiction.
  - unfold w3. rewrite attach_parent.
    replace (Nat.eqb child k) with false by (symmetry; now apply Nat.eqb_neq).
    now rewrite (proj2 (D2 child) eq_refl).
  - intros q Hq Nq. unfold w3. rewrite attach_children.
    replace (Nat.eqb q p) with false by (symmetry; now apply Nat.eqb_neq).
    assert (Pk : parent (nodes w1 k) = Some q).
    { unfold w1. rewrite unlink_parent, Ekc. exact Hq. }
    unfold w2, detach. rewrite Pk, unlink_children, Nat.eqb_refl.
    apply set_delete_absent.
  - intros m. split; apply S3.
  - unfold w3, attach, w2, detach. now destruct (parent (nodes w1 k)).
Qed.

Lemma trapExit_adopts_witness :
  exists w',
    trapExit contextOf_value 2 1 2
      (settle_node 2 completed (VContext 3) nested_family) = Done w'
    /\ parent (nodes w' 3) = Some 1.
Proof.
  assert (Hne : 1 <> 3) by discriminate.
  assert (Hc : isCompleted (nodes (settle_node 2 completed (VContext 3) nested_family) 2)
               = true) by (vm_compute; reflexivity).
  assert (Hk : contextOf_value
                 (result (nodes (settle_node 2 completed (VContext 3) nested_family) 2))
               = Some 3) by (vm_compute; reflexivity).
  assert (Bp : isBlocking (nodes (settle_node 2 completed (VContext 3) nested_family) 1)
               = true) by (vm_compute; reflexivity).
  assert (Bk : isBlocking (nodes (settle_node 2 completed (VContext 3) nested_family) 3)
               = true) by (vm_compute; reflexivity).
  assert (Hw : isWaiting (nodes (settle_node 2 completed (VContext 3) nested_family) 1)
               = false) by (vm_compute; reflexivity).
  destruct (trapExit_adopts contextOf_value 0 1 2 3
              (settle_node 2 completed (VContext 3) nested_family)
              Hne Hc Hk Bp Bk (or_introl Hw))
    as (w' & R & P & _).
  exists w'. split; assumption.
Defined.

(** The child 3 of the completed child 2 moves under the root. *)
Example hand_off_reaches_the_root :
  let w := settle_node 2 completed (VContext 3) nested_family in
  let w' := world_after (trapExit contextOf_value 2 1 2 w) in
  parent (nodes w 3) = Some 2
  /\ children (nodes w 1) = [2]
  /\ parent (nodes w' 3) = Some 1
  /\ children (nodes w' 1) = [3]
  /\ children (nodes w' 2) = []
  /\ state (nodes w' 3) = running.
Proof. vm_compute. repeat split. Qed.

(** * Halting a context halts what is below it *)

(** The contexts below [n]: [n] itself and, from child to child, the
    contexts that are not settled. *)
Inductive descends (w : world) (n : id) : id -> Prop :=
| descends_self : isBlocking (nodes w n) = true -> descends w n n
| descends_child (m c : id) :
    descends w n m -> In c (children (nodes w m)) ->
    isBlocking (nodes w c) = true -> descends w n c.

Lemma descends_blocking (w : world) (n m : id) :
  descends w n m -> isBlocking (nodes w m) = true.
Proof. now destruct 1. Qed.

Lemma descends_root (w : world) (n m : id) :
  descends w n m -> isBlocking (nodes w n) = true.
Proof. induction 1; assumption. Qed.

Lemma descends_trans (w : world) (n m k : id) :
  descends w n m -> descends w m k -> descends w n k.
Proof.
  intros H1 H2. induction H2 as [|j c Hj IH Hin Bc]; [assumption|].
  now apply (descends_child w n j c).
Qed.

Lemma descends_mono (u w : world) (n m : id) :
  (forall k, isBlocking (nodes u k) = true -> isBlocking (nodes w k) = true) ->
  (forall k c, In c (children (nodes u k)) -> In c (children (nodes w k))) ->
  descends u n m -> descends w n m.
Proof.
  intros Hb Hc. induction 1 as [B|j c Hj IH Hin Bc].
  - apply descends_self. now apply Hb.
  - apply (descends_child w n j c); auto.
Qed.

Lemma foreach_done_in {A : Type} (body : A -> world -> outcome) (P : world -> Prop)
  (l : list A) :
  (forall x w w', In x l -> P w -> body x w = Done w' -> P w') ->
  forall w w', P w -> foreach body l w = Done w' -> P w'.
Proof.
  induction l as [|x l IH]; intros Hb w w' Pw R; simpl in R.
  - now injection R as <-.
  - apply bind_done in R. destruct R as (w1 & R1 & R).
    apply (IH (fun y u u' Hy => Hb y u u' (or_intror Hy)) w1 w'); [|assumption].
    apply (Hb x w w1); [now left|assumption|assumption].
Qed.

Lemma isWaiting_blocking (x : node) : isBlocking x = false -> isWaiting x = false.
Proof.
  unfold isBlocking. destruct (isRunning x), (isWaiting x); simpl; congruence.
Qed.

Section Cascade.

Variable contextOf : value -> option id.

(** The reason that the halt was given. *)
Variable r : value.

Set Implicit Arguments.

(** What a cascade of halts does, from [w] to [w']. *)
Record cascade (w w' : world) : Prop := Cascade {
  (* settled contexts stay as they are, and get no children *)
  ca_settled : forall m, isBlocking (nodes w m) = false ->
      isBlocking (nodes w' m) = false
      /\ state (nodes w' m) = state (nodes w m)
      /\ result (nodes w' m) = result (nodes w m);
  (* no context gets a child *)
  ca_shrink : forall m c,
      In c (children (nodes w' m)) -> In c (children (nodes w m));
  (* the contexts that are not settled afterwards are untouched *)
  ca_blocking : forall m, isBlocking (nodes w' m) = true ->
      state (nodes w' m) = state (nodes w m)
      /\ result (nodes w' m) = result (nodes w m)
      /\ parent (nodes w' m) = parent (nodes w m);
  ca_block : forall m,
      blockOnReturnedContext (nodes w' m) = blockOnReturnedContext (nodes w m);
  (* parents are lost, never changed *)
  ca_parent : forall m,
      parent (nodes w' m) = parent (nodes w m) \/ parent (nodes w' m) = None;
  (* what has settled is halted *)
  ca_halted : forall m, isBlocking (nodes w m) = true ->
      isBlocking (nodes w' m) = false ->
      state (nodes w' m) = halted
      /\ result (nodes w' m) = js_or r (result (nodes w m));
  (* what has settled keeps no child that is not settled, but the one it
     hands off *)
  ca_children : forall x, isBlocking (nodes w x) = true ->
      isBlocking (nodes w' x) = false ->
      forall c, In c (children (nodes w' x)) -> isBlocking (nodes w' c) = true ->
                blockOnReturnedContext (nodes w x) = false
                /\ embeds contextOf (result (nodes w' x)) c = true
}.

Unset Implicit Arguments.

Lemma blocking_or_not (x : node) : isBlocking x = true \/ isBlocking x = false.
Proof. destruct (isBlocking x); auto. Qed.

Lemma cascade_shape (w w' : world) :
  (forall m, state (nodes w' m) = state (nodes w m)
             /\ result (nodes w' m) = result (nodes w m)
             /\ blockOnReturnedContext (nodes w' m)
                = blockOnReturnedContext (nodes w m)
             /\ (forall c, In c (children (nodes w' m)) -> In c (children (nodes w m)))
             /\ (parent (nodes w' m) = parent (nodes w m)
                 \/ (parent (nodes w' m) = None /\ isBlocking (nodes w m) = false))) ->
  cascade w w'.
Proof.
  intros E.
  assert (Eb : forall m, isBlocking (nodes w' m) = isBlocking (nodes w m)).
  { intros m. unfold isBlocking, isRunning, isWaiting, isUnstarted.
    now rewrite (proj1 (E m)). }
  constructor.
  - intros m B. destruct (E m) as (Es & Er & _ & Ec & _).
    rewrite Eb. repeat split; assumption.
  - intros m. apply E.
  - intros m B. destruct (E m) as (Es & Er & _ & _ & Ep).
    rewrite Eb in B. repeat split; try assumption.
    destruct Ep as [Ep|[_ Ep]]; [assumption|congruence].
  - intros m. apply E.
  - intros m. destruct (E m) as (_ & _ & _ & _ & [Ep|[Ep _]]); auto.
  - intros m B B'. rewrite Eb in B'. congruence.
  - intros m B B'. rewrite Eb in B'. congruence.
Qed.

Lemma cascade_nodes (w w' : world) : nodes w' = nodes w -> cascade w w'.
Proof. intros E. apply cascade_shape. intros m. rewrite E. repeat split; auto. Qed.

Lemma cascade_refl (w : world) : cascade w w.
Proof. now apply cascade_nodes. Qed.

Lemma cascade_unlink (p x : id) (w : world) :
  isBlocking (nodes w x) = false -> cascade w (unlink p x w).
Proof.
  intros B. apply cascade_shape. intros m.
  destruct (unlink_state p x w m) as (Es & Er & _).
  split; [exact Es|]. split; [exact Er|]. split; [|split].
  - unfold unlink. simpl. now destruct (Nat.eqb m p), (Nat.eqb m x).
  - rewrite unlink_children. destruct (Nat.eqb m p); [|auto].
    intros c H. now apply set_delete_In in H.
  - rewrite unlink_parent. destruct (Nat.eqb_spec m x) as [->|]; auto.
Qed.

Lemma cascade_trans (w1 w2 w3 : world) :
  cascade w1 w2 -> cascade w2 w3 -> cascade w1 w3.
Proof.
  intros A B. constructor.
  - intros m H. destruct (ca_settled A m H) as (H2 & Es & Er).
    destruct (ca_settled B m H2) as (H3 & Es' & Er').
    repeat split; congruence.
  - intros m c H. apply (ca_shrink A), (ca_shrink B), H.
  - intros m H.
    assert (H2 : isBlocking (nodes w2 m) = true).
    { destruct (blocking_or_not (nodes w2 m)) as [|N]; [assumption|].
      destruct (ca_settled B m N) as (N3 & _). congruence. }
    destruct (ca_blocking B m H) as (Es & Er & Ep).
    destruct (ca_blocking A m H2) as (Es' & Er' & Ep').
    repeat split; congruence.
  - intros m. rewrite (ca_block B), (ca_block A). reflexivity.
  - intros m. destruct (ca_parent B m) as [E|E]; [|now right].
    destruct (ca_parent A m) as [E'|E']; [left|right]; congruence.
  - intros m H1 H3. destruct (blocking_or_not (nodes w2 m)) as [H2|H2].
    + destruct (ca_halted B m H2 H3) as [Es Er].
      destruct (ca_blocking A m H2) as (_ & Er' & _). split; congruence.
    + destruct (ca_halted A m H1 H2) as [Es Er].
      destruct (ca_settled B m H2) as (_ & Es' & Er'). split; congruence.
  - intros x H1 H3 c Hc Bc. destruct (blocking_or_not (nodes w2 x)) as [H2|H2].
    + destruct (ca_children B x H2 H3 c Hc Bc) as [Eb Ee].
      split; [|assumption]. now rewrite <- (ca_block A).
    + destruct (ca_settled B x H2) as (_ & _ & Er).
      pose proof (ca_shrink B x) as Ec.
      assert (Bc2 : isBlocking (nodes w2 c) = true).
      { destruct (blocking_or_not (nodes w2 c)) as [|N]; [assumption|].
        destruct (ca_settled B c N) as (N3 & _). congruence. }
      destruct (ca_children A x H1 H2 c (Ec c Hc) Bc2) as [Eb Ee].
      split; [assumption|]. now rewrite Er.
Qed.

(** The calls of a cascade: [halt] and [finalize] as halted, with the
    reason, on a context whose parent does not wait, and the [trapExit]
    that a halted context calls on such a parent. *)
Definition cascading (c : call) (w : world) : Prop :=
  match c with
  | Halt x r' =>
      r' = r /\ forall p, parent (nodes w x) = Some p -> isWaiting (nodes w p) = false
  | Finalize x s r' =>
      s = halted /\ r' = r
      /\ forall p, parent (nodes w x) = Some p -> isWaiting (nodes w p) = false
  | TrapExit p x => isWaiting (nodes w p) = false /\ isHalted (nodes w x) = true
  | _ => False
  end.

(** What such a call settles is below the context it is called on. *)
Definition settles_below (c : call) (w w' : world) : Prop :=
  match c with
  | Halt x _ | Finalize x _ _ =>
      forall m, isBlocking (nodes w m) = true -> isBlocking (nodes w' m) = false ->
                descends w x m
  | _ => forall m, isBlocking (nodes w' m) = isBlocking (nodes w m)
  end.

Lemma cascade_unblocks (w w' : world) (m : id) :
  cascade w w' -> isBlocking (nodes w' m) = true -> isBlocking (nodes w m) = true.
Proof.
  intros C B. destruct (blocking_or_not (nodes w m)) as [|N]; [assumption|].
  destruct (ca_settled C m N) as (N' & _). congruence.
Qed.

Lemma exec_cascade (fuel : nat) :
  forall c w w', linked w -> cascading c w ->
                 exec contextOf fuel c w = Done w' ->
                 cascade w w' /\ settles_below c w w'.
Proof.
  induction fuel as [|fuel IH]; intros c w w' L Hc R; [discriminate|].
  pose proof R as R0. cbn [exec] in R.
  destruct c as [x r'|x v|x e|x s r'|p x|p x]; cbn [dispatch] in R;
    try contradiction.
  - (* halt *)
    destruct Hc as [-> Hp]. unfold do_halt in R.
    destruct (isBlocking (nodes w x)) eqn:B.
    + apply (IH _ _ _ L) in R; [assumption|now repeat split].
    + injection R as <-. split; [apply cascade_refl|].
      intros m Bm Bm'. congruence.
  - (* finalize *)
    destruct Hc as (-> & -> & Hp). unfold do_finalize in R.
    destruct (isBlocking (nodes w x)) eqn:B.
    2:{ injection R as <-. split; [apply cascade_refl|].
        intros m Bm Bm'. congruence. }
    destruct (finalize_trace contextOf (S fuel) x halted r w w' B R0)
      as (_ & _ & _ & _ & Hkids).
    destruct (settle_node_spec x halted r w) as (Es2 & Er2 & Ec2 & _ & Eb2 & S2 & _).
    set (w2 := settle_node x halted r w) in *.
    assert (N2 : forall m, m <> x -> nodes w2 m = nodes w m).
    { intros m Hm. apply Nat.eqb_neq in Hm. unfold w2, settle_node. simpl.
      now rewrite Hm. }
    assert (P2 : forall m, parent (nodes w2 m) = parent (nodes w m)).
    { intros m. unfold w2, settle_node. simpl. now destruct (Nat.eqb m x). }
    assert (K2 : forall m, children (nodes w2 m) = children (nodes w m)).
    { intros m. unfold w2, settle_node. simpl. now destruct (Nat.eqb m x). }
    assert (B2 : forall m, isBlocking (nodes w2 m) = true ->
                           isBlocking (nodes w m) = true).
    { intros m Bm. assert (Hm : m <> x) by congruence. now rewrite <- (N2 m Hm). }
    assert (L2 : linked w2) by now apply linked_settle_node.
    apply bind_done in R. destruct R as (w3 & R3 & R).
    apply bind_done in R. destruct R as (w5 & R5 & R). injection R as <-.
    assert (H3 : cascade w2 w3 /\ linked w3
                 /\ forall m, isBlocking (nodes w2 m) = true ->
                              isBlocking (nodes w3 m) = false -> descends w x m).
    { revert R3.
      apply (foreach_done_in _
               (fun u => cascade w2 u /\ linked u
                         /\ forall m, isBlocking (nodes w2 m) = true ->
                                      isBlocking (nodes u m) = false ->
                                      descends w x m)).
      2:{ split; [apply cascade_refl|]. split; [assumption|].
          intros m Bm Bm'. congruence. }
      intros c u u' Hin (Cu & Lu & Du) Ru. unfold halt_child in Ru.
      destruct (_ || _);
        [|injection Ru as <-; split; [assumption|split; assumption]].
      set (u0 := log (EvHaltChild x c r) u) in *.
      assert (L0 : linked u0) by now apply (linked_nodes u).
      apply in_rev in Hin.
      assert (Hc0 : cascading (Halt c r) u0).
      { split; [reflexivity|]. intros p Ep. cbn [u0 log nodes] in *.
        pose proof (proj1 (proj1 L2 x c) Hin) as Pc.
        destruct (ca_parent Cu c) as [E|E]; [|congruence].
        assert (p = x) by congruence. subst p.
        apply isWaiting_blocking. apply (ca_settled Cu x S2). }
      destruct (IH _ _ _ L0 Hc0 Ru) as [C' D'].
      assert (Cu' : cascade w2 u').
      { apply (cascade_trans _ _ _ Cu).
        apply (cascade_trans _ u0); [now apply cascade_nodes|assumption]. }
      split; [exact Cu'|]. split.
      - pose proof (exec_linked contextOf fuel (Halt c r) u0 I L0) as L'.
        now rewrite Ru in L'.
      - intros m Bm Bm'. destruct (blocking_or_not (nodes u m)) as [Bu|Bu];
          [|now apply Du].
        specialize (D' m Bu Bm'). cbn [settles_below] in D'.
        assert (Hm : descends w c m).
        { revert D'. apply descends_mono.
          - intros k Bk. apply B2. now apply (cascade_unblocks w2 u).
          - intros k j Hj. rewrite <- K2. now apply (ca_shrink Cu). }
        apply (descends_trans w x c m); [|assumption].
        apply (descends_child w x x c);
          [now apply descends_self|now rewrite <- K2|].
        now apply (descends_root w c m). }
    destruct H3 as (C3 & L3 & D3).
    set (w4 := run_hooks x (rev (exitHooks (nodes w3 x))) w3) in *.
    assert (E4 : nodes w4 = nodes w3) by apply run_hooks_nodes.
    assert (C4 : cascade w2 w4)
      by (apply (cascade_trans _ _ _ C3); now apply cascade_nodes).
    assert (L4 : linked w4) by now apply (linked_nodes w3).
    assert (C5 : cascade w4 w5
                 /\ forall m, isBlocking (nodes w5 m) = isBlocking (nodes w4 m)).
    { unfold notify_parent in R5. destruct (parent (nodes w4 x)) as [p|] eqn:Ep;
        [|injection R5 as <-; split; [apply cascade_refl|reflexivity]].
      apply (IH _ _ _ L4) in R5; [assumption|]. split.
      - destruct (blocking_or_not (nodes w4 p)) as [Bp|Bp];
          [|now apply isWaiting_blocking].
        destruct (ca_blocking C4 p Bp) as (Es & _).
        unfold isWaiting. rewrite Es.
        destruct (Nat.eq_dec p x) as [->|Np]; [now rewrite Es2|].
        rewrite (N2 p Np). apply Hp.
        destruct (ca_parent C4 x) as [E|E]; congruence.
      - unfold isHalted. destruct (ca_settled C4 x S2) as (_ & Es & _).
        now rewrite Es, Es2. }
    destruct C5 as [C5 D5].
    assert (C2 : cascade w2 (finalizePromise x w5)).
    { apply (cascade_trans _ _ _ C4). apply (cascade_trans _ _ _ C5).
      apply cascade_nodes, finalizePromise_nodes. }
    assert (E5 : nodes (finalizePromise x w5) = nodes w5)
      by apply finalizePromise_nodes.
    set (w' := finalizePromise x w5) in *.
    destruct (ca_settled C2 x S2) as (Bx' & Esx & Erx).
    pose proof (ca_shrink C2 x) as Ecx.
    split.
    2:{ intros m Bm Bm'. destruct (Nat.eq_dec m x) as [->|Hm];
          [now apply descends_self|].
        apply D3; [now rewrite (N2 m Hm)|].
        rewrite E5, D5, E4 in Bm'. exact Bm'. }
    constructor.
    + intros m Bm. assert (Hm : m <> x) by congruence.
      rewrite <- (N2 m Hm) in *. now apply (ca_settled C2).
    + intros m c Hin. rewrite <- K2. now apply (ca_shrink C2).
    + intros m Bm. assert (Hm : m <> x) by congruence.
      rewrite <- (N2 m Hm). now apply (ca_blocking C2).
    + intros m. rewrite (ca_block C2). unfold w2, settle_node. simpl.
      now destruct (Nat.eqb m x).
    + intros m. rewrite <- P2. apply (ca_parent C2).
    + intros m Bm Bm'. destruct (Nat.eq_dec m x) as [->|Hm].
      * split; congruence.
      * rewrite <- (N2 m Hm) in *. now apply (ca_halted C2).
    + intros m Bm Bm' c Hin Bc. destruct (Nat.eq_dec m x) as [->|Hm].
      * specialize (Ecx c Hin). rewrite Ec2 in Ecx.
        specialize (Hkids c Ecx). unfold halts_child in Hkids.
        destruct (blockOnReturnedContext (nodes w x)); simpl in Hkids;
          [rewrite Hkids in Bc by reflexivity; discriminate|].
        split; [reflexivity|]. rewrite Erx, Er2.
        destruct (embeds contextOf (js_or r (result (nodes w x))) c);
          [reflexivity|].
        rewrite Hkids in Bc by reflexivity. discriminate.
      * rewrite <- (N2 m Hm) in *. now apply (ca_children C2 m).
  - (* trapExit *)
    destruct Hc as [Wp Hx]. unfold do_trapExit in R.
    set (w0 := log (EvTrapExit p x) w) in *.
    set (w1 := unlink p x w0) in *.
    destruct (unlink_state p x w0 x) as (Esx & _).
    destruct (unlink_state p x w0 p) as (Esp & _).
    fold w1 in Esx, Esp. cbn [w0 log nodes] in Esx, Esp.
    assert (Bx : isBlocking (nodes w x) = false).
    { unfold isHalted in Hx. unfold isBlocking, isRunning, isWaiting, isUnstarted.
      now destruct (state (nodes w x)) as [ | | |[ | | ]]. }
    assert (Sx : state (nodes w1 x) = halted).
    { rewrite Esx. unfold isHalted in Hx.
      now destruct (state (nodes w x)) as [ | | |[ | | ]]. }
    unfold adopt, isCompleted, isErrored, isWaiting in *.
    rewrite Sx in R. cbn [State_eqb Final_eqb bind] in R.
    rewrite Sx in R. cbn [State_eqb Final_eqb] in R.
    rewrite Esp, Wp in R. cbn [andb] in R.
    injection R as <-. split.
    + apply (cascade_trans _ w0); [now apply cascade_nodes|].
      now apply cascade_unlink.
    + intros m. apply isBlocking_state.
      apply (unlink_state p x w0 m).
Qed.

(** X17.  Halting a context halts everything below it, and nothing else.  In a
    world in good order, where children and parents agree, [halt] on a
    context that is not settled and whose parent does not wait returns.
    If no context below hands a child off (each blocks on the context it
    returns, or has a result that, after the halt, embeds none of its
    children), then every context below, however deep, is halted, with the
    reason as its result where the reason is truthy and the result it had
    where not; and no context that is not below is settled by the call. *)
Theorem halt_reaches_every_descendant (rank : id -> nat) (bound : nat)
  (n : id) (w : world) :
  sound contextOf rank bound w ->
  linked w ->
  isBlocking (nodes w n) = true ->
  (forall p, parent (nodes w n) = Some p -> isWaiting (nodes w p) = false) ->
  (exists fuel w', halt contextOf fuel n r w = Done w')
  /\ forall fuel w', halt contextOf fuel n r w = Done w' ->
       ((forall m c, descends w n m -> In c (children (nodes w m)) ->
                     halts_child contextOf (blockOnReturnedContext (nodes w m))
                       (js_or r (result (nodes w m))) c = true) ->
        forall m, descends w n m ->
                  state (nodes w' m) = halted
                  /\ result (nodes w' m) = js_or r (result (nodes w m)))
       /\ (forall m, isBlocking (nodes w m) = true ->
                     isBlocking (nodes w' m) = false -> descends w n m).
Proof.
  intros Hs L B Hp. split.
  { apply (call_returns contextOf rank bound (Halt n r) w Hs I I). }
  intros fuel w' R. unfold halt in R.
  destruct (exec_cascade fuel (Halt n r) w w' L) as [C D];
    [now split|assumption|].
  split; [|exact D]. intros Hno.
  assert (L' : linked w').
  { pose proof (exec_linked contextOf fuel (Halt n r) w I L) as H.
    now rewrite R in H. }
  assert (Bn' : isBlocking (nodes w' n) = false).
  { destruct (halt_outcome contextOf fuel n r w w' B) as [Es _];
      [unfold halt; now rewrite R|].
    unfold isBlocking, isRunning, isWaiting, isUnstarted. now rewrite Es. }
  assert (Hd : forall m, descends w n m -> isBlocking (nodes w' m) = false).
  { induction 1 as [|m c Hm IHm Hin Bc]; [assumption|].
    destruct (blocking_or_not (nodes w' c)) as [Bc'|]; [|assumption].
    exfalso.
    pose proof (descends_blocking w n m Hm) as Bm.
    assert (Hin' : In c (children (nodes w' m))).
    { apply (proj1 L'). destruct (ca_blocking C c Bc') as (_ & _ & ->).
      now apply (proj1 L). }
    destruct (ca_children C m Bm IHm c Hin' Bc') as [Eb Ee].
    destruct (ca_halted C m Bm IHm) as [_ Er]. rewrite Er in Ee.
    specialize (Hno m c Hm Hin). unfold halts_child in Hno.
    rewrite Eb, Ee in Hno. discriminate. }
  intros m Hm. apply (ca_halted C m (descends_blocking w n m Hm) (Hd m Hm)).
Qed.

End Cascade.

Lemma nested_family_sound : sound contextOf_value depth_rank 4 nested_family.
Proof.
  repeat split.
  - intros [|[|[|[|?]]]]; vm_compute; intros; (lia || discriminate).
  - intros [|[|[|[|?]]]] ?; vm_compute; intros; discriminate.
  - intros [|[|[|[|?]]]] ?; vm_compute; intros H; try discriminate;
      injection H as <-; lia.
Qed.

Lemma nested_family_linked : linked nested_family.
Proof.
  split.
  - intros [|[|[|[|p]]]] [|[|[|[|c]]]]; linked_cases.
  - intros [|[|[|[|p]]]]; vm_compute; repeat constructor; simpl; intuition discriminate.
Qed.

Lemma halt_reaches_every_descendant_witness :
  state (nodes (world_after (halt contextOf_value 8 1 (VStr "stop") nested_family)) 3)
  = halted.
Proof.
  assert (B : isBlocking (nodes nested_family 1) = true) by (vm_compute; reflexivity).
  assert (P1 : parent (nodes nested_family 1) = None) by (vm_compute; reflexivity).
  assert (Hp : forall p, parent (nodes nested_family 1) = Some p ->
                         isWaiting (nodes nested_family p) = false)
    by (intros p H; rewrite P1 in H; discriminate).
  assert (Hd : descends nested_family 1 3).
  { apply (descends_child _ 1 2 3); [apply (descends_child _ 1 1 2)| |];
      [apply descends_self| | | |]; vm_compute; auto. }
  assert (R : returned (halt contextOf_value 8 1 (VStr "stop") nested_family) = true)
    by (vm_compute; reflexivity).
  refine (proj1 (proj1 (proj2 (halt_reaches_every_descendant contextOf_value
                                 (VStr "stop") depth_rank 4 1 nested_family
                                 nested_family_sound nested_family_linked B Hp)
                          8 _ (returned_done _ R)) _ 3 Hd)).
  intros m c _ _. unfold halts_child.
  replace (js_or (VStr "stop") (result (nodes nested_family m)))
    with (VStr "stop") by reflexivity.
  apply orb_true_r.
Defined.
